(** * jsshell-extended: path resolver, virtual filesystem, tokenizer,
      dispatcher and completion engine, embedded shallowly.

    JavaScript strings are modelled as [string] (sequences of character
    codes), arrays as [list], a value that may be [undefined]/[null] as
    [option].  Code that throws is modelled in a state-and-exception monad
    whose [Throw] keeps the store exactly as the statements executed so far
    left it. *)

From Stdlib Require Import String Ascii List Bool Arith ZArith Lia.
From Stdlib Require Import DecimalString Sorted.
Import ListNotations.
Open Scope string_scope.
Set Warnings "-register-all".

(* ================================================================== *)
(** ** String primitives used by the sources *)
(* ================================================================== *)

Module JsString.

(** [s.split(sep)] for a one-character separator: never returns the
    empty array, [''.split('/')] is [['']]. *)
Fixpoint split (sep : ascii) (s : string) : list string :=
  match s with
  | EmptyString => [EmptyString]
  | String c rest =>
      if Ascii.eqb c sep then EmptyString :: split sep rest
      else match split sep rest with
           | [] => [String c EmptyString]
           | h :: t => String c h :: t
           end
  end.

(** [parts.join(sep)]. *)
Fixpoint join (sep : string) (parts : list string) : string :=
  match parts with
  | [] => EmptyString
  | p :: rest =>
      match rest with
      | [] => p
      | _ :: _ => p ++ sep ++ join sep rest
      end
  end.

(** [s.startsWith(p)]. *)
Fixpoint startsWith (s p : string) {struct p} : bool :=
  match p with
  | EmptyString => true
  | String a p' =>
      match s with
      | EmptyString => false
      | String b s' => Ascii.eqb b a && startsWith s' p'
      end
  end.

(** [s.includes(c)] for a one-character needle. *)
Fixpoint includes (c : ascii) (s : string) : bool :=
  match s with
  | EmptyString => false
  | String a rest => Ascii.eqb a c || includes c rest
  end.

(** Reverse of a string, used for suffix operations. *)
Fixpoint rev_acc (s acc : string) : string :=
  match s with
  | EmptyString => acc
  | String c rest => rev_acc rest (String c acc)
  end.
Definition rev (s : string) : string := rev_acc s EmptyString.

(** [s.endsWith(p)]. *)
Definition endsWith (s p : string) : bool := startsWith (rev s) (rev p).

(** [s.slice(n)] for [0 <= n]. *)
Fixpoint drop (n : nat) (s : string) : string :=
  match n, s with
  | O, _ => s
  | S k, EmptyString => EmptyString
  | S k, String _ rest => drop k rest
  end.

(** [s.slice(0, n)] for [0 <= n]. *)
Fixpoint take (n : nat) (s : string) : string :=
  match n, s with
  | O, _ => EmptyString
  | S k, EmptyString => EmptyString
  | S k, String c rest => String c (take k rest)
  end.

(** White space as [String.prototype.trim] and the regular expression
    class [\s] see it, restricted to one-unit codes: TAB, LF, VT, FF, CR,
    SPACE and NBSP. *)
Definition isTrimSpace (c : ascii) : bool :=
  let n := nat_of_ascii c in
  ((9 <=? n)%nat && (n <=? 13)%nat) || (n =? 32)%nat || (n =? 160)%nat.

Fixpoint trimStart (s : string) : string :=
  match s with
  | EmptyString => EmptyString
  | String c rest => if isTrimSpace c then trimStart rest else s
  end.

Definition trim (s : string) : string := rev (trimStart (rev (trimStart s))).

(** [s.toLowerCase()] on the ASCII letters. *)
Definition lowerChar (c : ascii) : ascii :=
  let n := nat_of_ascii c in
  if (65 <=? n)%nat && (n <=? 90)%nat then ascii_of_nat (n + 32) else c.

Fixpoint toLowerCase (s : string) : string :=
  match s with
  | EmptyString => EmptyString
  | String c rest => String (lowerChar c) (toLowerCase rest)
  end.

End JsString.

(* ================================================================== *)
(** ** fs/pathUtils.js *)
(* ================================================================== *)

Module PathUtils.
Import JsString.

(** Body of the [for (const part of rawParts)] loop: [result] is the
    array being built, [pop] drops its last element, [push] appends. *)
Definition normalizeStep (result : list string) (part : string) : list string :=
  if part =? ".." then
    if (0 <? List.length result)%nat then removelast result else result
  else result ++ [part].

Definition rawPartsOf (path : string) : list string :=
  filter (fun p => negb (p =? "") && negb (p =? ".")) (split "/" path).

Definition normalizePathParts (cwdParts : list string) (path : string)
  : list string :=
  let base := cwdParts in
  if (path =? "") || (path =? ".") then base
  else
    let isAbsolute := startsWith path "/" in
    let rawParts := rawPartsOf path in
    let result := if isAbsolute then [] else base in
    fold_left normalizeStep rawParts result.

(** ['/' + parts.join('/')], the display form of a segment list. *)
Definition toDisplayPath (parts : list string) : string :=
  "/" ++ join "/" parts.

Definition normalizePathFromCwd (cwdPath path : string) : string :=
  let cwdParts :=
    if (cwdPath =? "") || (cwdPath =? "/") then []
    else filter (fun p => negb (p =? "")) (split "/" cwdPath) in
  let parts := normalizePathParts cwdParts path in
  "/" ++ join "/" parts.

End PathUtils.

(* ================================================================== *)
(** ** utils/commandLine.js *)
(* ================================================================== *)

Module CommandLine.
Import JsString.

(** The double quote character (code 34). *)
Definition dquote : ascii := "034"%char.
(** The single quote character. *)
Definition squote : ascii := "'"%char.
Definition backslash : ascii := "\"%char.

Definition isWhitespace (ch : ascii) : bool :=
  Ascii.eqb ch " "%char || Ascii.eqb ch "009"%char
  || Ascii.eqb ch "010"%char || Ascii.eqb ch "013"%char.

Record Token : Type := mkToken {
  value : string;
  rawStart : nat;
  rawEnd : nat;
  tokQuoteChar : option ascii;
  tokHadQuotes : bool
}.

(** The variables of [tokenizeCommandLine] that the loop and [pushToken]
    assign: [tokens], [buf], [tokenStart], [quote], [quoteChar],
    [hadQuotes], [escaping]. *)
Record Lexer : Type := mkLexer {
  tokens : list Token;
  buf : string;
  tokenStart : option nat;
  quote : option ascii;
  quoteChar : option ascii;
  hadQuotes : bool;
  escaping : bool
}.

Definition initLexer : Lexer := mkLexer [] "" None None None false false.

(** The closure [pushToken(tokenEnd)]: besides pushing, it resets every
    per-token variable, [quote] included. *)
Definition pushToken (tokenEnd : nat) (st : Lexer) : Lexer :=
  match tokenStart st with
  | None => st
  | Some start =>
      mkLexer
        (tokens st ++ [mkToken (buf st) start tokenEnd (quoteChar st)
                         (hadQuotes st)])
        "" None None None false false
  end.

(** [if (tokenStart == null) tokenStart = v]. *)
Definition startAt (v : nat) (st : Lexer) : option nat :=
  match tokenStart st with
  | None => Some v
  | Some start => Some start
  end.

Definition appendChar (s : string) (ch : ascii) : string :=
  s ++ String ch EmptyString.

(** One pass of the [while (i < src.length)] loop on [ch = src[i]].  In
    the white space branch the source also skips the white space that
    follows; here each of those characters takes the same branch again
    with [tokenStart], [quote] and [escaping] already cleared, which
    changes nothing. *)
Definition stepChar (ch : ascii) (i : nat) (st : Lexer) : Lexer :=
  if escaping st then
    mkLexer (tokens st) (appendChar (buf st) ch) (startAt (i - 1) st)
      (quote st) (quoteChar st) (hadQuotes st) false
  else if Ascii.eqb ch backslash then
    mkLexer (tokens st) (buf st) (startAt i st)
      (quote st) (quoteChar st) (hadQuotes st) true
  else
    match quote st with
    | Some q =>
        if Ascii.eqb ch q then
          mkLexer (tokens st) (buf st) (tokenStart st)
            None (quoteChar st) true (escaping st)
        else
          mkLexer (tokens st) (appendChar (buf st) ch) (startAt i st)
            (quote st) (quoteChar st) (hadQuotes st) (escaping st)
    | None =>
        if Ascii.eqb ch dquote || Ascii.eqb ch squote then
          mkLexer (tokens st) (buf st) (startAt i st)
            (Some ch) (Some ch) true (escaping st)
        else if isWhitespace ch then
          match tokenStart st with
          | Some _ => pushToken i st
          | None => st
          end
        else
          mkLexer (tokens st) (appendChar (buf st) ch) (startAt i st)
            (quote st) (quoteChar st) (hadQuotes st) (escaping st)
    end.

(** The loop, from index [i] over the rest of the input. *)
Fixpoint scan (rest : string) (i : nat) (st : Lexer) : Lexer :=
  match rest with
  | EmptyString => st
  | String ch rest' => scan rest' (S i) (stepChar ch i st)
  end.

(** The statements after the loop, up to the [return]. *)
Definition finish (len : nat) (st : Lexer) : Lexer :=
  let st1 :=
    if escaping st then
      mkLexer (tokens st) (appendChar (buf st) backslash) (tokenStart st)
        (quote st) (quoteChar st) (hadQuotes st) false
    else st in
  match tokenStart st1 with
  | Some _ => pushToken len st1
  | None => st1
  end.

Fixpoint lastChar (s : string) : option ascii :=
  match s with
  | EmptyString => None
  | String c EmptyString => Some c
  | String _ rest => lastChar rest
  end.

Record Tokenized : Type := mkTokenized {
  resTokens : list Token;
  endsWithSpace : bool;
  unterminatedQuote : bool
}.

(** [Boolean(quote)]: a one-character string is truthy. *)
Definition truthyQuote (q : option ascii) : bool :=
  match q with Some _ => true | None => false end.

Definition tokenizeCommandLine (src : string) : Tokenized :=
  let st := finish (String.length src) (scan src 0 initLexer) in
  mkTokenized
    (tokens st)
    (match lastChar src with
     | Some c => isWhitespace c
     | None => false
     end)
    (truthyQuote (quote st)).

Definition parseCommandLine (input : string) : string * list string :=
  let parts := map value (resTokens (tokenizeCommandLine input)) in
  (match parts with
   | [] => ""
   | p :: _ => p
   end,
   tl parts).

(** [v.replace(/c/g, '\\' + c)]: a backslash before every [c]. *)
Fixpoint escapeChar (c : ascii) (v : string) : string :=
  match v with
  | EmptyString => EmptyString
  | String a rest =>
      if Ascii.eqb a c then String backslash (String a (escapeChar c rest))
      else String a (escapeChar c rest)
  end.

(** The test of [v] against the pattern of white space, either quote
    character, or a backslash. *)
Fixpoint needsQuoting (v : string) : bool :=
  match v with
  | EmptyString => false
  | String a rest =>
      isTrimSpace a || Ascii.eqb a dquote || Ascii.eqb a squote
      || Ascii.eqb a backslash || needsQuoting rest
  end.

Definition quoteArgIfNeeded (v : string) (preferredQuote : ascii) : string :=
  if negb (needsQuoting v) then v
  else
    let q := if Ascii.eqb preferredQuote squote then squote else dquote in
    let escaped := escapeChar q (escapeChar backslash v) in
    String q (escaped ++ String q EmptyString).

(** The quote variable when the loop has consumed the whole input: the
    line ends inside an open quoted span exactly when it is set. *)
Definition endsInsideQuote (src : string) : bool :=
  truthyQuote (quote (scan src 0 initLexer)).

End CommandLine.

(* ================================================================== *)
(** ** fs/virtualFileSystem.js *)
(* ================================================================== *)

Module Vfs.
Import JsString PathUtils.

(** A file node.  [fileName] is an [option] because [writeFile] stores
    whatever [parts.pop()] returned, which is [undefined] for an empty
    segment list. *)
Record VfsFile : Type := mkFile {
  fileName : option string;
  fileContent : string
}.

Inductive VfsFolder : Type :=
| mkFolder (name : string) (folders : list VfsFolder) (files : list VfsFile).

Definition folderName (d : VfsFolder) : string :=
  match d with mkFolder n _ _ => n end.
Definition folders (d : VfsFolder) : list VfsFolder :=
  match d with mkFolder _ fs _ => fs end.
Definition files (d : VfsFolder) : list VfsFile :=
  match d with mkFolder _ _ fl => fl end.

Record VfsState : Type := mkState {
  root : VfsFolder;
  cwdParts : list string
}.

(** The object over a storage whose [setItem] returns: the in-memory
    state, the copy last written to storage under the VFS key, and how
    many times [save] ran.  The object over a storage whose [setItem] can
    throw is [VfsStorage.VfsObject]. *)
Record Store : Type := mkStore {
  state : VfsState;
  persisted : option VfsState;
  saveCount : nat
}.

(** The errors the class throws, one constructor per message, and the
    dereference of [null]/[undefined] that the engine raises itself. *)
Inductive VfsError : Type :=
| CdNoSuchDir (path : string)
| MkdirInvalidName
| MkdirFileExists (name : string)
| LsNoSuch (path : string)
| RmdirNoSuch (name : string)
| RmdirNotEmpty (name : string)
| CatNoSuchFile (path : string)
| NoSuchFile (path : string)
| NoSuchDirForPath (path : string)
| TypeErrorNull.

Inductive ErrorKind : Type :=
| NotFound | AlreadyExists | NotEmpty | InvalidName | TypeError.

Definition errorKind (e : VfsError) : ErrorKind :=
  match e with
  | CdNoSuchDir _ | LsNoSuch _ | RmdirNoSuch _ | CatNoSuchFile _
  | NoSuchFile _ | NoSuchDirForPath _ => NotFound
  | MkdirInvalidName => InvalidName
  | MkdirFileExists _ => AlreadyExists
  | RmdirNotEmpty _ => NotEmpty
  | TypeErrorNull => TypeError
  end.

Inductive Outcome (A : Type) : Type :=
| Ok (a : A)
| Throw (e : VfsError).
Arguments Ok {A} a.
Arguments Throw {A} e.

(** Statements of a method: they run on the store and either return or
    throw, and in both cases leave the store as mutated so far. *)
Definition M (A : Type) : Type := Store -> Outcome A * Store.

Definition ret {A} (a : A) : M A := fun s => (Ok a, s).
Definition throw {A} (e : VfsError) : M A := fun s => (Throw e, s).
Definition bind {A B} (c : M A) (k : A -> M B) : M B :=
  fun s => match c s with
           | (Ok a, s') => k a s'
           | (Throw e, s') => (Throw e, s')
           end.

Notation "x <- c ;; k" := (bind c (fun x => k))
  (at level 61, c at next level, right associativity).
Notation "c ;;; k" := (bind c (fun _ => k))
  (at level 61, right associativity).

(** [try { c } catch (_) { h }]. *)
Definition tryCatch {A} (c : M A) (h : VfsError -> M A) : M A :=
  fun s => match c s with
           | (Ok a, s') => (Ok a, s')
           | (Throw e, s') => h e s'
           end.

Definition getState : M VfsState := fun s => (Ok (state s), s).

Definition setState (st : VfsState) : M unit :=
  fun s => (Ok tt, mkStore st (persisted s) (saveCount s)).

(** [save()] when [this._storage.setItem] returns: the whole state is
    written under the VFS key.  [VfsStorage.save] is [save()] with a
    [setItem] that can throw. *)
Definition save : M unit :=
  fun s => (Ok tt, mkStore (state s) (Some (state s)) (S (saveCount s))).

Definition createDefaultState : VfsState :=
  mkState (mkFolder "/" [] []) [].

(** A freshly constructed object over empty storage. *)
Definition emptyStore : Store := mkStore createDefaultState None 0.

(** [f.name === name] on file nodes. *)
Definition nameEq (a b : option string) : bool :=
  match a, b with
  | Some x, Some y => x =? y
  | None, None => true
  | _, _ => false
  end.

Definition folderNamed (part : string) (d : VfsFolder) : bool :=
  folderName d =? part.
Definition fileNamed (name : option string) (f : VfsFile) : bool :=
  nameEq (fileName f) name.

(** [_resolveFolder(parts)], started at [current]. *)
Fixpoint resolveFolderFrom (current : VfsFolder) (parts : list string)
  : option VfsFolder :=
  match parts with
  | [] => Some current
  | part :: rest =>
      match find (folderNamed part) (folders current) with
      | None => None
      | Some next => resolveFolderFrom next rest
      end
  end.

Definition resolveFolder (parts : list string) : M (option VfsFolder) :=
  st <- getState ;; ret (resolveFolderFrom (root st) parts).

(** Apply [g] to the first element satisfying [p]: the element a
    reference obtained with [find] points to. *)
Fixpoint updateFirst {A} (p : A -> bool) (g : A -> A) (l : list A) : list A :=
  match l with
  | [] => []
  | x :: rest => if p x then g x :: rest else x :: updateFirst p g rest
  end.

(** In-place mutation of the folder object that [_resolveFolder(parts)]
    returned: the tree is rebuilt along the same first-match walk. *)
Fixpoint updateFolderAt (parts : list string) (g : VfsFolder -> VfsFolder)
    (current : VfsFolder) : VfsFolder :=
  match parts with
  | [] => g current
  | part :: rest =>
      mkFolder (folderName current)
        (updateFirst (folderNamed part) (updateFolderAt rest g)
           (folders current))
        (files current)
  end.

Definition mutateFolder (parts : list string) (g : VfsFolder -> VfsFolder)
  : M unit :=
  st <- getState ;;
  setState (mkState (updateFolderAt parts g (root st)) (cwdParts st)).

(** [arr.findIndex(p)], [None] for -1. *)
Fixpoint findIndex {A} (p : A -> bool) (l : list A) : option nat :=
  match l with
  | [] => None
  | x :: rest =>
      if p x then Some 0
      else match findIndex p rest with
           | None => None
           | Some i => Some (S i)
           end
  end.

(** [arr.splice(idx, 1)]. *)
Fixpoint removeAt {A} (idx : nat) (l : list A) : list A :=
  match l, idx with
  | [], _ => []
  | _ :: rest, O => rest
  | x :: rest, S i => x :: removeAt i rest
  end.

(** [parts.pop()]: the shortened array and the removed element. *)
Definition pop (parts : list string) : list string * option string :=
  (removelast parts, last (map Some parts) None).

Definition normalizePath (path : string) : M (list string) :=
  st <- getState ;; ret (normalizePathParts (cwdParts st) path).

Definition getCwdFolder : M (option VfsFolder) :=
  st <- getState ;; resolveFolder (cwdParts st).

Definition getCwdPath : M string :=
  st <- getState ;; ret ("/" ++ join "/" (cwdParts st)).

Definition changeDirectory (path : string) : M unit :=
  parts <- normalizePath path ;;
  folder <- resolveFolder parts ;;
  match folder with
  | None => throw (CdNoSuchDir path)
  | Some _ =>
      st <- getState ;;
      setState (mkState (root st) parts) ;;;
      save
  end.

(** [/[\\/]/.test(name)]. *)
Definition hasSeparator (name : string) : bool :=
  includes "\" name || includes "/" name.

Definition mkdir (name : string) : M unit :=
  if (name =? "") || hasSeparator name then throw MkdirInvalidName
  else
    st <- getState ;;
    cwd <- getCwdFolder ;;
    match cwd with
    | None => throw TypeErrorNull
    | Some c =>
        if existsb (folderNamed name) (folders c)
           || existsb (fileNamed (Some name)) (files c)
        then throw (MkdirFileExists name)
        else
          mutateFolder (cwdParts st)
            (fun d => mkFolder (folderName d)
                        (folders d ++ [mkFolder name [] []]) (files d)) ;;;
          save
    end.

(** [list(path)]; named [listFolder] here because [list] is the type. *)
Definition listFolder (path : string)
  : M (list string * list (option string)) :=
  folder <- (if path =? "." then getCwdFolder
             else (parts <- normalizePath path ;; resolveFolder parts)) ;;
  match folder with
  | None => throw (LsNoSuch path)
  | Some d => ret (map folderName (folders d), map fileName (files d))
  end.

Definition rmdir (name : string) : M unit :=
  st <- getState ;;
  cwd <- getCwdFolder ;;
  match cwd with
  | None => throw TypeErrorNull
  | Some c =>
      match findIndex (folderNamed name) (folders c) with
      | None => throw (RmdirNoSuch name)
      | Some idx =>
          match nth_error (folders c) idx with
          | None => throw TypeErrorNull
          | Some folder =>
              if negb (List.length (folders folder) =? 0)%nat
                 || negb (List.length (files folder) =? 0)%nat
              then throw (RmdirNotEmpty name)
              else
                mutateFolder (cwdParts st)
                  (fun d => mkFolder (folderName d)
                              (removeAt idx (folders d)) (files d)) ;;;
                save
          end
      end
  end.

(** [_ensureFileParent(path)]: the parent is returned as the segment list
    that resolves to it, standing for the object reference. *)
Definition ensureFileParent (path : string)
  : M (list string * option string * option VfsFile) :=
  parts0 <- normalizePath path ;;
  let '(parts, name) := pop parts0 in
  parent <- resolveFolder parts ;;
  match parent with
  | None => throw (NoSuchDirForPath path)
  | Some d => ret (parts, name, find (fileNamed name) (files d))
  end.

Definition writeFile (path content : string) : M unit :=
  r <- ensureFileParent path ;;
  let '(parent, name, existingFile) := r in
  match existingFile with
  | Some _ =>
      mutateFolder parent
        (fun d => mkFolder (folderName d) (folders d)
                    (updateFirst (fileNamed name)
                       (fun f => mkFile (fileName f) content) (files d)))
  | None =>
      mutateFolder parent
        (fun d => mkFolder (folderName d) (folders d)
                    (files d ++ [mkFile name content]))
  end ;;;
  save.

(** [_getFile(path)]. *)
Definition getFile (path : string) : M (option VfsFile) :=
  parts0 <- normalizePath path ;;
  let '(parts, name) := pop parts0 in
  parent <- resolveFolder parts ;;
  match parent with
  | None => ret None
  | Some d => ret (find (fileNamed name) (files d))
  end.

Definition readFile (path : string) : M string :=
  file <- getFile path ;;
  match file with
  | None => throw (CatNoSuchFile path)
  | Some f => ret (fileContent f)
  end.

Definition unlink (path : string) : M unit :=
  parts0 <- normalizePath path ;;
  let '(parts, name) := pop parts0 in
  parent <- resolveFolder parts ;;
  match parent with
  | None => throw (NoSuchFile path)
  | Some d =>
      match findIndex (fileNamed name) (files d) with
      | None => throw (NoSuchFile path)
      | Some idx =>
          mutateFolder parts
            (fun d' => mkFolder (folderName d') (folders d')
                         (removeAt idx (files d'))) ;;;
          save
      end
  end.

End Vfs.

(* ================================================================== *)
(** ** jsShellHolder.js and the command modules it registers *)
(* ================================================================== *)

Module Holder.
Import JsString PathUtils CommandLine Vfs.

(** A value read from [/sys/env.json]: a string, or anything else. *)
Inductive Json : Type :=
| JString (s : string)
| JOther.

(** [env]: [PATH] is an array, [ALIAS] an object (keys in order of
    definition, each key once). *)
Record Env : Type := mkEnv {
  PATH : list Json;
  ALIAS : list (string * Json)
}.

(** What a handler can put in [error] or throw: a store error, or an
    [Error] made from a message. *)
Inductive ShellError : Type :=
| VfsErr (e : VfsError)
| ErrMsg (m : string).

Definition vfsMessage (e : VfsError) : string :=
  match e with
  | CdNoSuchDir path => "cd: no such file or directory: " ++ path
  | MkdirInvalidName =>
      "mkdir: folder name must be a simple name without path separators"
  | MkdirFileExists name =>
      "mkdir: cannot create directory '" ++ name ++ "': File exists"
  | LsNoSuch path =>
      "ls: cannot access '" ++ path ++ "': No such file or directory"
  | RmdirNoSuch name =>
      "rmdir: failed to remove '" ++ name ++ "': No such file or directory"
  | RmdirNotEmpty name =>
      "rmdir: failed to remove '" ++ name ++ "': Directory not empty"
  | CatNoSuchFile path => "cat: " ++ path ++ ": No such file"
  | NoSuchFile path => "No such file: " ++ path
  | NoSuchDirForPath path => "No such directory for path: " ++ path
  | TypeErrorNull => "Cannot read properties of null"
  end.

Definition errorMessage (e : ShellError) : string :=
  match e with
  | VfsErr v => vfsMessage v
  | ErrMsg m => m
  end.

(** What the shell session consists of here: the store singleton, the
    lines printed so far, the history array. *)
Record World : Type := mkWorld {
  vfs : Store;
  printed : list string;
  commandHistory : list string
}.

Definition print (line : string) (w : World) : World :=
  mkWorld (vfs w) (printed w ++ [line]) (commandHistory w).

(** Run a store operation on the singleton. *)
Definition onVfs {A} (c : M A) (w : World) : Outcome A * World :=
  let '(o, s') := c (vfs w) in
  (o, mkWorld s' (printed w) (commandHistory w)).

(** The object a handler returns; an absent field is [None]. *)
Record HandlerResult : Type := mkResult {
  handled : bool;
  shouldContinue : option bool;
  ok : option bool;
  error : option ShellError
}.

(** A handler call returns an object (or a falsy value), or throws. *)
Inductive HandlerOutcome : Type :=
| Returned (r : option HandlerResult)
| Thrown (e : ShellError).

Definition Handler : Type :=
  string -> list string -> World -> HandlerOutcome * World.

Definition notMine : HandlerOutcome :=
  Returned (Some (mkResult false (Some true) None None)).

(* ---------------- programs/exit.js ---------------- *)

Definition executeExitCommand : Handler := fun command args w =>
  if negb (toLowerCase command =? "exit") then (notMine, w)
  else
    (Returned (Some (mkResult true (Some false) None None)),
     print "Bye..." w).

(* ---------------- programs/cd.js ---------------- *)

Definition executeCdCommand : Handler := fun command args w =>
  if negb (toLowerCase command =? "cd") then (notMine, w)
  else
    let target :=
      match args with
      | [] => "/"
      | a :: _ => if a =? "" then "/" else a
      end in
    match onVfs (changeDirectory target) w with
    | (Throw err, w1) =>
        (Returned (Some (mkResult true (Some true) (Some false)
                           (Some (VfsErr err)))),
         print "" (print (vfsMessage err) w1))
    | (Ok _, w1) =>
        (Returned (Some (mkResult true (Some true) (Some true) None)), w1)
    end.

(* ---------------- programs/pwd.js ---------------- *)

Definition executePwdCommand : Handler := fun command args w =>
  if negb (toLowerCase command =? "pwd") then (notMine, w)
  else
    (Returned (Some (mkResult true (Some true) (Some true) None)),
     print "" (print ("/" ++ join "/" (cwdParts (state (vfs w)))) w)).

(** The [for (const x of args) { try { op(x) } catch (err) { hadError =
    true; shell.print(...) } }] loop shared by [rmdir], [rm], [mkdir]. *)
Fixpoint forEachArg (op : string -> M unit)
    (report : string -> VfsError -> string)
    (args : list string) (hadError : bool) (w : World) : bool * World :=
  match args with
  | [] => (hadError, w)
  | a :: rest =>
      match onVfs (op a) w with
      | (Ok _, w1) => forEachArg op report rest hadError w1
      | (Throw err, w1) =>
          forEachArg op report rest true (print (report a err) w1)
      end
  end.

Definition finishArgs (failure : string) (r : bool * World)
  : HandlerOutcome * World :=
  let '(hadError, w1) := r in
  (Returned (Some (if hadError
                   then mkResult true (Some true) (Some false)
                          (Some (ErrMsg failure))
                   else mkResult true (Some true) (Some true) None)),
   print "" w1).

(* ---------------- programs/rmdir.js ---------------- *)

Definition executeRmdirCommand : Handler := fun command args w =>
  if negb (toLowerCase command =? "rmdir") then (notMine, w)
  else
    match args with
    | [] =>
        (Returned (Some (mkResult true (Some true) (Some false)
                           (Some (ErrMsg "rmdir: missing operand")))),
         print "" (print "rmdir: missing operand" w))
    | _ :: _ =>
        finishArgs "rmdir: one or more operations failed"
          (forEachArg rmdir (fun _ err => vfsMessage err) args false w)
    end.

(* ---------------- programs/rm.js ---------------- *)

Definition executeRmCommand : Handler := fun command args w =>
  if negb (toLowerCase command =? "rm") then (notMine, w)
  else
    match args with
    | [] =>
        (Returned (Some (mkResult true (Some true) (Some false)
                           (Some (ErrMsg "rm: missing operand")))),
         print "" (print "Try 'rm filename'"
                     (print "rm: missing operand" w)))
    | _ :: _ =>
        finishArgs "rm: one or more operations failed"
          (forEachArg unlink
             (fun path err =>
                "rm: cannot remove '" ++ path ++ "': " ++ vfsMessage err)
             args false w)
    end.

(* ---------------- programs/touch.js ---------------- *)

Definition touchOne (path : string) : M unit :=
  content <- tryCatch (readFile path) (fun _ => ret "") ;;
  writeFile path content.

Definition executeTouchCommand : Handler := fun command args w =>
  if negb (toLowerCase command =? "touch") then (notMine, w)
  else
    match args with
    | [] =>
        (Returned (Some (mkResult true (Some true) (Some false)
                           (Some (ErrMsg "touch: missing operand")))),
         print "" (print "Try 'touch filename'"
                     (print "touch: missing file operand" w)))
    | _ :: _ =>
        finishArgs "touch: one or more operations failed"
          (forEachArg touchOne (fun _ err => vfsMessage err) args false w)
    end.

(* ---------------- programs/mkdir.js ---------------- *)

(** Modelled from the spec: [executeMkdirCommand] of [programs/mkdir.js],
    which is not among the sources.  The spec gives [mkdir(name)] on a
    bare segment in the cwd, failing with an invalid-name or
    already-exists error, and says that handlers catch store errors and
    print a user-facing line; the command takes one or more operands
    ([mkdir <path> [path2 ...]]).  The shape follows the sibling
    [rmdir.js]: name gate, missing-operand failure, one [vfs.mkdir] per
    operand, [ok] false when any of them threw. *)
Definition executeMkdirCommand : Handler := fun command args w =>
  if negb (toLowerCase command =? "mkdir") then (notMine, w)
  else
    match args with
    | [] =>
        (Returned (Some (mkResult true (Some true) (Some false)
                           (Some (ErrMsg "mkdir: missing operand")))),
         print "" (print "mkdir: missing operand" w))
    | _ :: _ =>
        finishArgs "mkdir: one or more operations failed"
          (forEachArg mkdir (fun _ err => vfsMessage err) args false w)
    end.

(** A registered module whose body is not modelled: the name gate every
    one of them starts with, then an arbitrary body. *)
Definition gated (name : string) (body : Handler) : Handler :=
  fun command args w =>
    if negb (toLowerCase command =? name) then (notMine, w)
    else body command args w.

(** The same with the gate of [backup], [restore] and [config], which
    compare the command as typed. *)
Definition gatedExact (name : string) (body : Handler) : Handler :=
  fun command args w =>
    if negb (command =? name) then (notMine, w)
    else body command args w.

(* ---------------- programs/runScript.js ---------------- *)

Section Scripts.
(** [runSource(shell, command, args, source)]: evaluating the script
    text is outside the embedding; it reports [ok] and an error and
    may do anything to the session. *)
Variable runSource :
  string -> list string -> string -> World
  -> (bool * option ShellError) * World.

Definition executeVfsScript (scriptPath : string) (args : list string)
    (invokedAs : string) (w : World) : HandlerOutcome * World :=
  match onVfs (readFile scriptPath) w with
  | (Throw err, w1) =>
      (Returned (Some (mkResult true (Some true) (Some false)
                         (Some (VfsErr err)))),
       print "" (print ("exec: " ++ scriptPath ++ ": " ++ vfsMessage err)
                   w1))
  | (Ok source, w1) =>
      let command := if invokedAs =? "" then scriptPath else invokedAs in
      let '((rok, rerr), w2) := runSource command args source w1 in
      (Returned (Some (mkResult true (Some true) (Some rok) rerr)),
       print "" w2)
  end.

Definition executeScriptFile : Handler := fun command args w =>
  if (command =? "") || negb (startsWith command "./")
     || negb (endsWith command ".js")
  then (notMine, w)
  else
    let cwdPath := "/" ++ join "/" (cwdParts (state (vfs w))) in
    let canonicalPath := normalizePathFromCwd cwdPath (drop 2 command) in
    match onVfs (readFile canonicalPath) w with
    | (Throw err, w1) =>
        (Returned (Some (mkResult true (Some true) (Some false)
                           (Some (VfsErr err)))),
         print "" (print ("exec: " ++ command ++ ": " ++ vfsMessage err)
                     w1))
    | (Ok source, w1) =>
        let '((rok, rerr), w2) := runSource command args source w1 in
        (Returned (Some (mkResult true (Some true) (Some rok) rerr)),
         print "" w2)
    end.

(** The registered modules in registration order.  [other name] is the
    body of a module that is not modelled. *)
Definition commandModules (other : string -> Handler) : list Handler :=
  [ gated "help" (other "help");
    gated "cls" (other "cls");
    executeExitCommand;
    gated "date" (other "date");
    executeMkdirCommand;
    gated "ls" (other "ls");
    gated "find" (other "find");
    gated "grep" (other "grep");
    executeRmdirCommand;
    executeCdCommand;
    executePwdCommand;
    gated "cat" (other "cat");
    executeTouchCommand;
    executeRmCommand;
    gated "print" (other "print");
    gated "copy" (other "copy");
    gated "delay" (other "delay");
    gated "mv" (other "mv");
    executeScriptFile;
    gated "init" (other "init");
    gatedExact "backup" (other "backup");
    gatedExact "restore" (other "restore");
    gated "download" (other "download");
    gated "upload" (other "upload");
    gatedExact "config" (other "config") ].

(* ---------------- alias expansion ---------------- *)

(** [env.ALIAS[command]]. *)
Fixpoint lookupAlias (al : list (string * Json)) (k : string)
  : option Json :=
  match al with
  | [] => None
  | (k', v) :: rest => if k' =? k then Some v else lookupAlias rest k
  end.

(** [expandAliasesOnce]: the new command and arguments, and whether the
    returned [args] is the very array that was passed in (the caller
    compares the arrays with [===]; [concat] always makes a new
    one). *)
Definition expandAliasesOnce (env : Env) (command : string)
    (args : list string) : string * list string * bool :=
  match lookupAlias (ALIAS env) command with
  | Some (JString target) =>
      if trim target =? "" then (command, args, true)
      else
        let '(pc, pa) := parseCommandLine (trim target) in
        ((if pc =? "" then command else pc), (pa ++ args)%list, false)
  | _ => (command, args, true)
  end.

(** The variables of the [for] loop of [expandAliases]. *)
Record AliasLoop : Type := mkAliasLoop {
  loopIndex : nat;
  currentCommand : string;
  currentArgs : list string;
  seen : list string
}.

(** One evaluation of the loop condition and body: the next loop
    state, or the exit from the loop ([i < maxDepth] false, or one of
    the two [break]s). *)
Definition aliasLoopStep (env : Env) (maxDepth : nat) (st : AliasLoop)
  : option AliasLoop :=
  if (loopIndex st <? maxDepth)%nat then
    if existsb (String.eqb (currentCommand st)) (seen st) then None
    else
      let '(c, a, same) :=
        expandAliasesOnce env (currentCommand st) (currentArgs st) in
      if (c =? currentCommand st) && same then None
      else Some (mkAliasLoop (S (loopIndex st)) c a
                   (currentCommand st :: seen st))
  else None.

(** Running the loop for at most [fuel] evaluations: the state at the
    exit, or [None] when the fuel did not reach an exit. *)
Fixpoint aliasLoopRun (env : Env) (maxDepth : nat) (fuel : nat)
    (st : AliasLoop) : option AliasLoop :=
  match fuel with
  | O => None
  | S k =>
      match aliasLoopStep env maxDepth st with
      | None => Some st
      | Some st' => aliasLoopRun env maxDepth k st'
      end
  end.

(** [expandAliases(command, args, maxDepth)]: the loop runs at most
    [maxDepth] bodies, so [remaining] counts [maxDepth - i]. *)
Fixpoint expandAliasesLoop (env : Env) (remaining : nat)
    (command : string) (args : list string) (visited : list string)
  : string * list string :=
  match remaining with
  | O => (command, args)
  | S k =>
      if existsb (String.eqb command) visited then (command, args)
      else
        let '(c, a, same) := expandAliasesOnce env command args in
        if (c =? command) && same then (command, args)
        else expandAliasesLoop env k c a (command :: visited)
  end.

Definition expandAliasesDepth (env : Env) (command : string)
    (args : list string) (maxDepth : nat) : string * list string :=
  expandAliasesLoop env maxDepth command args [].

(** The call of [mainLoop], with the default [maxDepth = 5]. *)
Definition expandAliases (env : Env) (command : string)
    (args : list string) : string * list string :=
  expandAliasesDepth env command args 5.

(* ---------------- PATH lookup ---------------- *)

Fixpoint stripLeadingSlashes (s : string) : string :=
  match s with
  | String c rest =>
      if Ascii.eqb c "/"%char then stripLeadingSlashes rest else s
  | EmptyString => EmptyString
  end.

Definition stripTrailingSlashes (s : string) : string :=
  rev (stripLeadingSlashes (rev s)).

Definition joinVfsPath (dir file : string) : string :=
  stripTrailingSlashes dir ++ "/" ++ stripLeadingSlashes file.

Definition scriptFileName (commandName : string) : string :=
  if endsWith commandName ".js" then commandName
  else commandName ++ ".js".

(** [vfs.list(dir)] returned and its [files] include [fileName]; a
    throw of [list] lands in the empty [catch]. *)
Definition dirHasFile (w : World) (dir fileName : string) : bool :=
  match fst (listFolder dir (vfs w)) with
  | Ok (_, fileNames) => existsb (nameEq (Some fileName)) fileNames
  | Throw _ => false
  end.

Fixpoint searchPath (dirs : list Json) (fileName : string) (w : World)
  : option string :=
  match dirs with
  | [] => None
  | JString dir :: rest =>
      if startsWith dir "/" then
        if dirHasFile w dir fileName
        then Some (joinVfsPath dir fileName)
        else searchPath rest fileName w
      else searchPath rest fileName w
  | JOther :: rest => searchPath rest fileName w
  end.

Definition resolveScriptOnPath (env : Env) (commandName : string)
    (w : World) : option string :=
  if commandName =? "" then None
  else if includes "/" commandName then None
  else searchPath (PATH env) (scriptFileName commandName) w.

(* ---------------- strict dispatch and command scripts -------- *)

Record DispatchResult : Type := mkDispatch {
  dHandled : bool;
  dShouldContinue : bool;
  dOk : option bool;
  dError : option ShellError
}.

Inductive Dispatched : Type :=
| DReturn (r : DispatchResult)
| DThrow (e : ShellError).

(** [result.shouldContinue !== false]. *)
Definition notFalse (b : option bool) : bool :=
  match b with Some false => false | _ => true end.

(** [typeof result.ok === 'boolean' ? result.ok : true]. *)
Definition okOrTrue (b : option bool) : bool :=
  match b with Some v => v | None => true end.

Fixpoint dispatchRegisteredModules (modules : list Handler)
    (command : string) (args : list string) (w : World)
  : Dispatched * World :=
  match modules with
  | [] => (DReturn (mkDispatch false true None None), w)
  | handler :: rest =>
      match handler command args w with
      | (Thrown e, w1) => (DThrow e, w1)
      | (Returned None, w1) =>
          dispatchRegisteredModules rest command args w1
      | (Returned (Some result), w1) =>
          if handled result then
            (DReturn (mkDispatch true (notFalse (shouldContinue result))
                        (Some (okOrTrue (ok result))) (error result)),
             w1)
          else dispatchRegisteredModules rest command args w1
      end
  end.

Record StrictResult : Type := mkStrict {
  sOk : bool;
  sHandled : bool;
  sShouldContinue : bool;
  sError : option ShellError
}.

Definition dispatchStrict (modules : list Handler) (command : string)
    (args : list string) (w : World) : StrictResult * World :=
  if command =? "" then (mkStrict true true true None, w)
  else
    match dispatchRegisteredModules modules command args w with
    | (DThrow err, w1) => (mkStrict false true true (Some err), w1)
    | (DReturn result, w1) =>
        if negb (dHandled result) then
          (mkStrict false false true
             (Some (ErrMsg ("Command not found: " ++ command))), w1)
        else
          match dOk result with
          | Some false =>
              (mkStrict false true true
                 (Some (match dError result with
                        | Some e => e
                        | None => ErrMsg ("Execution failed: " ++ command)
                        end)), w1)
          | _ => (mkStrict true true (dShouldContinue result) None, w1)
          end
    end.

Definition parseSimpleCommandLine (line : string)
  : string * list string :=
  let trimmed := trim line in
  if trimmed =? "" then ("", [])
  else if startsWith trimmed "#" || startsWith trimmed "//" then ("", [])
  else parseCommandLine trimmed.

(** Remove one trailing CR. *)
Definition stripCR (s : string) : string :=
  match rev s with
  | String c rest => if Ascii.eqb c "013"%char then rev rest else s
  | EmptyString => s
  end.

Fixpoint stripCRButLast (pieces : list string) : list string :=
  match pieces with
  | [] => []
  | [p] => [p]
  | p :: rest => stripCR p :: stripCRButLast rest
  end.

(** [content.split(/\r?\n/)]. *)
Definition splitLines (content : string) : list string :=
  stripCRButLast (split "010"%char content).

Definition decimal (n : nat) : string :=
  NilZero.string_of_uint (Nat.to_uint n).

(** How the [for] loop of [runJshScript] ends: past the last line, at
    the [return] after a line that did not succeed (with the 1-based
    line number and the line), or at the [return] after a line that
    asked to leave the session. *)
Inductive JshExit : Type :=
| JshDone
| JshStopped (lineNo : nat) (rawLine : string)
| JshLeave.

(** The [for] loop of [runJshScript] from index [i] on. *)
Fixpoint runJshLines (modules : list Handler) (invokedAs : string)
    (lines : list string) (i : nat) (w : World) : JshExit * World :=
  match lines with
  | [] => (JshDone, w)
  | rawLine :: rest =>
      let '(command, args) := parseSimpleCommandLine rawLine in
      if command =? "" then runJshLines modules invokedAs rest (S i) w
      else
        let '(r, w1) := dispatchStrict modules command args w in
        if negb (sOk r) then
          (JshStopped (i + 1) rawLine,
           print ""
             (print ("jsh: " ++ match sError r with
                                | Some e => errorMessage e
                                | None => "error"
                                end)
                (print ("jsh: " ++ rawLine)
                   (print ("jsh: stopped at " ++ invokedAs ++ ":"
                           ++ decimal (i + 1)) w1))))
        else if negb (sShouldContinue r) then (JshLeave, w1)
        else runJshLines modules invokedAs rest (S i) w1
  end.

(** [runJshScript]: the result is [shouldContinue] of the returned
    object, whose [handled] is always true. *)
Definition runJshScript (modules : list Handler) (invokedAs : string)
    (w : World) : bool * World :=
  let cwdPath := "/" ++ join "/" (cwdParts (state (vfs w))) in
  let canonicalPath := normalizePathFromCwd cwdPath (drop 2 invokedAs) in
  match onVfs (readFile canonicalPath) w with
  | (Throw err, w1) =>
      (true,
       print "" (print ("exec: " ++ invokedAs ++ ": " ++ vfsMessage err)
                   w1))
  | (Ok content, w1) =>
      match runJshLines modules invokedAs (splitLines content) 0 w1 with
      | (JshLeave, w2) => (false, w2)
      | (_, w2) => (true, w2)
      end
  end.

(* ---------------- history bookkeeping ---------------- *)

(** [JSON.stringify(commandHistory, null, 2)] and the history limit read
    at start-up. *)
Variable stringifyHistory : list string -> string.
Variable historyLimit : nat.

Definition getParentDir (path : string) : string :=
  "/" ++ join "/" (removelast (filter (fun p => negb (p =? ""))
                                 (split "/" path))).

Fixpoint ensureDirParts (parts : list string) : M unit :=
  match parts with
  | [] => ret tt
  | part :: rest =>
      tryCatch (mkdir part) (fun _ => ret tt) ;;;
      changeDirectory part ;;;
      ensureDirParts rest
  end.

Definition ensureDirPath (path : string) : M unit :=
  cwdSnapshot <- getCwdPath ;;
  tryCatch
    (changeDirectory "/" ;;;
     ensureDirParts (filter (fun p => negb (p =? "")) (split "/" path)))
    (fun _ => ret tt) ;;;
  tryCatch (changeDirectory cwdSnapshot) (fun _ => ret tt).

Definition writeJsonToVfs (path text : string) : M unit :=
  tryCatch
    (let parent := getParentDir path in
     (if negb (parent =? "") && negb (parent =? "/")
      then ensureDirPath parent else ret tt) ;;;
     writeFile path text)
    (fun _ => ret tt).

Definition persistHistory (w : World) : World :=
  let n := List.length (commandHistory w) in
  let history :=
    if (historyLimit <? n)%nat
    then skipn (n - historyLimit) (commandHistory w)
    else commandHistory w in
  let w1 := mkWorld (vfs w) (printed w) history in
  snd (onVfs (writeJsonToVfs "/sys/history.json"
                (stringifyHistory history)) w1).

Definition recordHistory (trimmedInput : string) (w : World) : World :=
  if negb (trimmedInput =? "")
     && match commandHistory w with
        | [] => true
        | _ :: _ => negb (last (commandHistory w) "" =? trimmedInput)
        end
  then persistHistory (mkWorld (vfs w) (printed w)
                         (commandHistory w ++ [trimmedInput]))
  else w.

(* ---------------- the interactive loop ---------------- *)

(** The inline handler loop of [mainLoop]: [(handled,
    shouldContinue)], or the exception a handler threw. *)
Fixpoint tryHandlers (modules : list Handler) (command : string)
    (args : list string) (w : World)
  : (ShellError + bool * bool) * World :=
  match modules with
  | [] => (inr (false, true), w)
  | handler :: rest =>
      match handler command args w with
      | (Thrown e, w1) => (inl e, w1)
      | (Returned None, w1) => tryHandlers rest command args w1
      | (Returned (Some result), w1) =>
          if handled result
          then (inr (true, notFalse (shouldContinue result)), w1)
          else tryHandlers rest command args w1
      end
  end.

(** The PATH fallback of [mainLoop], given [handled] and
    [shouldContinue] after the handler loop. *)
Definition pathFallback (env : Env) (command : string)
    (args : list string) (hs : bool * bool) (w : World)
  : (bool * bool) * World :=
  let '(wasHandled, cont) := hs in
  if negb wasHandled && negb (command =? "") then
    match resolveScriptOnPath env command w with
    | Some scriptPath =>
        match executeVfsScript scriptPath args command w with
        | (Returned (Some result), w1) =>
            if handled result
            then ((true, notFalse (shouldContinue result)), w1)
            else ((wasHandled, cont), w1)
        | (_, w1) => ((wasHandled, cont), w1)
        end
    | None => ((wasHandled, cont), w)
    end
  else ((wasHandled, cont), w).

(** One pass of the [while (true)] loop of [mainLoop] on the line
    [input]; the result says whether the loop goes on.  The resets of
    the key-handler state are not part of [World]. *)
Definition mainLoopStep (env : Env) (modules : list Handler)
    (input : string) (w : World) : bool * World :=
  let trimmedInput := trim input in
  let '(command0, args0) := parseCommandLine trimmedInput in
  let '(command, args) := expandAliases env command0 args0 in
  let w1 := recordHistory trimmedInput w in
  if trimmedInput =? "" then (true, w1)
  else if startsWith command "./" && endsWith command ".jsh" then
    runJshScript modules command w1
  else
    match tryHandlers modules command args w1 with
    | (inl e, w2) =>
        (true, print "" (print ("Error: " ++ errorMessage e) w2))
    | (inr hs, w2) =>
        let '((wasHandled, cont), w3) :=
          pathFallback env command args hs w2 in
        let w4 :=
          if negb wasHandled && negb (command =? "") then
            print "" (print "Hit Tab for available commands."
                        (print ("Command not found: " ++ command) w3))
          else w3 in
        (cont, w4)
    end.

End Scripts.

End Holder.

(* ================================================================== *)
(** ** jsShellExtended.js: the key handler and the completion sessions *)
(* ================================================================== *)

Module Completion.
Import JsString PathUtils CommandLine Vfs.

(** [keyEvent]. *)
Record KeyEvent : Type := mkKey {
  code : string;
  key : string;
  ctrlKey : bool;
  altKey : bool;
  shiftKey : bool;
  currentInput : string
}.

(** [state.completionSession] when it is not [null]: an object with
    [active: true], a [type], [items], [index], [lastInput], and for a
    path session the pieces of the input around the completed word. *)
Inductive CompletionSession : Type :=
| CommandSession (items : list string) (index : Z) (lastInput : string)
| PathSession (items : list (string * bool)) (index : Z)
    (beforeWord afterWord dirPart : string) (quoteChar : option ascii)
    (lastInput : string).

Definition lastInputOf (s : CompletionSession) : string :=
  match s with
  | CommandSession _ _ l => l
  | PathSession _ _ _ _ _ _ l => l
  end.

Definition itemCount (s : CompletionSession) : nat :=
  match s with
  | CommandSession items _ _ => List.length items
  | PathSession items _ _ _ _ _ _ => List.length items
  end.

(** What the hint area shows; the markup is not modelled. *)
Inductive Hint : Type :=
| CommandCandidates (items : list string) (activeIndex : Z)
| PathCandidates (items : list (string * bool)) (activeIndex : Z)
| NoMatchingCommands
| NoMatchingFiles
| CompletionError (e : VfsError)
| SuggestedNames (names : list string)
| SearchHint.

(** The shared [state] object of the holder, and what the handler does
    to the shell: the hint area and the printed lines. *)
Record KeyState : Type := mkKeyState {
  historyIndex : Z;
  searchMode : bool;
  searchQuery : string;
  completionSession : option CompletionSession;
  hint : option Hint;
  printed : list string
}.

(** What the handler returns: [true], [false], a new input string; or it
    throws on a property of [undefined]. *)
Inductive KeyResult : Type :=
| KTrue
| KFalse
| KInput (s : string)
| KTypeError.

Definition setSession (c : option CompletionSession) (st : KeyState)
  : KeyState :=
  mkKeyState (historyIndex st) (searchMode st) (searchQuery st) c
    (hint st) (printed st).

Definition setHint (h : option Hint) (st : KeyState) : KeyState :=
  mkKeyState (historyIndex st) (searchMode st) (searchQuery st)
    (completionSession st) h (printed st).

Definition setHistoryIndex (i : Z) (st : KeyState) : KeyState :=
  mkKeyState i (searchMode st) (searchQuery st) (completionSession st)
    (hint st) (printed st).

(** [items[index]]. *)
Definition itemAt {A} (items : list A) (index : Z) : option A :=
  if (index <? 0)%Z then None else nth_error items (Z.to_nat index).

(** [(session.index + delta + len) % len]. *)
Definition nextIndex (index delta : Z) (len : nat) : Z :=
  Z.rem (index + delta + Z.of_nat len) (Z.of_nat len).

Definition displayName (m : string * bool) : string :=
  fst m ++ (if snd m then "/" else "").

Definition orDquote (q : option ascii) : ascii :=
  match q with Some c => c | None => dquote end.

(** [_cycleCompletionSession]: [None] is the returned [null]. *)
Definition cycleCompletionSession (ev : KeyEvent) (direction : Z)
    (st : KeyState) : option KeyResult * KeyState :=
  match completionSession st with
  | None => (None, st)
  | Some session =>
      if (itemCount session <=? 1)%nat
         || negb (currentInput ev =? lastInputOf session)
      then (None, st)
      else
        let len := itemCount session in
        let delta := if (direction =? -1)%Z then (-1)%Z else 1%Z in
        match session with
        | CommandSession items index _ =>
            let index' := nextIndex index delta len in
            let newInput :=
              match itemAt items index' with
              | Some cmd => cmd ++ " "
              | None => "undefined "
              end in
            (Some (KInput newInput),
             setHint (Some (CommandCandidates items index'))
               (setSession (Some (CommandSession items index' newInput))
                  st))
        | PathSession items index beforeWord afterWord dirPart q last =>
            let index' := nextIndex index delta len in
            match itemAt items index' with
            | None =>
                (Some KTypeError,
                 setSession (Some (PathSession items index' beforeWord
                                     afterWord dirPart q last)) st)
            | Some m =>
                let completedValue := dirPart ++ displayName m in
                let completedRaw :=
                  quoteArgIfNeeded completedValue (orDquote q) in
                let newInput := beforeWord ++ completedRaw ++ afterWord in
                (Some (KInput newInput),
                 setHint (Some (PathCandidates items index'))
                   (setSession (Some (PathSession items index' beforeWord
                                        afterWord dirPart q newInput))
                      st))
            end
        end
  end.

(** The [words] array the [Tab] branch computes from the input: the
    token values, and an empty word when the input ends in white
    space. *)
Definition wordsOf (input : string) : list string :=
  (map value (resTokens (tokenizeCommandLine input))
   ++ (if endsWithSpace (tokenizeCommandLine input) then [""] else []))%list.

(** [Array.from(new Set(xs))]: first occurrences, in order. *)
Fixpoint dedupe (seen xs : list string) : list string :=
  match xs with
  | [] => []
  | x :: rest =>
      if existsb (String.eqb x) seen then dedupe seen rest
      else x :: dedupe (x :: seen) rest
  end.

Section Sorting.
(** [a.localeCompare(b)]: negative, zero or positive. *)
Variable localeCompare : string -> string -> Z.

(** [Array.prototype.sort] with that comparator, as a stable insertion
    sort: an element goes before the first one it compares below. *)
Fixpoint insertSorted (x : string) (l : list string) : list string :=
  match l with
  | [] => [x]
  | y :: rest =>
      if (localeCompare x y <? 0)%Z then x :: y :: rest
      else y :: insertSorted x rest
  end.

Definition sortByLocale (l : list string) : list string :=
  fold_left (fun acc x => insertSorted x acc) l [].

(** [_startCommandCompletionSession]; [pathScriptCommands] is what
    [this._getPathScriptCommands()] returned. *)
Definition startCommandCompletionSession (commands : list string)
    (pathScriptCommands : list string) (currentWord : string)
    (st : KeyState) : KeyResult * KeyState :=
  let allCommands :=
    sortByLocale (dedupe [] (commands ++ pathScriptCommands)) in
  let matches := filter (fun cmd => startsWith cmd currentWord)
                   allCommands in
  match matches with
  | [only] =>
      (KInput (only ++ " "), setSession None (setHint None st))
  | firstCommand :: _ :: _ =>
      let newInput := firstCommand ++ " " in
      (KInput newInput,
       setHint (Some (CommandCandidates matches 0))
         (setSession (Some (CommandSession matches 0 newInput)) st))
  | [] =>
      (KInput currentWord,
       setSession None (setHint (Some NoMatchingCommands) st))
  end.

(** [s.lastIndexOf('/')], [None] for -1. *)
Fixpoint lastSlashFrom (s : string) (i : nat) (found : option nat)
  : option nat :=
  match s with
  | EmptyString => found
  | String c rest =>
      lastSlashFrom rest (S i)
        (if Ascii.eqb c "/"%char then Some i else found)
  end.

Definition isNone {A} (o : option A) : bool :=
  match o with None => true | Some _ => false end.

Fixpoint someNames (l : list (option string)) : list string :=
  match l with
  | [] => []
  | Some n :: rest => n :: someNames rest
  | None :: rest => someNames rest
  end.

(** [_startPathCompletionSession]. *)
Definition startPathCompletionSession (store : Store)
    (input currentWord : string) (rawStart rawEnd : nat)
    (currentQuote : option ascii) (st : KeyState)
  : KeyResult * KeyState :=
  let lastSlashIndex := lastSlashFrom currentWord 0 None in
  let dirPart :=
    match lastSlashIndex with
    | None => ""
    | Some i => take (i + 1) currentWord
    end in
  let namePart :=
    match lastSlashIndex with
    | None => currentWord
    | Some i => drop (i + 1) currentWord
    end in
  let listTarget :=
    if dirPart =? "" then "."
    else
      let cut := take (String.length dirPart - 1) dirPart in
      if cut =? "" then "/" else cut in
  match fst (listFolder listTarget store) with
  | Throw err =>
      (KInput input,
       setSession None (setHint (Some (CompletionError err)) st))
  | Ok (folderNames, fileNames) =>
      if existsb isNone fileNames then
        (KInput input,
         setSession None (setHint (Some (CompletionError TypeErrorNull))
                            st))
      else
        let candidates :=
          (map (fun n => (n, true)) folderNames
           ++ map (fun n => (n, false)) (someNames fileNames))%list in
        let matches :=
          filter (fun c => startsWith (fst c) namePart) candidates in
        let beforeWord := take rawStart input in
        let afterWord := drop rawEnd input in
        match matches with
        | [] =>
            (KInput input,
             setSession None (setHint (Some NoMatchingFiles) st))
        | [m] =>
            let newWord :=
              quoteArgIfNeeded (dirPart ++ displayName m)
                (orDquote currentQuote) in
            (KInput (beforeWord ++ newWord ++ afterWord),
             setSession None (setHint None st))
        | firstMatch :: _ :: _ =>
            let newWord :=
              quoteArgIfNeeded (dirPart ++ displayName firstMatch)
                (orDquote currentQuote) in
            let newInput := beforeWord ++ newWord ++ afterWord in
            (KInput newInput,
             setHint (Some (PathCandidates matches 0))
               (setSession
                  (Some (PathSession matches 0 beforeWord afterWord
                           dirPart currentQuote newInput)) st))
        end
  end.

(** The history-search branches of the handler (typing and Backspace
    while [state.searchMode] is set), which are not modelled. *)
Variable searchTyping : KeyEvent -> KeyState -> KeyResult * KeyState.
Variable searchBackspace : KeyEvent -> KeyState -> KeyResult * KeyState.

(** The [Tab] branch after a cycle attempt returned [null]. *)
Definition freshCompletion (commands pathScriptCommands : list string)
    (store : Store) (ev : KeyEvent) (st : KeyState)
  : KeyResult * KeyState :=
  let input := currentInput ev in
  let tokenized := tokenizeCommandLine input in
  let toks := resTokens tokenized in
  let words := wordsOf input in
  let lastToken := last (map Some toks) None in
  let currentWord := last words "" in
  let rawStart :=
    if endsWithSpace tokenized then String.length input
    else match lastToken with
         | Some t => rawStart t
         | None => 0
         end in
  let rawEnd :=
    if endsWithSpace tokenized then String.length input
    else match lastToken with
         | Some t => rawEnd t
         | None => String.length input
         end in
  let currentQuote :=
    if endsWithSpace tokenized then None
    else match lastToken with
         | Some t => tokQuoteChar t
         | None => None
         end in
  if (List.length words <=? 1)%nat then
    if startsWith currentWord "./" then
      startPathCompletionSession store input currentWord rawStart rawEnd
        currentQuote st
    else
      startCommandCompletionSession commands pathScriptCommands
        currentWord st
  else if (List.length words =? 2)%nat
          && (hd "" words =? "hello") then
    let nameMatches :=
      filter (fun name => startsWith name (toLowerCase currentWord))
        ["world"; "user"; "admin"; "guest"] in
    match nameMatches with
    | [] => (KInput input, st)
    | [only] =>
        (KInput (hd "" words ++ " " ++ only),
         setHint (Some (SuggestedNames nameMatches)) st)
    | _ :: _ :: _ =>
        (KInput input, setHint (Some (SuggestedNames nameMatches)) st)
    end
  else
    startPathCompletionSession store input currentWord rawStart rawEnd
      currentQuote st.

(** The handler installed by [initUniversalKeyHandler]. *)
Definition keyHandler (commands pathScriptCommands : list string)
    (commandHistory : list string) (store : Store)
    (ev : KeyEvent) (st : KeyState) : KeyResult * KeyState :=
  if ctrlKey ev && (code ev =? "KeyD") && (trim (currentInput ev) =? "")
  then
    (KTrue,
     mkKeyState (historyIndex st) (searchMode st) (searchQuery st)
       (completionSession st) (hint st)
       (printed st ++ ["exit"; "Goodbye! 👋"]))
  else if code ev =? "Escape" then
    let hadTransientUi :=
      searchMode st || negb (isNone (completionSession st)) in
    (if hadTransientUi then KTrue else KInput "",
     mkKeyState (historyIndex st) false "" None None (printed st))
  else if code ev =? "ArrowUp" then
    match commandHistory with
    | [] => (KTrue, st)
    | _ :: _ =>
        let len := Z.of_nat (List.length commandHistory) in
        let i := Z.min (historyIndex st + 1) (len - 1) in
        let command :=
          match itemAt commandHistory (len - 1 - i) with
          | Some c => if c =? "" then currentInput ev else c
          | None => currentInput ev
          end in
        (KInput command, setHistoryIndex i st)
    end
  else if code ev =? "ArrowDown" then
    if (-1 <? historyIndex st)%Z then
      let len := Z.of_nat (List.length commandHistory) in
      let i := Z.max (historyIndex st - 1) (-1) in
      if (i =? -1)%Z then (KInput "", setHistoryIndex i st)
      else
        let command :=
          match itemAt commandHistory (len - 1 - i) with
          | Some c => if c =? "" then currentInput ev else c
          | None => currentInput ev
          end in
        (KInput command, setHistoryIndex i st)
    else (KTrue, st)
  else if code ev =? "Tab" then
    let direction := if altKey ev || shiftKey ev then (-1)%Z else 1%Z in
    match cycleCompletionSession ev direction st with
    | (Some r, st1) => (r, st1)
    | (None, st1) =>
        freshCompletion commands pathScriptCommands store ev st1
    end
  else if searchMode st && (String.length (key ev) =? 1)%nat then
    searchTyping ev st
  else if searchMode st && (code ev =? "Backspace") then
    searchBackspace ev st
  else if negb (searchMode st) && (String.length (key ev) =? 1)%nat then
    (KFalse, setSession None (setHint None st))
  else (KFalse, st).

End Sorting.

End Completion.

(* ================================================================== *)
(** ** Vocabulary of the statements about the store *)
(* ================================================================== *)

Module VfsApi.
Import Vfs.

(** A call of one of the throwing store operations, with its
    arguments. *)
Inductive StoreOp : Type :=
| OpChangeDirectory (path : string)
| OpMkdir (name : string)
| OpRmdir (name : string)
| OpWriteFile (path content : string)
| OpReadFile (path : string)
| OpUnlink (path : string).

(** Running a call; the returned value is the content for [readFile]
    and nothing for the others. *)
Definition runOp (o : StoreOp) : M (option string) :=
  match o with
  | OpChangeDirectory path => changeDirectory path ;;; ret None
  | OpMkdir name => mkdir name ;;; ret None
  | OpRmdir name => rmdir name ;;; ret None
  | OpWriteFile path content => writeFile path content ;;; ret None
  | OpReadFile path => c <- readFile path ;; ret (Some c)
  | OpUnlink path => unlink path ;;; ret None
  end.

(** The store after a sequence of calls, whatever each returned or
    threw. *)
Fixpoint runOps (ops : list StoreOp) (s : Store) : Store :=
  match ops with
  | [] => s
  | o :: rest => runOps rest (snd (runOp o s))
  end.

(** What [mkdir] does to the cwd folder object. *)
Definition pushFolder (name : string) (d : VfsFolder) : VfsFolder :=
  mkFolder (folderName d) (folders d ++ [mkFolder name [] []]) (files d).

(** What [rmdir] does to the cwd folder object. *)
Definition dropFolder (idx : nat) (d : VfsFolder) : VfsFolder :=
  mkFolder (folderName d) (removeAt idx (folders d)) (files d).

(** What [writeFile] does to the parent folder object. *)
Definition putFile (name : option string) (content : string)
    (d : VfsFolder) : VfsFolder :=
  mkFolder (folderName d) (folders d)
    (match find (fileNamed name) (files d) with
     | Some _ => updateFirst (fileNamed name)
                   (fun f => mkFile (fileName f) content) (files d)
     | None => files d ++ [mkFile name content]
     end).

(** An update of a folder object that leaves its name alone. *)
Definition keepsName (g : VfsFolder -> VfsFolder) : Prop :=
  forall d, folderName (g d) = folderName d.

(** What [unlink] does to the parent folder object. *)
Definition dropFile (idx : nat) (d : VfsFolder) : VfsFolder :=
  mkFolder (folderName d) (folders d) (removeAt idx (files d)).

(** A call that names its target: every call except a [writeFile] whose
    path resolves to the empty segment list. *)
Definition namesTarget (st : VfsState) (o : StoreOp) : bool :=
  match o with
  | OpWriteFile path _ =>
      negb (List.length (PathUtils.normalizePathParts (cwdParts st) path)
            =? 0)%nat
  | _ => true
  end.

(** Every call of a sequence names its target in the state it runs in. *)
Fixpoint allNameTarget (ops : list StoreOp) (s : Store) : bool :=
  match ops with
  | [] => true
  | o :: rest =>
      namesTarget (state s) o && allNameTarget rest (snd (runOp o s))
  end.

End VfsApi.

(* ================================================================== *)
(** ** Vocabulary of the statements about completion *)
(* ================================================================== *)

Module CompletionApi.
Import JsString CommandLine Vfs Completion.





(** Comparison of strings by character code, as a [localeCompare]. *)
Definition codeUnitCompare (a b : string) : Z :=
  match String.compare a b with
  | Lt => (-1)%Z
  | Eq => 0%Z
  | Gt => 1%Z
  end.

(** A [Tab] key event on the given input, without modifiers. *)
Definition tabOn (input : string) : KeyEvent :=
  mkKey "Tab" "Tab" false false false input.

(** A key state with the given session and nothing else. *)
Definition stateWith (c : option CompletionSession) : KeyState :=
  mkKeyState (-1) false "" c None [].

(** Search-mode branches for the concrete sessions: they are never
    entered there. *)
Definition noSearch (ev : KeyEvent) (st : KeyState)
  : KeyResult * KeyState := (KFalse, st).

End CompletionApi.

(* ================================================================== *)
(** ** The tree invariant of the data model *)
(* ================================================================== *)

Module VfsInvariant.
Import JsString Vfs.

(** A usable node name: not empty, no path separator. *)
Definition nameOk (n : string) : bool :=
  negb (n =? "") && negb (includes "/" n).

(** A file node has a name at all, and a usable one. *)
Definition fileNameOk (f : VfsFile) : bool :=
  match fileName f with
  | Some n => nameOk n
  | None => false
  end.

(** No string occurs twice. *)
Fixpoint uniqueNames (l : list string) : bool :=
  match l with
  | [] => true
  | x :: rest => negb (existsb (String.eqb x) rest) && uniqueNames rest
  end.

(** No file name (or missing name) occurs twice. *)
Fixpoint uniqueFileNames (l : list (option string)) : bool :=
  match l with
  | [] => true
  | x :: rest => negb (existsb (nameEq x) rest) && uniqueFileNames rest
  end.

(** The invariant on the children of one folder. *)
Definition childrenOk (fs : list VfsFolder) (fl : list VfsFile) : bool :=
  forallb nameOk (map folderName fs)
  && uniqueNames (map folderName fs)
  && forallb fileNameOk fl
  && uniqueFileNames (map fileName fl).

(** The invariant on every folder of a tree; the name of the root itself
    (the root marker) is not constrained. *)
Fixpoint treeOk (d : VfsFolder) : bool :=
  match d with
  | mkFolder _ fs fl => childrenOk fs fl && forallb treeOk fs
  end.

(** The invariant on a state: the tree, and cwd segments that are names. *)
Definition stateOk (st : VfsState) : bool :=
  treeOk (root st) && forallb nameOk (cwdParts st).

End VfsInvariant.

(* ================================================================== *)
(** ** Concrete sessions used in the statements *)
(* ================================================================== *)

Module Examples.
Import JsString PathUtils CommandLine Vfs Holder.

Definition newline : string := String "010"%char EmptyString.

(** The command script of three lines. *)
Definition demoScript : string :=
  "mkdir x" ++ newline ++ "cd nowhere" ++ newline ++ "mkdir y".

(** A session at the root whose only node is the script [/s.jsh]. *)
Definition demoWorld : World :=
  mkWorld
    (mkStore (mkState (mkFolder "/" [] [mkFile (Some "s.jsh") demoScript])
                [])
       None 0)
    [] [].

(** A session at the root with the script [/s.jsh] and a file named [x]:
    there is no folder [x] and no folder [nowhere]. *)
Definition fileXWorld : World :=
  mkWorld
    (mkStore (mkState (mkFolder "/" []
                         [mkFile (Some "s.jsh") demoScript;
                          mkFile (Some "x") ""])
                [])
       None 0)
    [] [].

(** The cyclic environment: [a] is [b] and [b] is [a]. *)
Definition cyclicEnv : Env :=
  mkEnv [JString "/bin"] [("a", JString "b"); ("b", JString "a")].

(** An environment with the alias [s] for [sample]. *)
Definition sampleEnv : Env :=
  mkEnv [JString "/bin"] [("s", JString "sample")].

(** A session at the root with the script [/bin/sample.js], in which the
    line [s] was the last one entered. *)
Definition sampleWorld : World :=
  mkWorld
    (mkStore
       (mkState
          (mkFolder "/"
             [mkFolder "bin" [] [mkFile (Some "sample.js") "main"]] [])
          [])
       None 0)
    [] ["s"].

(** A script runner that only records the [command] it was given. *)
Definition recordingRunSource (command : string) (args : list string)
    (source : string) (w : World) : (bool * option ShellError) * World :=
  ((true, None), print ("invoked as " ++ command) w).

End Examples.

(* ================================================================== *)
(** ** Vocabulary of the statements about paths, tokens and dispatch *)
(* ================================================================== *)

Module Statements.
Import JsString PathUtils CommandLine Vfs Holder.

(** A canonical segment: what a resolution can contain. *)
Definition segOk (p : string) : bool :=
  negb (p =? "") && negb (p =? ".") && negb (p =? "..")
  && negb (includes "/" p).

(** While a quoted span is open, a token is open. *)
Definition quoteHasToken (st : Lexer) : Prop :=
  quote st <> None -> tokenStart st <> None.

(** The report printed when a script stops. *)
Definition stopReport (inv : string) (lineNo : nat) (rawLine : string)
    (err : option ShellError) (w : World) : World :=
  print ""
    (print ("jsh: " ++ match err with
                       | Some e => errorMessage e
                       | None => "error"
                       end)
       (print ("jsh: " ++ rawLine)
          (print ("jsh: stopped at " ++ inv ++ ":" ++ decimal lineNo) w))).

(** A PATH entry in which the lookup succeeds: an absolute-path string
    whose listing returns and contains the file. *)
Definition usableDir (w : World) (fileName : string) (entry : Json) : bool :=
  match entry with
  | JString dir => startsWith dir "/" && dirHasFile w dir fileName
  | JOther => false
  end.

End Statements.

(* ================================================================== *)
(** ** Further code: fs/pathUtils.js, programs/copy.js, programs/cat.js *)
(* ================================================================== *)

Module MoreCode.
Import JsString PathUtils CommandLine Vfs Holder.

(* ---------------- fs/pathUtils.js ---------------- *)

(** [joinPath(basePath, segment)]. *)
Definition joinPath (basePath segment : string) : string :=
  if (segment =? "") || (segment =? ".") then
    normalizePathFromCwd basePath "."
  else if startsWith segment "/" then normalizePathFromCwd "/" segment
  else
    let combined :=
      (if negb (basePath =? "") && negb (basePath =? "/")
       then stripTrailingSlashes basePath else "")
      ++ "/" ++ segment in
    normalizePathFromCwd "/" combined.

(* ---------------- programs/copy.js ---------------- *)

Definition joinPathLike (base name : string) : string :=
  if (base =? "") || (base =? ".") then name
  else if base =? "/" then "/" ++ name
  else if endsWith base "/" then base ++ name else base ++ "/" ++ name.

Definition basename (path : string) : string :=
  let parts := filter (fun p => negb (p =? "")) (split "/" path) in
  match parts with
  | [] => path
  | _ :: _ => last parts ""
  end.

Definition executeCopyCommand : Handler := fun command args w =>
  if negb (toLowerCase command =? "copy") then (notMine, w)
  else
    match args with
    | src :: destArg :: _ =>
        match onVfs (readFile src) w with
        | (Throw err, w1) =>
            (Returned (Some (mkResult true (Some true) (Some false)
                               (Some (ErrMsg "copy: cannot read source")))),
             print "" (print ("copy: cannot read '" ++ src ++ "': "
                              ++ vfsMessage err) w1))
        | (Ok content, w1) =>
            let '(listed, w2) := onVfs (listFolder destArg) w1 in
            let dest :=
              match listed with
              | Ok _ => joinPathLike destArg (basename src)
              | Throw _ => destArg
              end in
            match onVfs (writeFile dest content) w2 with
            | (Throw err, w3) =>
                (Returned (Some (mkResult true (Some true) (Some false)
                                   (Some (ErrMsg
                                      "copy: cannot write destination")))),
                 print "" (print ("copy: cannot write '" ++ dest ++ "': "
                                  ++ vfsMessage err) w3))
            | (Ok _, w3) =>
                (Returned (Some (mkResult true (Some true) (Some true) None)),
                 w3)
            end
        end
    | _ =>
        (Returned (Some (mkResult true (Some true) (Some false)
                           (Some (ErrMsg "copy: missing operand")))),
         print "" (print "Try 'copy source.txt dest.txt'"
                     (print "copy: missing operand" w)))
    end.

(* ---------------- programs/cat.js ---------------- *)

(** The [for (const path of args)] loop of [cat]. *)
Fixpoint catArgs (args : list string) (hadError : bool) (w : World)
  : bool * World :=
  match args with
  | [] => (hadError, w)
  | path :: rest =>
      match onVfs (readFile path) w with
      | (Ok content, w1) => catArgs rest hadError (print content w1)
      | (Throw err, w1) => catArgs rest true (print (vfsMessage err) w1)
      end
  end.

Definition executeCatCommand : Handler := fun command args w =>
  if negb (toLowerCase command =? "cat") then (notMine, w)
  else
    match args with
    | [] =>
        (Returned (Some (mkResult true (Some true) (Some false)
                           (Some (ErrMsg "cat: missing operand")))),
         print "" (print "Try 'cat filename'"
                     (print "cat: missing operand" w)))
    | _ :: _ =>
        finishArgs "cat: one or more files could not be read"
          (catArgs args false w)
    end.

End MoreCode.

(* ================================================================== *)
(** ** Vocabulary of the further statements *)
(* ================================================================== *)

Module MoreStatements.
Import JsString PathUtils CommandLine Vfs VfsApi Statements.

(** A call that only reads. *)
Definition readsOnly (o : StoreOp) : bool :=
  match o with OpReadFile _ => true | _ => false end.

(** The names the registered modules compare the lower-cased command
    with, in registration order. *)
Definition lowerNames : list string :=
  ["help"; "cls"; "exit"; "date"; "mkdir"; "ls"; "find"; "grep"; "rmdir";
   "cd"; "pwd"; "cat"; "touch"; "rm"; "print"; "copy"; "delay"; "mv";
   "init"; "download"; "upload"].

(** The names compared with the command as typed. *)
Definition exactNames : list string := ["backup"; "restore"; "config"].

(** The gate of [executeScriptFile]. *)
Definition isScriptCall (command : string) : bool :=
  negb ((command =? "") || negb (startsWith command "./")
        || negb (endsWith command ".js")).

Definition knownCommand (command : string) : bool :=
  existsb (String.eqb (toLowerCase command)) lowerNames
  || existsb (String.eqb command) exactNames
  || isScriptCall command.

(** A name [mkdir] accepts and [changeDirectory] then steps into. *)
Definition mkdirable (name : string) : bool :=
  segOk name && negb (includes "\" name).

(** Walking [dirs] down from [current], no missing folder has a file of
    its name in the way: each segment is a folder already (the walk goes
    on in it), or nothing of that name is there (then the rest is new). *)
Fixpoint pathClear (current : VfsFolder) (dirs : list string) : bool :=
  match dirs with
  | [] => true
  | part :: rest =>
      match find (folderNamed part) (folders current) with
      | Some next => pathClear next rest
      | None => negb (existsb (fileNamed (Some part)) (files current))
      end
  end.

(** No two neighbours of the list are equal. *)
Fixpoint noRepeat (l : list string) : bool :=
  match l with
  | [] => true
  | a :: rest =>
      match rest with
      | [] => true
      | b :: _ => negb (a =? b) && noRepeat rest
      end
  end.

(** The string of [k] separators. *)
Fixpoint slashes (k : nat) : string :=
  match k with
  | O => EmptyString
  | S k' => String "/"%char (slashes k')
  end.

(** The segments of a cwd path string, as [normalizePathFromCwd] takes
    them. *)
Definition cwdPartsOf (cwdPath : string) : list string :=
  filter (fun p => negb (p =? "")) (split "/" cwdPath).

(** Every segment of the list is canonical. *)
Definition canonical (parts : list string) : bool := forallb segOk parts.

(** The tokenizer between two tokens, with [ts] already pushed. *)
Definition idle (ts : list Token) : Lexer :=
  mkLexer ts "" None None None false false.

(** The quote character [quoteArgIfNeeded] settles on. *)
Definition quoteOf (preferredQuote : ascii) : ascii :=
  if Ascii.eqb preferredQuote squote then squote else dquote.

(** The command line that quotes each word and joins them with one space. *)
Definition quotedLine (preferredQuote : ascii) (words : list string) : string :=
  join " " (map (fun v => quoteArgIfNeeded v preferredQuote) words).

(** The raw spans of [ts] lie in [lo, hi], each is non-empty, and each
    starts after the character that follows the span before it. *)
Fixpoint spansFrom (lo : nat) (ts : list Token) (hi : nat) : bool :=
  match ts with
  | [] => true
  | t :: rest =>
      (lo <=? rawStart t)%nat && (rawStart t <? rawEnd t)%nat
      && (rawEnd t <=? hi)%nat && spansFrom (S (rawEnd t)) rest hi
  end.

(** The first index a further token may start at. *)
Fixpoint nextFree (lo : nat) (ts : list Token) : nat :=
  match ts with
  | [] => lo
  | t :: rest => nextFree (S (rawEnd t)) rest
  end.

Definition nonEmpty (v : string) : bool := negb (v =? "").

(** Every character of [s] is white space for the tokenizer. *)
Fixpoint blank (s : string) : bool :=
  match s with
  | EmptyString => true
  | String c rest => isWhitespace c && blank rest
  end.

(** The cwd segment list resolves to a folder of the tree. *)
Definition cwdResolves (st : VfsState) : bool :=
  match resolveFolderFrom (root st) (cwdParts st) with
  | Some _ => true
  | None => false
  end.

(** The segment list a path string stands for in a state. *)
Definition partsOf (st : VfsState) (path : string) : list string :=
  normalizePathParts (cwdParts st) path.

End MoreStatements.

(* ================================================================== *)
(** ** Vocabulary of the statements on the key handler *)
(* ================================================================== *)

Module KeyStatements.
Import JsString Completion.

Definition indexOf (s : CompletionSession) : Z :=
  match s with
  | CommandSession _ i _ => i
  | PathSession _ i _ _ _ _ _ => i
  end.

(** The candidates of a session as they are shown. *)
Definition namesOf (s : CompletionSession) : list string :=
  match s with
  | CommandSession items _ _ => items
  | PathSession items _ _ _ _ _ _ => map displayName items
  end.

(** A session worth cycling: at least two candidates, and an index that
    points at one of them. *)
Definition sessionOk (s : CompletionSession) : bool :=
  (2 <=? itemCount s)%nat && (0 <=? indexOf s)%Z
  && (indexOf s <? Z.of_nat (itemCount s))%Z.

(** Outside history search: the history index is -1 or points into the
    history, and the session, if any, is worth cycling. *)
Definition keyStateOk (historyLen : nat) (st : KeyState) : bool :=
  negb (searchMode st)
  && (-1 <=? historyIndex st)%Z
  && (historyIndex st <? Z.of_nat historyLen)%Z
  && match completionSession st with
     | None => true
     | Some s => sessionOk s
     end.

End KeyStatements.

(* ================================================================== *)
(** ** fs/virtualFileSystem.js over a storage that can refuse a write *)
(* ================================================================== *)

Module VfsStorage.
Import JsString PathUtils Vfs VfsApi.

(** The [Storage] object the constructor receives ([window.localStorage]
    by default): the state whose serialisation it holds under the VFS key,
    and for which states [setItem] returns; for the others it throws (the
    quota is exceeded, or writing is disabled). *)
Record Storage : Type := mkStorage {
  held : option VfsState;
  accepts : VfsState -> bool
}.

(** The object: [this._state], [this._storage], and how many times [save]
    was called. *)
Record VfsObject : Type := mkObject {
  memory : VfsState;
  storage : Storage;
  saveCalls : nat
}.

(** What a method can throw: one of the errors the class makes itself, or
    whatever [setItem] threw. *)
Inductive Raised : Type :=
| OwnError (e : VfsError)
| StorageError.

Inductive Result (A : Type) : Type :=
| Done (a : A)
| Raise (r : Raised).
Arguments Done {A} a.
Arguments Raise {A} r.

Definition MS (A : Type) : Type := VfsObject -> Result A * VfsObject.

Definition ret {A} (a : A) : MS A := fun o => (Done a, o).
Definition throw {A} (e : VfsError) : MS A :=
  fun o => (Raise (OwnError e), o).
Definition bind {A B} (c : MS A) (k : A -> MS B) : MS B :=
  fun o => match c o with
           | (Done a, o') => k a o'
           | (Raise r, o') => (Raise r, o')
           end.

Notation "x <~ c ;; k" := (bind c (fun x => k))
  (at level 61, c at next level, right associativity).
Notation "c ;~ k" := (bind c (fun _ => k))
  (at level 61, right associativity).

Definition getState : MS VfsState := fun o => (Done (memory o), o).

Definition setState (st : VfsState) : MS unit :=
  fun o => (Done tt, mkObject st (storage o) (saveCalls o)).

(** [save()]: [setItem] of the storage on the serialised [this._state];
    an exception of [setItem] leaves [save] as it is. *)
Definition save : MS unit :=
  fun o =>
    if accepts (storage o) (memory o) then
      (Done tt,
       mkObject (memory o)
         (mkStorage (Some (memory o)) (accepts (storage o)))
         (S (saveCalls o)))
    else
      (Raise StorageError, mkObject (memory o) (storage o) (S (saveCalls o))).

Definition resolveFolder (parts : list string) : MS (option VfsFolder) :=
  st <~ getState ;; ret (resolveFolderFrom (root st) parts).

Definition mutateFolder (parts : list string) (g : VfsFolder -> VfsFolder)
  : MS unit :=
  st <~ getState ;;
  setState (mkState (updateFolderAt parts g (root st)) (cwdParts st)).

Definition normalizePath (path : string) : MS (list string) :=
  st <~ getState ;; ret (normalizePathParts (cwdParts st) path).

Definition getCwdFolder : MS (option VfsFolder) :=
  st <~ getState ;; resolveFolder (cwdParts st).

Definition changeDirectory (path : string) : MS unit :=
  parts <~ normalizePath path ;;
  folder <~ resolveFolder parts ;;
  match folder with
  | None => throw (CdNoSuchDir path)
  | Some _ =>
      st <~ getState ;;
      setState (mkState (root st) parts) ;~
      save
  end.

Definition mkdir (name : string) : MS unit :=
  if (name =? "") || hasSeparator name then throw MkdirInvalidName
  else
    st <~ getState ;;
    cwd <~ getCwdFolder ;;
    match cwd with
    | None => throw TypeErrorNull
    | Some c =>
        if existsb (folderNamed name) (folders c)
           || existsb (fileNamed (Some name)) (files c)
        then throw (MkdirFileExists name)
        else
          mutateFolder (cwdParts st)
            (fun d => mkFolder (folderName d)
                        (folders d ++ [mkFolder name [] []]) (files d)) ;~
          save
    end.

Definition rmdir (name : string) : MS unit :=
  st <~ getState ;;
  cwd <~ getCwdFolder ;;
  match cwd with
  | None => throw TypeErrorNull
  | Some c =>
      match findIndex (folderNamed name) (folders c) with
      | None => throw (RmdirNoSuch name)
      | Some idx =>
          match nth_error (folders c) idx with
          | None => throw TypeErrorNull
          | Some folder =>
              if negb (List.length (folders folder) =? 0)%nat
                 || negb (List.length (files folder) =? 0)%nat
              then throw (RmdirNotEmpty name)
              else
                mutateFolder (cwdParts st)
                  (fun d => mkFolder (folderName d)
                              (removeAt idx (folders d)) (files d)) ;~
                save
          end
      end
  end.

Definition ensureFileParent (path : string)
  : MS (list string * option string * option VfsFile) :=
  parts0 <~ normalizePath path ;;
  let '(parts, name) := pop parts0 in
  parent <~ resolveFolder parts ;;
  match parent with
  | None => throw (NoSuchDirForPath path)
  | Some d => ret (parts, name, find (fileNamed name) (files d))
  end.

Definition writeFile (path content : string) : MS unit :=
  r <~ ensureFileParent path ;;
  let '(parent, name, existingFile) := r in
  match existingFile with
  | Some _ =>
      mutateFolder parent
        (fun d => mkFolder (folderName d) (folders d)
                    (updateFirst (fileNamed name)
                       (fun f => mkFile (fileName f) content) (files d)))
  | None =>
      mutateFolder parent
        (fun d => mkFolder (folderName d) (folders d)
                    (files d ++ [mkFile name content]))
  end ;~
  save.

Definition getFile (path : string) : MS (option VfsFile) :=
  parts0 <~ normalizePath path ;;
  let '(parts, name) := pop parts0 in
  parent <~ resolveFolder parts ;;
  match parent with
  | None => ret None
  | Some d => ret (find (fileNamed name) (files d))
  end.

Definition readFile (path : string) : MS string :=
  file <~ getFile path ;;
  match file with
  | None => throw (CatNoSuchFile path)
  | Some f => ret (fileContent f)
  end.

Definition unlink (path : string) : MS unit :=
  parts0 <~ normalizePath path ;;
  let '(parts, name) := pop parts0 in
  parent <~ resolveFolder parts ;;
  match parent with
  | None => throw (NoSuchFile path)
  | Some d =>
      match findIndex (fileNamed name) (files d) with
      | None => throw (NoSuchFile path)
      | Some idx =>
          mutateFolder parts
            (fun d' => mkFolder (folderName d') (folders d')
                         (removeAt idx (files d'))) ;~
          save
      end
  end.

(** Running a call of [StoreOp] on the object. *)
Definition runOp (o : StoreOp) : MS (option string) :=
  match o with
  | OpChangeDirectory path => changeDirectory path ;~ ret None
  | OpMkdir name => mkdir name ;~ ret None
  | OpRmdir name => rmdir name ;~ ret None
  | OpWriteFile path content => writeFile path content ;~ ret None
  | OpReadFile path => c <~ readFile path ;; ret (Some c)
  | OpUnlink path => unlink path ;~ ret None
  end.

End VfsStorage.

Module StorageStatements.
Import Vfs VfsApi VfsStorage.

(** The object seen as a [Store]: what it is when its storage accepts. *)
Definition toStore (o : VfsObject) : Store :=
  mkStore (memory o) (held (storage o)) (saveCalls o).

(** A freshly constructed object over an empty storage. *)
Definition emptyObject (accepting : VfsState -> bool) : VfsObject :=
  mkObject createDefaultState (mkStorage None accepting) 0.

(** The last statement of a mutating method, [this.save()], on the
    mutated state [st]. *)
Definition commit (st : VfsState) (v : option string) (o : VfsObject)
  : Result (option string) * VfsObject :=
  if accepts (storage o) st then
    (Done v,
     mkObject st (mkStorage (Some st) (accepts (storage o)))
       (S (saveCalls o)))
  else (Raise StorageError, mkObject st (storage o) (S (saveCalls o))).

(** Memory and storage agree. *)
Definition inSync (o : VfsObject) : Prop :=
  held (storage o) = Some (memory o).

End StorageStatements.

(* ================================================================== *)
(** * Properties *)
(* ================================================================== *)

Section StringFacts.
Import JsString.

Lemma split_not_nil (sep : ascii) (s : string) : split sep s <> [].
Proof.
  induction s as [|c rest IH]; simpl; [discriminate|].
  destruct (Ascii.eqb c sep); [discriminate|].
  destruct (split sep rest); discriminate.
Qed.

Lemma split_no_sep (sep : ascii) (s : string) :
  includes sep s = false -> split sep s = [s].
Proof.
  induction s as [|c rest IH]; simpl; intros H; [reflexivity|].
  apply orb_false_iff in H as [Hc Hr].
  rewrite Hc, (IH Hr). reflexivity.
Qed.

Lemma split_app_sep (sep : ascii) (p s : string) :
  includes sep p = false ->
  split sep (p ++ String sep s) = p :: split sep s.
Proof.
  induction p as [|c rest IH]; simpl; intros H.
  - rewrite Ascii.eqb_refl. reflexivity.
  - apply orb_false_iff in H as [Hc Hr].
    rewrite Hc, (IH Hr). reflexivity.
Qed.

Lemma split_pieces_no_sep (sep : ascii) (s : string) :
  Forall (fun p => includes sep p = false) (split sep s).
Proof.
  induction s as [|c rest IH]; simpl.
  - constructor; [reflexivity|constructor].
  - destruct (Ascii.eqb c sep) eqn:E.
    + constructor; [reflexivity|exact IH].
    + destruct (split sep rest) as [|h t]; inversion IH; subst;
        constructor; simpl; try rewrite E; auto.
Qed.

Lemma split_join (sep : ascii) (parts : list string) :
  parts <> [] ->
  Forall (fun p => includes sep p = false) parts ->
  split sep (join (String sep EmptyString) parts) = parts.
Proof.
  induction parts as [|p rest IH]; intros Hne Hall; [congruence|].
  inversion Hall as [|? ? Hp Hrest]; subst.
  destruct rest as [|q rest'].
  - simpl. apply split_no_sep; assumption.
  - change (join (String sep EmptyString) (p :: q :: rest'))
      with (p ++ String sep (join (String sep EmptyString) (q :: rest'))).
    rewrite split_app_sep by assumption.
    rewrite IH; [reflexivity|discriminate|assumption].
Qed.

End StringFacts.

(* ------------------------------------------------------------------ *)
(** ** Path resolver *)
(* ------------------------------------------------------------------ *)

Section PathFacts.
Import JsString PathUtils Statements.

Lemma Forall_removelast {A} (P : A -> Prop) (l : list A) :
  Forall P l -> Forall P (removelast l).
Proof.
  induction l as [|a l IH]; intros H; [constructor|].
  inversion H; subst. simpl. destruct l; [constructor|].
  constructor; auto.
Qed.

Lemma rawPartsOf_pieces (path : string) :
  Forall (fun p => (negb (p =? "") && negb (p =? ".")
                    && negb (includes "/" p)) = true) (rawPartsOf path).
Proof.
  unfold rawPartsOf. apply Forall_forall. intros p Hin.
  apply filter_In in Hin as [Hin Hp].
  pose proof (split_pieces_no_sep "/" path) as Hall.
  rewrite Forall_forall in Hall. rewrite (Hall p Hin), Hp. reflexivity.
Qed.

Lemma fold_normalizeStep_segOk (raw : list string) :
  Forall (fun p => (negb (p =? "") && negb (p =? ".")
                    && negb (includes "/" p)) = true) raw ->
  forall acc, Forall (fun p => segOk p = true) acc ->
  Forall (fun p => segOk p = true) (fold_left normalizeStep raw acc).
Proof.
  induction 1 as [|p raw Hp _ IH]; intros acc Hacc; simpl; [assumption|].
  apply IH. unfold normalizeStep.
  destruct (p =? "..") eqn:E.
  - destruct (0 <? List.length acc)%nat; [apply Forall_removelast|]; assumption.
  - apply Forall_app; split; [assumption|].
    constructor; [|constructor]. unfold segOk. rewrite E.
    apply andb_true_iff in Hp as [Hp Hs].
    rewrite Hp, Hs. reflexivity.
Qed.

Lemma fold_normalizeStep_plain (parts : list string) :
  Forall (fun p => segOk p = true) parts ->
  forall acc, fold_left normalizeStep parts acc = (acc ++ parts)%list.
Proof.
  induction 1 as [|p parts Hp _ IH]; intros acc; simpl.
  - now rewrite app_nil_r.
  - rewrite IH. unfold normalizeStep.
    unfold segOk in Hp.
    destruct (p =? "..").
    + rewrite !andb_false_r in Hp; discriminate.
    + now rewrite <- app_assoc.
Qed.

Lemma normalizePathParts_segOk (cwd : list string) (p : string) :
  startsWith p "/" = true ->
  Forall (fun s => segOk s = true) (normalizePathParts cwd p).
Proof.
  intros Habs. unfold normalizePathParts.
  destruct p as [|c p']; [discriminate|].
  assert (Hdot : (String c p' =? ".") = false).
  { simpl in Habs. apply andb_true_iff in Habs as [Hc _].
    apply Ascii.eqb_eq in Hc. subst c. reflexivity. }
  rewrite Hdot. simpl orb. cbv iota. rewrite Habs.
  apply fold_normalizeStep_segOk; [apply rawPartsOf_pieces|constructor].
Qed.

(** Resolving the display form of canonical segments gives them back. *)
Lemma normalizePathParts_display (cwd parts : list string) :
  Forall (fun s => segOk s = true) parts ->
  normalizePathParts cwd (toDisplayPath parts) = parts.
Proof.
  intros Hok. unfold normalizePathParts, toDisplayPath.
  change ("/" ++ join "/" parts) with (String "/" (join "/" parts)).
  assert (Hraw : rawPartsOf (String "/" (join "/" parts)) = parts).
  { unfold rawPartsOf. simpl split.
    destruct parts as [|q rest].
    - reflexivity.
    - rewrite (split_join "/" (q :: rest)).
      + match goal with
        | |- filter ?f (_ :: ?l) = _ => change (filter f l = l)
        end.
        apply forallb_filter_id. apply forallb_forall. intros x Hx.
        rewrite Forall_forall in Hok. specialize (Hok x Hx).
        unfold segOk in Hok.
        destruct (x =? ""), (x =? "."); simpl in *; congruence.
      + discriminate.
      + eapply Forall_impl; [|exact Hok]. intros a Ha. unfold segOk in Ha.
        destruct (includes "/" a); [|reflexivity].
        rewrite !andb_false_r in Ha; discriminate. }
  rewrite Hraw. simpl.
  now rewrite fold_normalizeStep_plain.
Qed.

(** C5. For every cwd segment list and every absolute path string [p]
    (one that starts with the separator), resolving the display form
    ['/' + parts.join('/')] of the resolution of [p] gives the
    resolution of [p] again. *)
Theorem normalizePathParts_idempotent (cwd : list string) (p : string) :
  startsWith p "/" = true ->
  normalizePathParts cwd ("/" ++ join "/" (normalizePathParts cwd p))
  = normalizePathParts cwd p.
Proof.
  intros Habs.
  apply (normalizePathParts_display cwd).
  now apply normalizePathParts_segOk.
Qed.

Lemma normalizePathParts_idempotent_witness :
  startsWith "/a/./b/../c" "/" = true /\
  normalizePathParts ["home"; "user"]
    ("/" ++ join "/" (normalizePathParts ["home"; "user"] "/a/./b/../c"))
  = normalizePathParts ["home"; "user"] "/a/./b/../c".
Proof.
  split; [reflexivity|].
  apply (normalizePathParts_idempotent ["home"; "user"] "/a/./b/../c").
  reflexivity.
Defined.

End PathFacts.

(* ------------------------------------------------------------------ *)
(** ** Virtual filesystem: first-match lookup and in-place update *)
(* ------------------------------------------------------------------ *)

Section ListFacts.
Import Vfs.
Context {A : Type}.
Variable p : A -> bool.

Lemma updateFirst_length (g : A -> A) (l : list A) :
  List.length (updateFirst p g l) = List.length l.
Proof.
  induction l as [|x l IH]; simpl; [reflexivity|].
  destruct (p x); simpl; congruence.
Qed.

Lemma updateFirst_ext (g h : A -> A) (l : list A) :
  (forall x, g x = h x) -> updateFirst p g l = updateFirst p h l.
Proof.
  intros E. induction l as [|x l IH]; simpl; [reflexivity|].
  destruct (p x); congruence.
Qed.

Lemma updateFirst_ext_first (g h : A -> A) (l : list A) (x : A) :
  find p l = Some x -> g x = h x -> updateFirst p g l = updateFirst p h l.
Proof.
  induction l as [|y l IH]; simpl; [discriminate|].
  destruct (p y); intros F E.
  - injection F as ->. now rewrite E.
  - now rewrite IH.
Qed.

Lemma updateFirst_fixed (g : A -> A) (l : list A) (x : A) :
  find p l = Some x -> g x = x -> updateFirst p g l = l.
Proof.
  induction l as [|y l IH]; simpl; [discriminate|].
  destruct (p y); intros F E.
  - injection F as ->. now rewrite E.
  - now rewrite IH.
Qed.

Lemma updateFirst_none (g : A -> A) (l : list A) :
  find p l = None -> updateFirst p g l = l.
Proof.
  induction l as [|y l IH]; simpl; [reflexivity|].
  destruct (p y); [discriminate|]. intros F. now rewrite IH.
Qed.

Lemma updateFirst_comp (g h : A -> A) (l : list A) :
  (forall x, p (g x) = p x) ->
  updateFirst p h (updateFirst p g l) = updateFirst p (fun x => h (g x)) l.
Proof.
  intros Hp. induction l as [|y l IH]; simpl; [reflexivity|].
  destruct (p y) eqn:E; simpl.
  - now rewrite Hp, E.
  - now rewrite E, IH.
Qed.

Lemma find_updateFirst (g : A -> A) (l : list A) (x : A) :
  find p l = Some x -> p (g x) = true ->
  find p (updateFirst p g l) = Some (g x).
Proof.
  induction l as [|y l IH]; simpl; [discriminate|].
  destruct (p y) eqn:E; intros F Hg.
  - injection F as ->. simpl. now rewrite Hg.
  - simpl. rewrite E. now apply IH.
Qed.

Lemma find_app_new (l : list A) (y : A) :
  find p l = None -> p y = true -> find p (l ++ [y]) = Some y.
Proof.
  induction l as [|x l IH]; simpl; intros F Hy.
  - now rewrite Hy.
  - destruct (p x); [discriminate|]. now apply IH.
Qed.

Lemma find_none_existsb (l : list A) :
  find p l = None <-> existsb p l = false.
Proof.
  induction l as [|x l IH]; simpl; [tauto|].
  destruct (p x); simpl; [split; discriminate|exact IH].
Qed.

Lemma findIndex_none (l : list A) :
  findIndex p l = None <-> existsb p l = false.
Proof.
  induction l as [|x l IH]; simpl; [tauto|].
  destruct (p x); simpl; [split; discriminate|].
  destruct (findIndex p l); [|exact IH].
  split; [discriminate|]. intros H. apply IH in H. discriminate.
Qed.

Lemma findIndex_app_new (l : list A) (y : A) :
  existsb p l = false -> p y = true ->
  findIndex p (l ++ [y]) = Some (List.length l).
Proof.
  induction l as [|x l IH]; simpl; intros F Hy.
  - now rewrite Hy.
  - destruct (p x); [discriminate|]. simpl in F. now rewrite IH.
Qed.

Lemma findIndex_find (l : list A) (i : nat) :
  findIndex p l = Some i -> nth_error l i = find p l.
Proof.
  revert i. induction l as [|x l IH]; simpl; intros i; [discriminate|].
  destruct (p x).
  - intros [= <-]. reflexivity.
  - destruct (findIndex p l) as [j|]; [|discriminate].
    intros [= <-]. simpl. now apply IH.
Qed.

Lemma find_findIndex (l : list A) (x : A) :
  find p l = Some x -> exists i, findIndex p l = Some i.
Proof.
  induction l as [|y l IH]; simpl; [discriminate|].
  destruct (p y); [eauto|]. intros F. destruct (IH F) as [i ->]. eauto.
Qed.

Lemma removeAt_app_last (l : list A) (y : A) :
  removeAt (List.length l) (l ++ [y]) = l.
Proof. induction l as [|x l IH]; simpl; congruence. Qed.

End ListFacts.

Section TreeFacts.
Import Vfs VfsApi.

Lemma folder_eta (d : VfsFolder) :
  mkFolder (folderName d) (folders d) (files d) = d.
Proof. destruct d; reflexivity. Qed.

Lemma updateFolderAt_keepsName parts g :
  keepsName g -> keepsName (updateFolderAt parts g).
Proof. intros Hg d. destruct parts; simpl; [apply Hg|reflexivity]. Qed.

Lemma keepsName_folderNamed g part :
  keepsName g -> forall d, folderNamed part (g d) = folderNamed part d.
Proof. intros Hg d. unfold folderNamed. now rewrite Hg. Qed.

(** The folder a segment list resolves to after an in-place update of
    that very folder is the updated folder. *)
Lemma resolve_updateFolderAt parts g : keepsName g ->
  forall r d, resolveFolderFrom r parts = Some d ->
  resolveFolderFrom (updateFolderAt parts g r) parts = Some (g d).
Proof.
  intros Hg. induction parts as [|part rest IH]; simpl; intros r d H.
  - congruence.
  - destruct (find (folderNamed part) (folders r)) as [next|] eqn:F;
      [|discriminate].
    rewrite (find_updateFirst _ _ _ _ F).
    + now apply IH.
    + rewrite keepsName_folderNamed by now apply updateFolderAt_keepsName.
      apply find_some in F. tauto.
Qed.

Lemma updateFolderAt_fixed parts g :
  forall r d, resolveFolderFrom r parts = Some d -> g d = d ->
  updateFolderAt parts g r = r.
Proof.
  induction parts as [|part rest IH]; simpl; intros r d H E.
  - congruence.
  - destruct (find (folderNamed part) (folders r)) as [next|] eqn:F;
      [|discriminate].
    rewrite (updateFirst_fixed _ _ _ _ F); [apply folder_eta|].
    eapply IH; eauto.
Qed.

Lemma updateFolderAt_comp parts g h : keepsName g ->
  forall r, updateFolderAt parts h (updateFolderAt parts g r)
            = updateFolderAt parts (fun d => h (g d)) r.
Proof.
  intros Hg. induction parts as [|part rest IH]; simpl; intros r;
    [reflexivity|].
  f_equal. rewrite updateFirst_comp.
  - apply updateFirst_ext. exact IH.
  - apply keepsName_folderNamed. now apply updateFolderAt_keepsName.
Qed.

End TreeFacts.

(* ------------------------------------------------------------------ *)
(** ** Virtual filesystem: the store operations *)

(* ------------------------------------------------------------------ *)

Section StoreFacts.
Import JsString PathUtils Vfs VfsApi.
Local Arguments pop : simpl never.
Local Arguments normalizePathParts : simpl never.

Lemma updateFolderAt_ext_at parts g h :
  forall r d, resolveFolderFrom r parts = Some d -> g d = h d ->
  updateFolderAt parts g r = updateFolderAt parts h r.
Proof.
  induction parts as [|part rest IH]; simpl; intros r d H E.
  - congruence.
  - destruct (find (folderNamed part) (folders r)) as [next|] eqn:F;
      [|discriminate].
    f_equal. eapply updateFirst_ext_first; eauto.
Qed.

Lemma nameEq_refl (n : option string) : nameEq n n = true.
Proof. destruct n; simpl; [apply String.eqb_refl|reflexivity]. Qed.

Lemma putFile_keepsName name content : keepsName (putFile name content).
Proof. intros d. reflexivity. Qed.

Lemma putFile_find name content d :
  exists f, find (fileNamed name) (files (putFile name content d)) = Some f
            /\ fileContent f = content.
Proof.
  unfold putFile. simpl.
  destruct (find (fileNamed name) (files d)) as [x|] eqn:F.
  - exists (mkFile (fileName x) content). split; [|reflexivity].
    apply (find_updateFirst _ (fun f => mkFile (fileName f) content));
      [assumption|].
    apply find_some in F. tauto.
  - exists (mkFile name content). split; [|reflexivity].
    apply find_app_new; [assumption|]. apply nameEq_refl.
Qed.

Lemma writeFile_run path content s :
  let st := state s in
  let pr := pop (normalizePathParts (cwdParts st) path) in
  writeFile path content s =
  match resolveFolderFrom (root st) (fst pr) with
  | None => (Throw (NoSuchDirForPath path), s)
  | Some _ =>
      let st' := mkState (updateFolderAt (fst pr)
                            (putFile (snd pr) content) (root st))
                         (cwdParts st) in
      (Ok tt, mkStore st' (Some st') (S (saveCount s)))
  end.
Proof.
  cbv zeta.
  unfold writeFile, ensureFileParent, normalizePath, resolveFolder,
    mutateFolder, bind, ret, throw, getState, setState, save.
  destruct (pop (normalizePathParts (cwdParts (state s)) path))
    as [parts name].
  destruct s as [[r cwd] ps k]. simpl.
  destruct (resolveFolderFrom r parts) as [d|] eqn:R; [|reflexivity].
  assert (E : forall g, g d = putFile name content d ->
    updateFolderAt parts g r = updateFolderAt parts (putFile name content) r)
    by (intros g Hg; eapply updateFolderAt_ext_at; eauto).
  unfold putFile in E.
  destruct (find (fileNamed name) (files d)) eqn:F; simpl;
    rewrite E by reflexivity; reflexivity.
Qed.

Lemma readFile_run path s :
  let st := state s in
  let pr := pop (normalizePathParts (cwdParts st) path) in
  readFile path s =
  match resolveFolderFrom (root st) (fst pr) with
  | None => (Throw (CatNoSuchFile path), s)
  | Some d =>
      match find (fileNamed (snd pr)) (files d) with
      | None => (Throw (CatNoSuchFile path), s)
      | Some f => (Ok (fileContent f), s)
      end
  end.
Proof.
  cbv zeta.
  unfold readFile, getFile, normalizePath, resolveFolder,
    bind, ret, throw, getState.
  destruct (pop (normalizePathParts (cwdParts (state s)) path))
    as [parts name].
  destruct s as [[r cwd] ps k]. simpl.
  destruct (resolveFolderFrom r parts) as [d|]; [|reflexivity].
  destruct (find (fileNamed name) (files d)); reflexivity.
Qed.

(** A read that follows a successful write of the same path sees the
    written content. *)
Lemma writeFile_then_readFile path content s s1 :
  writeFile path content s = (Ok tt, s1) ->
  readFile path s1 = (Ok content, s1).
Proof.
  rewrite writeFile_run. cbv zeta.
  remember (pop (normalizePathParts (cwdParts (state s)) path)) as pr
    eqn:Epr.
  destruct (resolveFolderFrom (root (state s)) (fst pr)) as [d|] eqn:R;
    [|discriminate].
  intros H. injection H as <-. rewrite readFile_run. cbv zeta.
  cbn [state root cwdParts]. rewrite <- Epr.
  rewrite (resolve_updateFolderAt _ _ (putFile_keepsName _ content) _ _ R).
  destruct (putFile_find (snd pr) content d) as [f [-> <-]].
  reflexivity.
Qed.

(** C7. In every state, [writeFile("/x.txt","hello")] succeeds (the
    parent of ["/x.txt"] is the root, which always resolves), a following
    [readFile("/x.txt")] returns ["hello"]; a second
    [writeFile("/x.txt","world")] succeeds and the next read returns
    ["world"]; the second write changes the content in place: the root
    keeps the same file names in the same order and the same folders. *)
Theorem writeFile_overwrites_in_place (s : Store) :
  exists s1 s2,
    writeFile "/x.txt" "hello" s = (Ok tt, s1)
    /\ readFile "/x.txt" s1 = (Ok "hello", s1)
    /\ writeFile "/x.txt" "world" s1 = (Ok tt, s2)
    /\ readFile "/x.txt" s2 = (Ok "world", s2)
    /\ map fileName (files (root (state s2)))
       = map fileName (files (root (state s1)))
    /\ folders (root (state s2)) = folders (root (state s1)).
Proof.
  assert (W : forall c t, exists t1,
    writeFile "/x.txt" c t = (Ok tt, t1)
    /\ root (state t1) = putFile (Some "x.txt") c (root (state t))).
  { intros c t. rewrite writeFile_run. cbv zeta.
    change (normalizePathParts (cwdParts (state t)) "/x.txt")
      with ["x.txt"]. simpl. eexists. split; reflexivity. }
  destruct (W "hello" s) as [s1 [W1 R1]].
  destruct (W "world" s1) as [s2 [W2 R2]].
  exists s1, s2.
  repeat split; try assumption;
    try (eapply writeFile_then_readFile; eassumption).
  - rewrite R2. unfold putFile at 1. simpl.
    destruct (putFile_find (Some "x.txt") "hello" (root (state s)))
      as [f [F _]].
    rewrite <- R1 in F. rewrite F.
    clear. induction (files (root (state s1))) as [|x l IH];
      [reflexivity|].
    simpl. destruct (fileNamed (Some "x.txt") x); simpl; congruence.
  - rewrite R2. reflexivity.
Qed.

End StoreFacts.

Section MkdirRmdir.
Import JsString PathUtils Vfs VfsApi.

Lemma pushFolder_keepsName name : keepsName (pushFolder name).
Proof. intros d. reflexivity. Qed.

Lemma mkdir_run name s :
  mkdir name s =
  if (name =? "") || hasSeparator name then (Throw MkdirInvalidName, s)
  else
    match resolveFolderFrom (root (state s)) (cwdParts (state s)) with
    | None => (Throw TypeErrorNull, s)
    | Some c =>
        if existsb (folderNamed name) (folders c)
           || existsb (fileNamed (Some name)) (files c)
        then (Throw (MkdirFileExists name), s)
        else
          let st' := mkState (updateFolderAt (cwdParts (state s))
                                (pushFolder name) (root (state s)))
                             (cwdParts (state s)) in
          (Ok tt, mkStore st' (Some st') (S (saveCount s)))
    end.
Proof.
  unfold mkdir. destruct ((name =? "") || hasSeparator name); [reflexivity|].
  destruct s as [[r cwd] ps k].
  unfold getCwdFolder, resolveFolder, mutateFolder, bind, ret, throw,
    getState, setState, save. simpl.
  destruct (resolveFolderFrom r cwd) as [c|]; [|reflexivity].
  destruct (existsb _ _ || existsb _ _); reflexivity.
Qed.

Lemma rmdir_run name s :
  rmdir name s =
  match resolveFolderFrom (root (state s)) (cwdParts (state s)) with
  | None => (Throw TypeErrorNull, s)
  | Some c =>
      match findIndex (folderNamed name) (folders c) with
      | None => (Throw (RmdirNoSuch name), s)
      | Some idx =>
          match nth_error (folders c) idx with
          | None => (Throw TypeErrorNull, s)
          | Some folder =>
              if negb (List.length (folders folder) =? 0)%nat
                 || negb (List.length (files folder) =? 0)%nat
              then (Throw (RmdirNotEmpty name), s)
              else
                let st' := mkState (updateFolderAt (cwdParts (state s))
                                      (dropFolder idx) (root (state s)))
                                   (cwdParts (state s)) in
                (Ok tt, mkStore st' (Some st') (S (saveCount s)))
          end
      end
  end.
Proof.
  destruct s as [[r cwd] ps k].
  unfold rmdir, getCwdFolder, resolveFolder, mutateFolder, bind, ret, throw,
    getState, setState, save. simpl.
  destruct (resolveFolderFrom r cwd) as [c|]; [|reflexivity].
  destruct (findIndex _ _) as [idx|]; [|reflexivity].
  destruct (nth_error _ _) as [folder|]; [|reflexivity].
  destruct (negb _ || negb _); reflexivity.
Qed.

Lemma folderNamed_new name : folderNamed name (mkFolder name [] []) = true.
Proof. unfold folderNamed. simpl. apply String.eqb_refl. Qed.

Lemma nth_error_app_last {A} (l : list A) (y : A) :
  nth_error (l ++ [y]) (List.length l) = Some y.
Proof. induction l; simpl; auto. Qed.

(** C6. In any store [s] and for any name [n]:
    - [mkdir(n)] rejects the empty name and a name with a separator
      (invalid name);
    - [mkdir(n)] fails with already-exists when the cwd holds a file
      named [n];
    - after [mkdir(n)] succeeds, a second [mkdir(n)] fails with
      already-exists; [rmdir(n)] on the still empty folder succeeds and
      removes it (the tree is the one before the first [mkdir]); a second
      [rmdir(n)] fails with not-found;
    - [rmdir(n)] of a folder that has a child folder or file fails with
      not-empty. *)
Theorem mkdir_rmdir_sequence (s : Store) (n : string) :
  ((n = "" \/ hasSeparator n = true) ->
     mkdir n s = (Throw MkdirInvalidName, s)
     /\ errorKind MkdirInvalidName = InvalidName)
  /\ (forall c,
        resolveFolderFrom (root (state s)) (cwdParts (state s)) = Some c ->
        n <> "" -> hasSeparator n = false ->
        existsb (fileNamed (Some n)) (files c) = true ->
        mkdir n s = (Throw (MkdirFileExists n), s))
  /\ (forall s1, mkdir n s = (Ok tt, s1) ->
        mkdir n s1 = (Throw (MkdirFileExists n), s1)
        /\ errorKind (MkdirFileExists n) = AlreadyExists
        /\ exists s2,
             rmdir n s1 = (Ok tt, s2)
             /\ root (state s2) = root (state s)
             /\ cwdParts (state s2) = cwdParts (state s)
             /\ rmdir n s2 = (Throw (RmdirNoSuch n), s2)
             /\ errorKind (RmdirNoSuch n) = NotFound)
  /\ (forall c d,
        resolveFolderFrom (root (state s)) (cwdParts (state s)) = Some c ->
        find (folderNamed n) (folders c) = Some d ->
        (folders d <> [] \/ files d <> []) ->
        rmdir n s = (Throw (RmdirNotEmpty n), s)
        /\ errorKind (RmdirNotEmpty n) = NotEmpty).
Proof.
  repeat split.
  - rewrite mkdir_run. destruct H as [->|H]; [reflexivity|].
    now rewrite H, orb_true_r.
  - intros c R Hne Hsep Hfile. rewrite mkdir_run, R, Hsep, Hfile.
    apply String.eqb_neq in Hne. rewrite Hne, orb_true_r. reflexivity.
  - revert H. rewrite mkdir_run.
    destruct ((n =? "") || hasSeparator n) eqn:V; [discriminate|].
    destruct (resolveFolderFrom _ _) as [c|] eqn:R; [|discriminate].
    destruct (existsb _ _ || existsb _ _) eqn:E; [discriminate|].
    intros H. injection H as <-. rewrite mkdir_run, V. cbn [state root cwdParts].
    rewrite (resolve_updateFolderAt _ _ (pushFolder_keepsName n) _ _ R).
    unfold pushFolder at 1. cbn [folders files].
    rewrite existsb_app. simpl. rewrite folderNamed_new.
    now rewrite !orb_true_r.
  - revert H. rewrite mkdir_run.
    destruct ((n =? "") || hasSeparator n) eqn:V; [discriminate|].
    destruct (resolveFolderFrom _ _) as [c|] eqn:R; [|discriminate].
    destruct (existsb _ _ || existsb _ _) eqn:E; [discriminate|].
    apply orb_false_iff in E as [Ef _].
    intros H. injection H as <-.
    pose proof (resolve_updateFolderAt _ _ (pushFolder_keepsName n) _ _ R)
      as R1.
    assert (Hroot : updateFolderAt (cwdParts (state s)) (dropFolder
              (List.length (folders c)))
              (updateFolderAt (cwdParts (state s)) (pushFolder n)
                 (root (state s))) = root (state s)).
    { rewrite updateFolderAt_comp by apply pushFolder_keepsName.
      apply (updateFolderAt_fixed _ _ _ c R).
      unfold dropFolder, pushFolder. simpl.
      rewrite removeAt_app_last. apply folder_eta. }
    eexists. split; [|split; [|split; [|split]]].
    + rewrite rmdir_run. cbn [state root cwdParts]. rewrite R1.
      unfold pushFolder at 1 2. cbn [folders files].
      rewrite (findIndex_app_new _ _ _ Ef (folderNamed_new n)).
      rewrite nth_error_app_last. simpl. reflexivity.
    + cbn [state root]. exact Hroot.
    + reflexivity.
    + rewrite rmdir_run. cbn [state root cwdParts]. rewrite Hroot, R.
      apply findIndex_none in Ef. rewrite Ef. reflexivity.
    + reflexivity.
  - rename H into R, H0 into F, H1 into Hchild.
    rewrite rmdir_run, R.
    destruct (find_findIndex _ _ _ F) as [i Hi]. rewrite Hi.
    rewrite (findIndex_find _ _ _ Hi), F.
    destruct Hchild as [Hc|Hc].
    + destruct (folders d); [congruence|]. reflexivity.
    + destruct (files d); [congruence|]. simpl. now rewrite orb_true_r.
Qed.

Lemma mkdir_rmdir_sequence_witness :
  mkdir "a" emptyStore
  = (Ok tt, mkStore (mkState (mkFolder "/" [mkFolder "a" [] []] []) [])
              (Some (mkState (mkFolder "/" [mkFolder "a" [] []] []) []))
              1)
  /\ mkdir "a"
       (mkStore (mkState (mkFolder "/" [mkFolder "a" [] []] []) [])
          (Some (mkState (mkFolder "/" [mkFolder "a" [] []] []) [])) 1)
     = (Throw (MkdirFileExists "a"),
        mkStore (mkState (mkFolder "/" [mkFolder "a" [] []] []) [])
          (Some (mkState (mkFolder "/" [mkFolder "a" [] []] []) [])) 1).
Proof.
  split; [reflexivity|].
  apply (proj1 (proj1 (proj2 (proj2 (mkdir_rmdir_sequence emptyStore "a")))
                  _ eq_refl)).
Defined.

End MkdirRmdir.


(* ------------------------------------------------------------------ *)
(** ** Virtual filesystem: the tree invariant *)
(* ------------------------------------------------------------------ *)

Section InvariantBroken.
Import JsString PathUtils Vfs VfsApi VfsInvariant.

(** C2 (fails on the code). The default empty-root state satisfies the
    tree invariant, [writeFile("/", "x")] on it returns normally, and the
    state it produces holds a file node with no name under the root, so
    the invariant no longer holds: [writeFile] stores the result of
    [parts.pop()] on an empty segment list without the check that
    [mkdir] makes on its name. *)
Theorem writeFile_root_breaks_invariant :
  treeOk (root (state emptyStore)) = true
  /\ exists s',
       writeFile "/" "x" emptyStore = (Ok tt, s')
       /\ runOps [OpWriteFile "/" "x"] emptyStore = s'
       /\ files (root (state s')) = [mkFile None "x"]
       /\ treeOk (root (state s')) = false.
Proof.
  split; [reflexivity|].
  eexists. repeat split; reflexivity.
Qed.

End InvariantBroken.

(* ------------------------------------------------------------------ *)
(** ** Command tokenizer *)
(* ------------------------------------------------------------------ *)

Section TokenizerFacts.
Import JsString CommandLine Statements.

Lemma pushToken_quote len st :
  tokenStart st <> None -> quote (pushToken len st) = None.
Proof.
  unfold pushToken. destruct (tokenStart st); [reflexivity|congruence].
Qed.

Lemma stepChar_quoteHasToken ch i st :
  quoteHasToken st -> quoteHasToken (stepChar ch i st).
Proof.
  unfold quoteHasToken, stepChar, startAt, pushToken. intros H.
  destruct (escaping st); simpl.
  - destruct (tokenStart st); simpl; congruence.
  - destruct (Ascii.eqb ch backslash); simpl.
    + destruct (tokenStart st); simpl; congruence.
    + destruct (quote st) as [q|] eqn:Q.
      * destruct (Ascii.eqb ch q); simpl; [congruence|].
        destruct (tokenStart st); simpl; congruence.
      * destruct (Ascii.eqb ch dquote || Ascii.eqb ch squote); simpl.
        { destruct (tokenStart st); simpl; congruence. }
        destruct (isWhitespace ch).
        { destruct (tokenStart st) eqn:T; simpl; [congruence|].
          rewrite Q. congruence. }
        simpl. congruence.
Qed.

Lemma scan_quoteHasToken src : forall i st,
  quoteHasToken st -> quoteHasToken (scan src i st).
Proof.
  induction src as [|ch rest IH]; simpl; intros i st H; [assumption|].
  apply IH. now apply stepChar_quoteHasToken.
Qed.

(** The flag is read after [pushToken] has cleared [quote], so it is
    false for every input. *)
Lemma unterminatedQuote_always_false (src : string) :
  unterminatedQuote (tokenizeCommandLine src) = false.
Proof.
  unfold tokenizeCommandLine. cbn [unterminatedQuote].
  pose proof (scan_quoteHasToken src 0 initLexer) as H.
  assert (H0 : quoteHasToken initLexer) by (intros Q; now elim Q).
  specialize (H H0). clear H0.
  set (st := scan src 0 initLexer) in *.
  assert (Hq : tokenStart st = None -> quote st = None).
  { intros T. unfold quoteHasToken in H. rewrite T in H.
    destruct (quote st); [|reflexivity]. exfalso. apply H; congruence. }
  clearbody st. clear H. unfold finish, pushToken.
  destruct st as [tk b ts q qc hq esc]. cbn in *.
  destruct esc; cbn; destruct ts; cbn; try reflexivity;
    now rewrite Hq.
Qed.

(** C1 (fails on the code). The line made of [echo], a space, a double
    quote and [abc] ends inside an open
    quoted span; tokenizing it returns normally with the tokens [echo]
    and the partial [abc], but [unterminatedQuote] is false, not true:
    the final [pushToken] resets [quote] before the flag is computed
    from it.  A line that does not end inside a quote, [echo abc], also
    gives false. *)
Theorem unterminated_quote_not_reported :
  endsInsideQuote ("echo " ++ String dquote "abc") = true
  /\ map value (resTokens (tokenizeCommandLine
                             ("echo " ++ String dquote "abc")))
     = ["echo"; "abc"]
  /\ unterminatedQuote (tokenizeCommandLine
                          ("echo " ++ String dquote "abc")) = false
  /\ endsInsideQuote "echo abc" = false
  /\ unterminatedQuote (tokenizeCommandLine "echo abc") = false.
Proof. repeat split; reflexivity. Qed.

End TokenizerFacts.

(* ------------------------------------------------------------------ *)
(** ** Dispatcher: alias expansion *)
(* ------------------------------------------------------------------ *)

Section AliasFacts.
Import JsString CommandLine Holder Examples.

Lemma existsb_eqb_false (x : string) (l : list string) :
  existsb (String.eqb x) l = false -> ~ In x l.
Proof.
  induction l as [|y l IH]; simpl; intros H; [tauto|].
  apply orb_false_iff in H as [Hy Hl]. apply String.eqb_neq in Hy.
  intros [E|I]; [congruence|]. now apply IH.
Qed.

(** The loop reaches its exit after at most [maxDepth - i] bodies, and
    the exit state carries what the recursive reading computes. *)
Lemma aliasLoopRun_exit (env : Env) (maxDepth : nat) :
  forall k st extra,
    maxDepth - loopIndex st = k -> loopIndex st <= maxDepth ->
    exists st',
      aliasLoopRun env maxDepth (S k + extra) st = Some st'
      /\ expandAliasesLoop env k (currentCommand st) (currentArgs st)
           (seen st) = (currentCommand st', currentArgs st')
      /\ loopIndex st' <= maxDepth
      /\ (List.length (seen st) = loopIndex st ->
          List.length (seen st') = loopIndex st')
      /\ (NoDup (seen st) -> NoDup (seen st')).
Proof.
  induction k as [|k IH]; intros st extra Hk Hle.
  - exists st. cbn [aliasLoopRun Nat.add]. unfold aliasLoopStep.
    assert (E : (loopIndex st <? maxDepth)%nat = false)
      by (apply Nat.ltb_ge; lia).
    rewrite E. simpl. repeat split; auto.
  - cbn [aliasLoopRun Nat.add expandAliasesLoop]. unfold aliasLoopStep.
    assert (E : (loopIndex st <? maxDepth)%nat = true)
      by (apply Nat.ltb_lt; lia).
    rewrite E.
    destruct (existsb (String.eqb (currentCommand st)) (seen st)) eqn:Hseen.
    { exists st. repeat split; auto. }
    destruct (expandAliasesOnce env (currentCommand st) (currentArgs st))
      as [[c a] same].
    destruct ((c =? currentCommand st) && same).
    { exists st. repeat split; auto. }
    destruct (IH (mkAliasLoop (S (loopIndex st)) c a
                    (currentCommand st :: seen st)) extra)
      as [st' [R [V [L [Hlen Hnd]]]]]; cbn [loopIndex]; try lia.
    exists st'. cbn [currentCommand currentArgs seen loopIndex] in *.
    repeat split; auto.
    + intros Hl. apply Hlen. simpl. now rewrite Hl.
    + intros Hn. apply Hnd. constructor; [|assumption].
      now apply existsb_eqb_false.
Qed.

(** C8. For every alias environment, command, argument list and depth
    bound, the loop of [expandAliases] reaches its exit after at most
    [maxDepth] bodies (any fuel above [maxDepth] is enough), the value
    returned is the command and arguments at that exit, the number of
    expansions is the size of the visited set and at most [maxDepth], and
    no command is expanded twice.  On the cyclic environment the
    expansion of [a] (or of [b]) stops at the command reached when the
    cycle closes, with the arguments as given, without an error. *)
Theorem expandAliases_terminates (env : Env) (command : string)
    (args : list string) (maxDepth : nat) :
  (exists st,
     (forall extra,
        aliasLoopRun env maxDepth (S maxDepth + extra)
          (mkAliasLoop 0 command args []) = Some st)
     /\ expandAliasesDepth env command args maxDepth
        = (currentCommand st, currentArgs st)
     /\ loopIndex st <= maxDepth
     /\ List.length (seen st) = loopIndex st
     /\ NoDup (seen st))
  /\ expandAliases cyclicEnv "a" args = ("a", args)
  /\ expandAliases cyclicEnv "b" args = ("b", args).
Proof.
  split; [|split; reflexivity].
  destruct (aliasLoopRun_exit env maxDepth maxDepth
              (mkAliasLoop 0 command args []) 0)
    as [st [R [V [L [Hlen Hnd]]]]]; cbn [loopIndex]; try lia.
  exists st. repeat split; auto.
  - intros extra.
    destruct (aliasLoopRun_exit env maxDepth maxDepth
                (mkAliasLoop 0 command args []) extra)
      as [st2 [R2 _]]; cbn [loopIndex]; try lia.
    rewrite R2. revert R R2. clear.
    generalize (mkAliasLoop 0 command args []).
    generalize (S maxDepth). intros n. revert extra.
    induction n as [|n IH]; intros extra s0; cbn [Nat.add aliasLoopRun];
      [discriminate|].
    destruct (aliasLoopStep env maxDepth s0) as [s1|].
    + apply IH.
    + congruence.
  - apply Hnd. constructor.
Qed.

End AliasFacts.

(* ------------------------------------------------------------------ *)
(** ** Dispatcher: strict dispatch and command scripts *)
(* ------------------------------------------------------------------ *)

Section ScriptFacts.
Import JsString PathUtils CommandLine Vfs VfsApi Holder Examples Statements.

Variable runSource :
  string -> list string -> string -> World
  -> (bool * option ShellError) * World.
Variable other : string -> Handler.

Lemma resolveFolderFrom_app (p q : list string) : forall r,
  resolveFolderFrom r (p ++ q)
  = match resolveFolderFrom r p with
    | Some d => resolveFolderFrom d q
    | None => None
    end.
Proof.
  induction p as [|part rest IH]; simpl; intros r; [reflexivity|].
  destruct (find (folderNamed part) (folders r)); [apply IH|reflexivity].
Qed.

Lemma dispatchStrict_mkdir (name : string) (w : World) :
  dispatchStrict (commandModules runSource other) "mkdir" [name] w
  = match onVfs (mkdir name) w with
    | (Ok _, w1) => (mkStrict true true true None, print "" w1)
    | (Throw err, w1) =>
        (mkStrict false true true
           (Some (ErrMsg "mkdir: one or more operations failed")),
         print "" (print (vfsMessage err) w1))
    end.
Proof.
  unfold dispatchStrict, commandModules. simpl.
  unfold executeMkdirCommand. simpl.
  destruct (onVfs (mkdir name) w) as [[u|err] w1]; reflexivity.
Qed.

Lemma dispatchStrict_cd (target : string) (w : World) :
  target <> "" ->
  dispatchStrict (commandModules runSource other) "cd" [target] w
  = match onVfs (changeDirectory target) w with
    | (Ok _, w1) => (mkStrict true true true None, w1)
    | (Throw err, w1) =>
        (mkStrict false true true (Some (VfsErr err)),
         print "" (print (vfsMessage err) w1))
    end.
Proof.
  intros Hne. apply String.eqb_neq in Hne.
  unfold dispatchStrict, commandModules. simpl.
  unfold executeCdCommand. simpl. rewrite Hne.
  destruct (onVfs (changeDirectory target) w) as [[u|err] w1]; reflexivity.
Qed.

Lemma changeDirectory_missing (s : Store) (c : VfsFolder) (name : string) :
  normalizePathParts (cwdParts (state s)) name
    = (cwdParts (state s) ++ [name])%list ->
  resolveFolderFrom (root (state s)) (cwdParts (state s)) = Some c ->
  existsb (folderNamed name) (folders c) = false ->
  changeDirectory name s = (Throw (CdNoSuchDir name), s).
Proof.
  intros N R E. destruct s as [[r cwd] ps k]. cbn in *.
  unfold changeDirectory, normalizePath, resolveFolder, bind, ret, throw,
    getState. cbn. rewrite N, resolveFolderFrom_app, R. cbn.
  apply find_none_existsb in E. rewrite E. reflexivity.
Qed.

Lemma runJshLines_app (modules : list Handler) (inv : string)
    (l1 l2 : list string) : forall i w w1,
  runJshLines modules inv l1 i w = (JshDone, w1) ->
  runJshLines modules inv (l1 ++ l2) i w
  = runJshLines modules inv l2 (i + List.length l1) w1.
Proof.
  induction l1 as [|rawLine rest IH]; intros i w w1 H.
  - simpl in H. injection H as <-. simpl. now rewrite Nat.add_0_r.
  - cbn [runJshLines app List.length] in *.
    destruct (parseSimpleCommandLine rawLine) as [command args].
    destruct (command =? "").
    + rewrite (IH _ _ _ H). f_equal. lia.
    + destruct (dispatchStrict modules command args w) as [r w2].
      destruct (negb (sOk r)); [discriminate|].
      destruct (negb (sShouldContinue r)); [discriminate|].
      rewrite (IH _ _ _ H). f_equal. lia.
Qed.

(** C4, as the code has it.  (1) Running the script [/s.jsh] with the
    lines [mkdir x], [cd nowhere], [mkdir y] in a session at an otherwise
    empty root creates the folder [x], prints that it stopped at line 2
    together with the line, and creates no [y].  (2) In every session
    whose cwd folder has neither a folder nor a file named [x] and no
    folder [nowhere], these three lines stop at line 2 with the line text
    reported: the cwd folder gains exactly the folder [x].  (3) In
    general, with any handlers: when the lines before a line ran to their
    end and that line's strict dispatch is not ok, the loop
    returns there, reports the 1-based line number and the line, and the
    session is the one after that dispatch plus the report, whatever
    lines follow.  (4) A strict dispatch is not ok exactly when the
    command was unhandled, or handled with [ok === false], or a handler
    threw. *)
Theorem jsh_stops_at_first_failure :
  runJshScript (commandModules runSource other) "./s.jsh" demoWorld
  = (true,
     let st := mkState (mkFolder "/" [mkFolder "x" [] []]
                          [mkFile (Some "s.jsh") demoScript]) [] in
     mkWorld (mkStore st (Some st) 1)
       [""; "cd: no such file or directory: nowhere"; "";
        "jsh: stopped at ./s.jsh:2"; "jsh: cd nowhere";
        "jsh: cd: no such file or directory: nowhere"; ""]
       [])
  /\ (forall (w : World) (c : VfsFolder) (inv : string),
        resolveFolderFrom (root (state (vfs w))) (cwdParts (state (vfs w)))
          = Some c ->
        existsb (folderNamed "x") (folders c) = false ->
        existsb (fileNamed (Some "x")) (files c) = false ->
        existsb (folderNamed "nowhere") (folders c) = false ->
        exists w',
          runJshLines (commandModules runSource other) inv
            ["mkdir x"; "cd nowhere"; "mkdir y"] 0 w
          = (JshStopped 2 "cd nowhere", w')
          /\ resolveFolderFrom (root (state (vfs w')))
               (cwdParts (state (vfs w'))) = Some (pushFolder "x" c)
          /\ root (state (vfs w'))
             = updateFolderAt (cwdParts (state (vfs w))) (pushFolder "x")
                 (root (state (vfs w)))
          /\ printed w'
             = (printed w ++
                [""; "cd: no such file or directory: nowhere"; "";
                 ("jsh: stopped at " ++ inv ++ ":2")%string;
                 "jsh: cd nowhere";
                 "jsh: cd: no such file or directory: nowhere"; ""])%list)
  /\ (forall (modules : list Handler) (inv : string)
             (before : list string) (rawLine : string)
             (rest : list string) (i : nat) (w w1 w2 : World)
             (command : string) (args : list string) (r : StrictResult),
        runJshLines modules inv before i w = (JshDone, w1) ->
        parseSimpleCommandLine rawLine = (command, args) ->
        command <> "" ->
        dispatchStrict modules command args w1 = (r, w2) ->
        sOk r = false ->
        runJshLines modules inv (before ++ rawLine :: rest) i w
        = (JshStopped (i + List.length before + 1) rawLine,
           stopReport inv (i + List.length before + 1) rawLine
             (sError r) w2))
  /\ (forall (modules : list Handler) (command : string)
             (args : list string) (w : World),
        command <> "" ->
        (sOk (fst (dispatchStrict modules command args w)) = false <->
         match fst (dispatchRegisteredModules modules command args w) with
         | DThrow _ => True
         | DReturn d => dHandled d = false \/ dOk d = Some false
         end)).
Proof.
  split; [reflexivity|]. split; [|split].
  - intros w c inv R Hx Hxf Hn.
    destruct w as [[[r cwd] ps k] out hist]. cbn in R.
    cbn [runJshLines].
    change (parseSimpleCommandLine "mkdir x") with ("mkdir", ["x"]).
    change (parseSimpleCommandLine "cd nowhere") with ("cd", ["nowhere"]).
    cbn [String.eqb Ascii.eqb Bool.eqb].
    rewrite dispatchStrict_mkdir. unfold onVfs. cbn [vfs].
    rewrite mkdir_run. cbn [state root cwdParts String.eqb orb].
    change (hasSeparator "x") with false. cbn [orb].
    rewrite R, Hx, Hxf. cbn [orb negb sOk sShouldContinue].
    rewrite dispatchStrict_cd by discriminate. unfold onVfs, print.
    cbn [vfs printed commandHistory].
    pose proof (resolve_updateFolderAt cwd _ (pushFolder_keepsName "x") _ _ R)
      as R1.
    erewrite changeDirectory_missing; [| | cbn; exact R1 |].
    + cbn [negb sOk sError]. eexists. split; [reflexivity|].
      cbn. rewrite R1. repeat split.
      rewrite <- !app_assoc. reflexivity.
    + reflexivity.
    + unfold pushFolder. cbn [folders]. rewrite existsb_app, Hn.
      reflexivity.
  - intros modules inv before rawLine rest i w w1 w2 command args r
      Hbefore Hparse Hcmd Hdisp Hok.
    rewrite (runJshLines_app _ _ _ _ _ _ _ Hbefore).
    cbn [runJshLines]. rewrite Hparse.
    apply String.eqb_neq in Hcmd. rewrite Hcmd, Hdisp, Hok. reflexivity.
  - intros modules command args w Hcmd.
    apply String.eqb_neq in Hcmd. unfold dispatchStrict. rewrite Hcmd.
    destruct (dispatchRegisteredModules modules command args w)
      as [[d|e] w1]; cbn.
    + destruct (dHandled d); cbn.
      * destruct (dOk d) as [[|]|]; cbn;
          (split; [intros H; try discriminate; auto
                  |intros [H|H]; try discriminate; auto]).
      * split; auto.
    + split; auto.
Qed.

End ScriptFacts.

Lemma jsh_stops_at_first_failure_witness :
  exists w',
    Holder.runJshLines
      (Holder.commandModules Examples.recordingRunSource
         (fun _ _ _ w => (Holder.notMine, w)))
      "./s.jsh" ["mkdir x"; "cd nowhere"; "mkdir y"] 0 Examples.demoWorld
    = (Holder.JshStopped 2 "cd nowhere", w').
Proof.
  destruct (proj1 (proj2 (jsh_stops_at_first_failure
                            Examples.recordingRunSource
                            (fun _ _ _ w => (Holder.notMine, w))))
              Examples.demoWorld
              (Vfs.mkFolder "/" []
                 [Vfs.mkFile (Some "s.jsh") Examples.demoScript])
              "./s.jsh" eq_refl eq_refl eq_refl eq_refl)
    as [w' [H _]].
  exists w'. exact H.
Defined.

(** In a session with no folder [x] and no folder [nowhere], but with a
    file named [x] in the cwd, the three-line script stops at line 1:
    [mkdir x] fails because the name is taken, no folder is created, and
    the report names line 1 and its text. *)
Lemma jsh_stops_at_line_one_when_x_is_a_file :
  existsb (Vfs.folderNamed "x")
    (Vfs.folders (Vfs.root (Vfs.state (Holder.vfs Examples.fileXWorld))))
  = false
  /\ existsb (Vfs.folderNamed "nowhere")
       (Vfs.folders (Vfs.root (Vfs.state (Holder.vfs Examples.fileXWorld))))
     = false
  /\ exists w',
       Holder.runJshScript
         (Holder.commandModules Examples.recordingRunSource
            (fun _ _ _ w => (Holder.notMine, w)))
         "./s.jsh" Examples.fileXWorld
       = (true, w')
       /\ Vfs.folders (Vfs.root (Vfs.state (Holder.vfs w'))) = []
       /\ Holder.printed w'
          = ["mkdir: cannot create directory 'x': File exists"; "";
             "jsh: stopped at ./s.jsh:1"; "jsh: mkdir x";
             "jsh: mkdir: one or more operations failed"; ""].
Proof.
  split; [reflexivity|]. split; [reflexivity|].
  eexists. split; [vm_compute; reflexivity|]. split; reflexivity.
Qed.

(* ------------------------------------------------------------------ *)
(** ** Dispatcher: PATH fallback *)
(* ------------------------------------------------------------------ *)

Section PathFallbackFacts.
Import JsString PathUtils CommandLine Vfs VfsApi Holder Examples Statements.

Variable runSource :
  string -> list string -> string -> World
  -> (bool * option ShellError) * World.
Variable stringifyHistory : list string -> string.
Variable historyLimit : nat.

Lemma searchPath_first (dirs : list Json) (fileName : string) (w : World) :
  searchPath dirs fileName w
  = match find (usableDir w fileName) dirs with
    | Some (JString dir) => Some (joinVfsPath dir fileName)
    | _ => None
    end.
Proof.
  induction dirs as [|[dir|] rest IH]; cbn [searchPath find usableDir];
    [reflexivity| |exact IH].
  destruct (startsWith dir "/"); cbn [andb]; [|exact IH].
  destruct (dirHasFile w dir fileName); [reflexivity|exact IH].
Qed.

Lemma executeVfsScript_handled scriptPath args invokedAs w :
  exists r w',
    executeVfsScript runSource scriptPath args invokedAs w
    = (Returned (Some r), w')
    /\ handled r = true /\ shouldContinue r = Some true.
Proof.
  unfold executeVfsScript.
  destruct (onVfs (readFile scriptPath) w) as [[source|err] w1].
  - destruct (runSource _ args source w1) as [[rok rerr] w2].
    eexists _, _. repeat split.
  - eexists _, _. repeat split.
Qed.

Lemma nameEq_sym (a b : option string) : nameEq a b = nameEq b a.
Proof.
  destruct a, b; simpl; try reflexivity. apply String.eqb_sym.
Qed.

Lemma readFile_keeps_store (path : string) (s : Store) :
  snd (readFile path s) = s.
Proof.
  rewrite readFile_run. cbv zeta.
  destruct (resolveFolderFrom _ _); [|reflexivity].
  destruct (find _ _); reflexivity.
Qed.

Lemma dirHasFile_spec (w : World) (dir file : string) :
  startsWith dir "/" = true ->
  (dirHasFile w dir file = true <->
   exists d,
     resolveFolderFrom (root (state (vfs w)))
       (normalizePathParts (cwdParts (state (vfs w))) dir) = Some d
     /\ existsb (fileNamed (Some file)) (files d) = true).
Proof.
  intros Habs.
  assert (Hdot : (dir =? ".") = false).
  { destruct dir as [|c dir']; [discriminate|]. simpl in Habs.
    apply andb_true_iff in Habs as [Hc _]. apply Ascii.eqb_eq in Hc.
    subst c. reflexivity. }
  unfold dirHasFile, listFolder, normalizePath, resolveFolder, bind, ret,
    throw, getState. rewrite Hdot. cbn [fst].
  destruct (resolveFolderFrom _ _) as [d|]; cbn [fst].
  - assert (E : existsb (nameEq (Some file)) (map fileName (files d))
                = existsb (fileNamed (Some file)) (files d)).
    { induction (files d) as [|f l IH]; simpl; [reflexivity|].
      unfold fileNamed at 1. now rewrite IH, nameEq_sym. }
    rewrite E. split.
    + intros H. now exists d.
    + intros [d' [[= <-] H]]. exact H.
  - split; [discriminate|]. intros [d [H _]]. discriminate.
Qed.

(** C3, as the code has it.  When no handler handled the command of an
    interactive line: (1) the lookup takes the directories of [env.PATH]
    in order and returns the script path in the first entry that is a
    string starting with the separator, whose listing returns and holds
    a file named like the command with [.js] appended (the command itself
    when it already ends in [.js]); every other entry is passed over
    without any effect; (2) a listing returns and holds the file exactly
    when the directory resolves to a folder with a file of that
    name; (3) the script found is run by [executeVfsScript] with the
    command and arguments that alias expansion produced; (4) and
    [executeVfsScript] hands exactly that command to the script as its
    [command] argument. *)
Theorem path_fallback_runs_expanded_command :
  (forall (env : Env) (commandName : string) (w : World),
      commandName <> "" -> includes "/" commandName = false ->
      resolveScriptOnPath env commandName w
      = match find (usableDir w (scriptFileName commandName)) (PATH env) with
        | Some (JString dir) =>
            Some (joinVfsPath dir (scriptFileName commandName))
        | _ => None
        end)
  /\ (forall (w : World) (dir file : string),
        startsWith dir "/" = true ->
        (dirHasFile w dir file = true <->
         exists d,
           resolveFolderFrom (root (state (vfs w)))
             (normalizePathParts (cwdParts (state (vfs w))) dir) = Some d
           /\ existsb (fileNamed (Some file)) (files d) = true))
  /\ (forall (env : Env) (modules : list Handler) (input : string)
             (w w2 : World) (command : string) (args : list string)
             (scriptPath : string),
        trim input <> "" ->
        expandAliases env (fst (parseCommandLine (trim input)))
          (snd (parseCommandLine (trim input))) = (command, args) ->
        startsWith command "./" && endsWith command ".jsh" = false ->
        tryHandlers modules command args
          (recordHistory stringifyHistory historyLimit (trim input) w)
        = (inr (false, true), w2) ->
        resolveScriptOnPath env command w2 = Some scriptPath ->
        mainLoopStep runSource stringifyHistory historyLimit env modules
          input w
        = (true,
           snd (executeVfsScript runSource scriptPath args command w2)))
  /\ (forall (scriptPath : string) (args : list string) (command : string)
             (w : World) (source : string),
        command <> "" ->
        fst (readFile scriptPath (vfs w)) = Ok source ->
        executeVfsScript runSource scriptPath args command w
        = (Returned
             (Some (mkResult true (Some true)
                      (Some (fst (fst (runSource command args source w))))
                      (snd (fst (runSource command args source w))))),
           print "" (snd (runSource command args source w)))).
Proof.
  split; [|split; [|split]].
  - intros env commandName w Hne Hslash.
    unfold resolveScriptOnPath. apply String.eqb_neq in Hne.
    rewrite Hne, Hslash. apply searchPath_first.
  - apply dirHasFile_spec.
  - intros env modules input w w2 command args scriptPath
      Hin Hexp Hjsh Hnone Hres.
    unfold mainLoopStep.
    destruct (parseCommandLine (trim input)) as [command0 args0].
    cbn [fst snd] in Hexp. rewrite Hexp.
    apply String.eqb_neq in Hin. rewrite Hin, Hjsh, Hnone.
    unfold pathFallback. cbn [negb andb].
    destruct (command =? "") eqn:Hc.
    { apply String.eqb_eq in Hc. subst command.
      unfold resolveScriptOnPath in Hres. discriminate. }
    cbn [negb]. rewrite Hres.
    destruct (executeVfsScript_handled scriptPath args command w2)
      as [r [w3 [E [Hh Hs]]]].
    rewrite E, Hh, Hs. reflexivity.
  - intros scriptPath args command w source Hne Hread.
    unfold executeVfsScript, onVfs.
    pose proof (readFile_keeps_store scriptPath (vfs w)) as Hst.
    destruct (readFile scriptPath (vfs w)) as [o s']. cbn in Hread, Hst.
    subst o s'. apply String.eqb_neq in Hne. rewrite Hne.
    destruct w as [s out hist]. cbn [vfs printed commandHistory].
    destruct (runSource command args source _) as [[rok rerr] w2].
    reflexivity.
Qed.

End PathFallbackFacts.

Lemma path_fallback_runs_expanded_command_witness :
  Holder.mainLoopStep Examples.recordingRunSource (fun _ => "[]") 500
    Examples.sampleEnv
    (Holder.commandModules Examples.recordingRunSource
       (fun _ _ _ w => (Holder.notMine, w)))
    "s" Examples.sampleWorld
  = (true,
     snd (Holder.executeVfsScript Examples.recordingRunSource
            "/bin/sample.js" [] "sample" Examples.sampleWorld)).
Proof.
  apply (proj1 (proj2 (proj2 (path_fallback_runs_expanded_command
                                Examples.recordingRunSource
                                (fun _ => "[]") 500)))
           Examples.sampleEnv _ "s" Examples.sampleWorld
           Examples.sampleWorld "sample" [] "/bin/sample.js").
  - vm_compute. discriminate.
  - reflexivity.
  - reflexivity.
  - reflexivity.
  - reflexivity.
Defined.

(** C3 as stated fails: with the alias [s] for [sample] and the script
    [/bin/sample.js] on the PATH, the line [s] is not handled by any
    module, the PATH fallback finds the script, and the script is given
    [sample], the alias-expanded command, as its [command] argument, not
    the token [s] that was typed.  (A command that already ends in [.js]
    is looked up under its own name, without a second suffix.) *)
Lemma path_fallback_not_typed_token :
  fst (CommandLine.parseCommandLine (JsString.trim "s")) = "s"
  /\ Holder.printed
       (snd (Holder.mainLoopStep Examples.recordingRunSource
               (fun _ => "[]") 500 Examples.sampleEnv
               (Holder.commandModules Examples.recordingRunSource
                  (fun _ _ _ w => (Holder.notMine, w)))
               "s" Examples.sampleWorld))
     = ["invoked as sample"; ""]
  /\ Holder.printed
       (snd (Holder.mainLoopStep Examples.recordingRunSource
               (fun _ => "[]") 500 Examples.sampleEnv
               (Holder.commandModules Examples.recordingRunSource
                  (fun _ _ _ w => (Holder.notMine, w)))
               "s" Examples.sampleWorld))
     <> ["invoked as s"; ""]
  /\ Holder.resolveScriptOnPath Examples.sampleEnv "sample.js"
       Examples.sampleWorld
     = Some "/bin/sample.js".
Proof.
  split; [reflexivity|]. split; [reflexivity|].
  split; [vm_compute; discriminate|reflexivity].
Qed.

(* ------------------------------------------------------------------ *)
(** ** Completion engine *)
(* ------------------------------------------------------------------ *)

Section SortingFacts.
Import Completion.

Variable localeCompare : string -> string -> Z.
Hypothesis localeCompare_anti :
  forall a b, (0 <= localeCompare a b)%Z -> (localeCompare b a <= 0)%Z.
Hypothesis localeCompare_trans :
  forall a b c, (localeCompare a b <= 0)%Z -> (localeCompare b c <= 0)%Z ->
                (localeCompare a c <= 0)%Z.






End SortingFacts.

Section CodeUnitOrder.
Import CompletionApi.

Lemma ascii_compare_trans_le (a b c : ascii) :
  Ascii.compare a b <> Gt -> Ascii.compare b c <> Gt ->
  Ascii.compare a c <> Gt.
Proof.
  unfold Ascii.compare. rewrite !N.compare_gt_iff. lia.
Qed.




End CodeUnitOrder.

Section SessionFacts.
Import JsString CommandLine Vfs Completion CompletionApi.

Variable localeCompare : string -> string -> Z.
Variable searchTyping : KeyEvent -> KeyState -> KeyResult * KeyState.
Variable searchBackspace : KeyEvent -> KeyState -> KeyResult * KeyState.

Let handler := keyHandler localeCompare searchTyping searchBackspace.





Lemma nextIndex_mod (index delta : Z) (len : nat) :
  (0 <= index < Z.of_nat len)%Z -> (delta = 1 \/ delta = -1)%Z ->
  nextIndex index delta len = ((index + delta) mod Z.of_nat len)%Z.
Proof.
  intros Hi Hd. unfold nextIndex.
  rewrite Z.rem_mod_nonneg by lia.
  rewrite <- (Z_mod_plus_full (index + delta) 1 (Z.of_nat len)).
  f_equal. lia.
Qed.

Hypothesis localeCompare_anti :
  forall a b, (0 <= localeCompare a b)%Z -> (localeCompare b a <= 0)%Z.
Hypothesis localeCompare_trans :
  forall a b c, (localeCompare a b <= 0)%Z -> (localeCompare b c <= 0)%Z ->
                (localeCompare a c <= 0)%Z.


End SessionFacts.



(* ------------------------------------------------------------------ *)
(** ** Virtual filesystem: where the tree invariant is preserved *)
(* ------------------------------------------------------------------ *)

Section InvariantKept.
Import JsString PathUtils Vfs VfsApi VfsInvariant.

Lemma map_updateFirst_same {A B} (f : A -> B) (p : A -> bool) (g : A -> A)
    (l : list A) :
  (forall x, f (g x) = f x) -> map f (updateFirst p g l) = map f l.
Proof.
  intros H. induction l as [|x l IH]; simpl; [reflexivity|].
  destruct (p x); simpl; congruence.
Qed.

Lemma forallb_updateFirst {A} (q p : A -> bool) (g : A -> A) (l : list A) :
  (forall x, q x = true -> q (g x) = true) ->
  forallb q l = true -> forallb q (updateFirst p g l) = true.
Proof.
  intros H. induction l as [|x l IH]; simpl; [reflexivity|].
  intros Hq. apply andb_true_iff in Hq as [Hx Hl].
  destruct (p x); simpl; rewrite ?Hx, ?Hl, ?IH, ?H; auto.
Qed.

Lemma map_removeAt {A B} (f : A -> B) (i : nat) (l : list A) :
  map f (removeAt i l) = removeAt i (map f l).
Proof.
  revert i. induction l as [|x l IH]; intros [|i]; simpl; congruence.
Qed.

Lemma forallb_removeAt {A} (q : A -> bool) (i : nat) (l : list A) :
  forallb q l = true -> forallb q (removeAt i l) = true.
Proof.
  revert i. induction l as [|x l IH]; intros [|i]; simpl; auto.
  - intros H. apply andb_true_iff in H. tauto.
  - intros H. apply andb_true_iff in H as [Hx Hl]. now rewrite Hx, IH.
Qed.

Lemma existsb_removeAt {A} (q : A -> bool) (i : nat) (l : list A) :
  existsb q l = false -> existsb q (removeAt i l) = false.
Proof.
  revert i. induction l as [|x l IH]; intros [|i]; simpl; auto.
  - intros H. apply orb_false_iff in H. tauto.
  - intros H. apply orb_false_iff in H as [Hx Hl]. now rewrite Hx, IH.
Qed.

Lemma uniqueNames_removeAt (i : nat) (l : list string) :
  uniqueNames l = true -> uniqueNames (removeAt i l) = true.
Proof.
  revert i. induction l as [|x l IH]; intros [|i]; simpl; auto.
  - intros H. apply andb_true_iff in H. tauto.
  - intros H. apply andb_true_iff in H as [Hx Hl].
    apply negb_true_iff in Hx.
    now rewrite (existsb_removeAt _ _ _ Hx), IH.
Qed.

Lemma uniqueFileNames_removeAt (i : nat) (l : list (option string)) :
  uniqueFileNames l = true -> uniqueFileNames (removeAt i l) = true.
Proof.
  revert i. induction l as [|x l IH]; intros [|i]; simpl; auto.
  - intros H. apply andb_true_iff in H. tauto.
  - intros H. apply andb_true_iff in H as [Hx Hl].
    apply negb_true_iff in Hx.
    now rewrite (existsb_removeAt _ _ _ Hx), IH.
Qed.

Lemma uniqueNames_app_new (l : list string) (n : string) :
  uniqueNames l = true -> existsb (String.eqb n) l = false ->
  uniqueNames (l ++ [n]) = true.
Proof.
  induction l as [|x l IH]; simpl; intros Hu Hn; [reflexivity|].
  apply andb_true_iff in Hu as [Hx Hl].
  apply orb_false_iff in Hn as [Hnx Hnl].
  rewrite existsb_app, IH by assumption. simpl.
  apply negb_true_iff in Hx. rewrite Hx, String.eqb_sym, Hnx. reflexivity.
Qed.

Lemma uniqueFileNames_app_new (l : list (option string)) (n : option string) :
  uniqueFileNames l = true -> existsb (nameEq n) l = false ->
  uniqueFileNames (l ++ [n]) = true.
Proof.
  induction l as [|x l IH]; simpl; intros Hu Hn; [reflexivity|].
  apply andb_true_iff in Hu as [Hx Hl].
  apply orb_false_iff in Hn as [Hnx Hnl].
  rewrite existsb_app, IH by assumption. simpl.
  apply negb_true_iff in Hx.
  assert (E : nameEq x n = nameEq n x)
    by (destruct x, n; simpl; try reflexivity; apply String.eqb_sym).
  rewrite Hx, E, Hnx. reflexivity.
Qed.

Lemma treeOk_unfold (d : VfsFolder) :
  treeOk d = childrenOk (folders d) (files d) && forallb treeOk (folders d).
Proof. destruct d; reflexivity. Qed.

(** An in-place update keeps the invariant when the update of the folder
    object does. *)
Lemma treeOk_updateFolderAt (g : VfsFolder -> VfsFolder) :
  keepsName g ->
  (forall d, treeOk d = true -> treeOk (g d) = true) ->
  forall parts r, treeOk r = true -> treeOk (updateFolderAt parts g r) = true.
Proof.
  intros Hk Hg. induction parts as [|part rest IH]; simpl; intros r Hr;
    [now apply Hg|].
  rewrite treeOk_unfold in Hr. apply andb_true_iff in Hr as [Hc Hf].
  simpl. apply andb_true_iff. split.
  - unfold childrenOk in *.
    rewrite (map_updateFirst_same folderName); [exact Hc|].
    now apply updateFolderAt_keepsName.
  - apply forallb_updateFirst; assumption.
Qed.

Lemma forallb_updateFirst_at {A} (q p : A -> bool) (g : A -> A)
    (l : list A) (x : A) :
  find p l = Some x -> q (g x) = true ->
  forallb q l = true -> forallb q (updateFirst p g l) = true.
Proof.
  induction l as [|y l IH]; simpl; [discriminate|].
  destruct (p y); intros F Hg Hq; apply andb_true_iff in Hq as [Hy Hl].
  - injection F as ->. simpl. now rewrite Hg, Hl.
  - simpl. now rewrite Hy, IH.
Qed.

Lemma treeOk_resolved : forall parts r d,
  treeOk r = true -> resolveFolderFrom r parts = Some d -> treeOk d = true.
Proof.
  induction parts as [|part rest IH]; simpl; intros r d Hr R.
  - congruence.
  - destruct (find (folderNamed part) (folders r)) as [next|] eqn:F;
      [|discriminate].
    apply (IH next d); [|exact R].
    rewrite treeOk_unfold in Hr. apply andb_true_iff in Hr as [_ Hf].
    rewrite forallb_forall in Hf. apply Hf.
    apply find_some in F. tauto.
Qed.

(** An in-place update keeps the invariant when the updated folder object
    satisfies it. *)
Lemma treeOk_updateFolderAt_at (g : VfsFolder -> VfsFolder) :
  keepsName g ->
  forall parts r d,
    resolveFolderFrom r parts = Some d ->
    treeOk (g d) = true ->
    treeOk r = true -> treeOk (updateFolderAt parts g r) = true.
Proof.
  intros Hk. induction parts as [|part rest IH]; simpl; intros r d R Hg Hr.
  - congruence.
  - destruct (find (folderNamed part) (folders r)) as [next|] eqn:F;
      [|discriminate].
    rewrite treeOk_unfold in Hr. apply andb_true_iff in Hr as [Hc Hf].
    simpl. apply andb_true_iff. split.
    + unfold childrenOk in *.
      rewrite (map_updateFirst_same folderName); [exact Hc|].
      now apply updateFolderAt_keepsName.
    + apply (forallb_updateFirst_at _ _ _ _ next F); [|exact Hf].
      apply (IH next d R Hg).
      rewrite forallb_forall in Hf. apply Hf.
      apply find_some in F. tauto.
Qed.

Lemma existsb_folderNamed (name : string) (fs : list VfsFolder) :
  existsb (String.eqb name) (map folderName fs)
  = existsb (folderNamed name) fs.
Proof.
  induction fs as [|d fs IH]; simpl; [reflexivity|].
  unfold folderNamed at 1. now rewrite IH, String.eqb_sym.
Qed.

Lemma existsb_fileNamed (name : option string) (fl : list VfsFile) :
  existsb (nameEq name) (map fileName fl) = existsb (fileNamed name) fl.
Proof.
  induction fl as [|f fl IH]; simpl; [reflexivity|].
  unfold fileNamed at 1. rewrite IH. f_equal.
  destruct name, (fileName f); simpl; try reflexivity. apply String.eqb_sym.
Qed.

Lemma forallb_fileNameOk (fl : list VfsFile) :
  forallb fileNameOk fl
  = forallb (fun o => match o with Some n => nameOk n | None => false end)
      (map fileName fl).
Proof. induction fl as [|f fl IH]; simpl; [reflexivity|]. now rewrite IH. Qed.

Lemma pushFolder_treeOk (name : string) (d : VfsFolder) :
  nameOk name = true ->
  existsb (folderNamed name) (folders d) = false ->
  treeOk d = true -> treeOk (pushFolder name d) = true.
Proof.
  intros Hn He Hd. rewrite treeOk_unfold in Hd.
  apply andb_true_iff in Hd as [Hc Hf].
  unfold pushFolder. simpl. unfold childrenOk in *.
  apply andb_true_iff in Hc as [Hc H4]. apply andb_true_iff in Hc as [Hc H3].
  apply andb_true_iff in Hc as [H1 H2].
  rewrite map_app, !forallb_app, H1, H3, H4, Hf. simpl.
  rewrite Hn, uniqueNames_app_new; [reflexivity|exact H2|].
  now rewrite existsb_folderNamed.
Qed.

Lemma dropFolder_treeOk (idx : nat) (d : VfsFolder) :
  treeOk d = true -> treeOk (dropFolder idx d) = true.
Proof.
  intros Hd. rewrite treeOk_unfold in Hd.
  apply andb_true_iff in Hd as [Hc Hf].
  unfold dropFolder. simpl. unfold childrenOk in *.
  apply andb_true_iff in Hc as [Hc H4]. apply andb_true_iff in Hc as [Hc H3].
  apply andb_true_iff in Hc as [H1 H2].
  rewrite map_removeAt, !forallb_removeAt, uniqueNames_removeAt, H3, H4;
    auto.
Qed.

Lemma dropFile_treeOk (idx : nat) (d : VfsFolder) :
  treeOk d = true -> treeOk (dropFile idx d) = true.
Proof.
  intros Hd. rewrite treeOk_unfold in Hd.
  apply andb_true_iff in Hd as [Hc Hf].
  unfold dropFile. simpl. unfold childrenOk in *.
  apply andb_true_iff in Hc as [Hc H4]. apply andb_true_iff in Hc as [Hc H3].
  apply andb_true_iff in Hc as [H1 H2].
  rewrite map_removeAt, forallb_removeAt, uniqueFileNames_removeAt, H1, H2, Hf;
    auto.
Qed.

Lemma putFile_treeOk (n content : string) (d : VfsFolder) :
  nameOk n = true ->
  treeOk d = true -> treeOk (putFile (Some n) content d) = true.
Proof.
  intros Hn Hd. rewrite treeOk_unfold in Hd.
  apply andb_true_iff in Hd as [Hc Hf].
  unfold putFile. simpl. unfold childrenOk in *.
  apply andb_true_iff in Hc as [Hc H4]. apply andb_true_iff in Hc as [Hc H3].
  apply andb_true_iff in Hc as [H1 H2].
  rewrite H1, H2, Hf. simpl. rewrite andb_true_r.
  rewrite forallb_fileNameOk in *.
  destruct (find (fileNamed (Some n)) (files d)) eqn:F.
  - rewrite (map_updateFirst_same fileName) by reflexivity.
    now rewrite H3, H4.
  - rewrite map_app, forallb_app, H3. simpl. rewrite Hn. simpl.
    apply uniqueFileNames_app_new; [exact H4|].
    rewrite existsb_fileNamed. now apply find_none_existsb.
Qed.

Lemma fold_normalizeStep_nameOk (raw : list string) :
  Forall (fun p => (negb (p =? "") && negb (p =? ".")
                    && negb (includes "/" p)) = true) raw ->
  forall acc, forallb nameOk acc = true ->
  forallb nameOk (fold_left normalizeStep raw acc) = true.
Proof.
  induction 1 as [|p raw Hp _ IH]; intros acc Hacc; simpl; [assumption|].
  apply IH. unfold normalizeStep.
  destruct (p =? "..").
  - destruct (0 <? List.length acc)%nat; [|assumption].
    rewrite forallb_forall in *. intros x Hx. apply Hacc.
    clear -Hx. induction acc as [|a acc IHa]; [contradiction|].
    simpl in Hx. destruct acc; [contradiction|].
    destruct Hx as [<-|Hx]; [now left|right; now apply IHa].
  - rewrite forallb_app, Hacc. simpl. unfold nameOk.
    apply andb_true_iff in Hp as [Hp Hs].
    apply andb_true_iff in Hp as [Hp _]. now rewrite Hp, Hs.
Qed.

Lemma normalizePathParts_nameOk (cwd : list string) (path : string) :
  forallb nameOk cwd = true ->
  forallb nameOk (normalizePathParts cwd path) = true.
Proof.
  intros Hc. unfold normalizePathParts.
  destruct ((path =? "") || (path =? ".")); [assumption|].
  apply fold_normalizeStep_nameOk; [apply rawPartsOf_pieces|].
  destruct (startsWith path "/"); [reflexivity|assumption].
Qed.

Lemma last_nameOk (parts : list string) :
  forallb nameOk parts = true -> parts <> [] ->
  exists n, last (map Some parts) None = Some n /\ nameOk n = true.
Proof.
  induction parts as [|a parts IH]; intros H Hne; [congruence|].
  simpl in H. apply andb_true_iff in H as [Ha Hp].
  destruct parts as [|b parts]; [exists a; auto|].
  apply IH; [assumption|discriminate].
Qed.

Lemma changeDirectory_run path s :
  changeDirectory path s =
  match resolveFolderFrom (root (state s))
          (normalizePathParts (cwdParts (state s)) path) with
  | None => (Throw (CdNoSuchDir path), s)
  | Some _ =>
      let st' := mkState (root (state s))
                   (normalizePathParts (cwdParts (state s)) path) in
      (Ok tt, mkStore st' (Some st') (S (saveCount s)))
  end.
Proof.
  destruct s as [[r cwd] ps k].
  unfold changeDirectory, normalizePath, resolveFolder, bind, ret, throw,
    getState, setState, save. cbn [state root cwdParts persisted saveCount].
  destruct (resolveFolderFrom r _); reflexivity.
Qed.

Lemma unlink_run path s :
  let pr := pop (normalizePathParts (cwdParts (state s)) path) in
  unlink path s =
  match resolveFolderFrom (root (state s)) (fst pr) with
  | None => (Throw (NoSuchFile path), s)
  | Some d =>
      match findIndex (fileNamed (snd pr)) (files d) with
      | None => (Throw (NoSuchFile path), s)
      | Some idx =>
          let st' := mkState (updateFolderAt (fst pr) (dropFile idx)
                                (root (state s)))
                       (cwdParts (state s)) in
          (Ok tt, mkStore st' (Some st') (S (saveCount s)))
      end
  end.
Proof.
  cbv zeta.
  unfold unlink, normalizePath, resolveFolder, mutateFolder, bind, ret,
    throw, getState, setState, save.
  destruct (pop (normalizePathParts (cwdParts (state s)) path))
    as [parts name].
  destruct s as [[r cwd] ps k].
  cbn [state root cwdParts persisted saveCount fst snd].
  destruct (resolveFolderFrom r parts) as [d|]; [|reflexivity].
  destruct (findIndex _ _); reflexivity.
Qed.

Lemma runOp_store (o : StoreOp) (s : Store) :
  snd (runOp o s)
  = match o with
    | OpChangeDirectory path => snd (changeDirectory path s)
    | OpMkdir name => snd (mkdir name s)
    | OpRmdir name => snd (rmdir name s)
    | OpWriteFile path content => snd (writeFile path content s)
    | OpReadFile path => snd (readFile path s)
    | OpUnlink path => snd (unlink path s)
    end.
Proof.
  destruct o; unfold runOp, bind, ret;
    match goal with |- context [?c s] => destruct (c s) as [[a|e] s'] end;
    reflexivity.
Qed.

(** Every store call keeps the tree invariant and the cwd segments
    well-formed, provided it names its target: the one exception is a
    [writeFile] whose path resolves to the empty segment list. *)
Theorem store_ops_keep_invariant (o : StoreOp) (s : Store) :
  stateOk (state s) = true ->
  namesTarget (state s) o = true ->
  stateOk (state (snd (runOp o s))) = true.
Proof.
  intros Hs Hsafe. rewrite runOp_store.
  unfold stateOk in *. apply andb_true_iff in Hs as [Ht Hc].
  destruct o as [path|name|name|path content|path|path].
  - rewrite changeDirectory_run. cbv zeta.
    destruct (resolveFolderFrom _ _); cbn [snd state root cwdParts].
    + now rewrite Ht, normalizePathParts_nameOk.
    + now rewrite Ht, Hc.
  - rewrite mkdir_run.
    destruct ((name =? "") || hasSeparator name) eqn:V;
      [cbn [snd]; now rewrite Ht, Hc|].
    destruct (resolveFolderFrom _ _) as [c|] eqn:R;
      [|cbn [snd]; now rewrite Ht, Hc].
    destruct (existsb _ _ || existsb _ _) eqn:E;
      [cbn [snd]; now rewrite Ht, Hc|].
    cbv zeta. cbn [snd state root cwdParts]. rewrite Hc, andb_true_r.
    apply orb_false_iff in V as [V1 V2]. apply orb_false_iff in E as [E1 _].
    apply (treeOk_updateFolderAt_at _ (pushFolder_keepsName name) _ _ c R);
      [|exact Ht].
    apply pushFolder_treeOk; [|exact E1|exact (treeOk_resolved _ _ _ Ht R)].
    unfold nameOk. rewrite V1. unfold hasSeparator in V2.
    apply orb_false_iff in V2 as [_ V2]. now rewrite V2.
  - rewrite rmdir_run.
    destruct (resolveFolderFrom _ _) as [c|] eqn:R;
      [|cbn [snd]; now rewrite Ht, Hc].
    destruct (findIndex _ _) as [idx|]; [|cbn [snd]; now rewrite Ht, Hc].
    destruct (nth_error _ _) as [folder|]; [|cbn [snd]; now rewrite Ht, Hc].
    destruct (negb _ || negb _); [cbn [snd]; now rewrite Ht, Hc|].
    cbv zeta. cbn [snd state root cwdParts]. rewrite Hc, andb_true_r.
    apply (treeOk_updateFolderAt_at (dropFolder idx)
             (fun d => eq_refl) _ _ c R); [|exact Ht].
    apply dropFolder_treeOk. exact (treeOk_resolved _ _ _ Ht R).
  - rewrite writeFile_run. cbv zeta.
    remember (normalizePathParts (cwdParts (state s)) path) as parts eqn:Ep.
    unfold pop. cbn [fst snd].
    destruct (resolveFolderFrom _ _) as [d|] eqn:R;
      [|cbn [snd]; now rewrite Ht, Hc].
    cbn [snd state root cwdParts]. rewrite Hc, andb_true_r.
    cbn [namesTarget] in Hsafe. rewrite <- Ep in Hsafe.
    destruct (last_nameOk parts) as [n [Hl Hn]].
    { rewrite Ep. now apply normalizePathParts_nameOk. }
    { destruct parts; [discriminate|discriminate]. }
    rewrite Hl.
    apply (treeOk_updateFolderAt_at _ (putFile_keepsName (Some n) content)
             _ _ d R); [|exact Ht].
    apply putFile_treeOk; [exact Hn|exact (treeOk_resolved _ _ _ Ht R)].
  - rewrite readFile_keeps_store. now rewrite Ht, Hc.
  - rewrite unlink_run. cbv zeta.
    destruct (resolveFolderFrom _ _) as [d|] eqn:R;
      [|cbn [snd]; now rewrite Ht, Hc].
    destruct (findIndex _ _) as [idx|]; [|cbn [snd]; now rewrite Ht, Hc].
    cbn [snd state root cwdParts]. rewrite Hc, andb_true_r.
    apply (treeOk_updateFolderAt_at (dropFile idx)
             (fun d => eq_refl) _ _ d R); [|exact Ht].
    apply dropFile_treeOk. exact (treeOk_resolved _ _ _ Ht R).
Qed.

(** X1. The states reached from the default empty-root state by calls that
    all name their target satisfy the invariant. *)
Theorem reachable_states_keep_invariant (ops : list StoreOp) :
  allNameTarget ops emptyStore = true ->
  stateOk (state (runOps ops emptyStore)) = true.
Proof.
  assert (G : forall s, stateOk (state s) = true ->
            allNameTarget ops s = true ->
            stateOk (state (runOps ops s)) = true).
  { induction ops as [|o ops IH]; simpl; intros s Hs Ha; [exact Hs|].
    apply andb_true_iff in Ha as [Ho Ha].
    apply IH; [now apply store_ops_keep_invariant|exact Ha]. }
  apply G. reflexivity.
Qed.

End InvariantKept.

(* ------------------------------------------------------------------ *)
(** ** The embedding on the examples of the specification *)
(* ------------------------------------------------------------------ *)

Section SpecExamples.
Import JsString PathUtils CommandLine Vfs Holder.

Example tokenize_quoted_argument :
  map value
    (resTokens (tokenizeCommandLine
                  ("touch " ++ String dquote ("My Folder/a.txt"
                                              ++ String dquote ""))))
  = ["touch"; "My Folder/a.txt"].
Proof. reflexivity. Qed.

Example tokenize_escaped_space :
  map value (resTokens (tokenizeCommandLine "echo a\ b")) = ["echo"; "a b"].
Proof. reflexivity. Qed.

Example tokenize_trailing_backslash :
  map value (resTokens (tokenizeCommandLine "echo a\")) = ["echo"; "a\"].
Proof. reflexivity. Qed.

Example quote_folder_with_space :
  quoteArgIfNeeded "My Folder/" dquote
  = String dquote ("My Folder/" ++ String dquote "").
Proof. reflexivity. Qed.

Example resolve_parent_at_root :
  normalizePathParts [] ".." = [] /\ normalizePathParts [] "/../.." = [].
Proof. split; reflexivity. Qed.

Example resolve_relative :
  normalizePathParts ["home"; "user"] "../docs/./a.txt"
  = ["home"; "docs"; "a.txt"].
Proof. reflexivity. Qed.

Example alias_ll :
  expandAliases (mkEnv [JString "/bin"] [("ll", JString "ls -la")])
    "ll" ["/tmp"]
  = ("ls", ["-la"; "/tmp"]).
Proof. reflexivity. Qed.

Example display_of_root : toDisplayPath [] = "/".
Proof. reflexivity. Qed.

End SpecExamples.

(* ================================================================== *)
(** * Further properties of the code *)
(* ================================================================== *)

(* ------------------------------------------------------------------ *)
(** ** Virtual filesystem: write-through, lookups after an update *)
(* ------------------------------------------------------------------ *)

Section StoreMore.
Import JsString PathUtils Vfs VfsApi VfsInvariant MoreStatements.

Lemma runOp_thrown (o : StoreOp) (s s' : Store) (e : VfsError) :
  runOp o s = (Throw e, s') -> s' = s.
Proof.
  destruct o as [path|name|name|path content|path|path];
    unfold runOp, bind, ret.
  - rewrite changeDirectory_run.
    destruct (resolveFolderFrom _ _); cbv zeta; intros H;
      [discriminate|now injection H].
  - rewrite mkdir_run.
    destruct ((name =? "") || hasSeparator name);
      [intros H; now injection H|].
    destruct (resolveFolderFrom _ _); [|intros H; now injection H].
    destruct (existsb _ _ || existsb _ _); cbv zeta; intros H;
      [now injection H|discriminate].
  - rewrite rmdir_run.
    destruct (resolveFolderFrom _ _); [|intros H; now injection H].
    destruct (findIndex _ _); [|intros H; now injection H].
    destruct (nth_error _ _); [|intros H; now injection H].
    destruct (negb _ || negb _); cbv zeta; intros H;
      [now injection H|discriminate].
  - rewrite writeFile_run. cbv zeta.
    destruct (resolveFolderFrom _ _); intros H;
      [discriminate|now injection H].
  - pose proof (readFile_keeps_store path s) as K.
    destruct (readFile path s) as [[c|e0] s0]; cbn [snd] in K; subst s0;
      intros H; [discriminate|now injection H].
  - rewrite unlink_run. cbv zeta.
    destruct (resolveFolderFrom _ _); [|intros H; now injection H].
    destruct (findIndex _ _); intros H; [discriminate|now injection H].
Qed.

Lemma runOp_write_through (o : StoreOp) (s : Store) :
  (forall v s', runOp o s = (Ok v, s') ->
     if readsOnly o then s' = s
     else persisted s' = Some (state s') /\ saveCount s' = S (saveCount s))
  /\ (persisted s = Some (state s) ->
      persisted (snd (runOp o s)) = Some (state (snd (runOp o s)))).
Proof.
  assert (A : forall v s', runOp o s = (Ok v, s') ->
     if readsOnly o then s' = s
     else persisted s' = Some (state s') /\ saveCount s' = S (saveCount s)).
  { intros v s'. pose proof (runOp_store o s) as E.
    destruct o as [path|name|name|path content|path|path]; intros H;
      rewrite H in E; cbn [snd readsOnly] in *; subst s'.
    - revert H. unfold runOp, bind, ret. rewrite changeDirectory_run.
      destruct (resolveFolderFrom _ _); [|discriminate]. intros _.
      split; reflexivity.
    - revert H. unfold runOp, bind, ret. rewrite mkdir_run.
      destruct ((name =? "") || hasSeparator name); [discriminate|].
      destruct (resolveFolderFrom _ _); [|discriminate].
      destruct (existsb _ _ || existsb _ _); [discriminate|]. intros _.
      split; reflexivity.
    - revert H. unfold runOp, bind, ret. rewrite rmdir_run.
      destruct (resolveFolderFrom _ _); [|discriminate].
      destruct (findIndex _ _); [|discriminate].
      destruct (nth_error _ _); [|discriminate].
      destruct (negb _ || negb _); [discriminate|]. intros _.
      split; reflexivity.
    - revert H. unfold runOp, bind, ret. rewrite writeFile_run. cbv zeta.
      destruct (resolveFolderFrom _ _); [|discriminate]. intros _.
      split; reflexivity.
    - apply readFile_keeps_store.
    - revert H. unfold runOp, bind, ret. rewrite unlink_run. cbv zeta.
      destruct (resolveFolderFrom _ _); [|discriminate].
      destruct (findIndex _ _); [|discriminate]. intros _.
      split; reflexivity. }
  split; [exact A|].
  intros Hsync. destruct (runOp o s) as [[v|e] s'] eqn:R; cbn [snd].
  - specialize (A v s' eq_refl). destruct (readsOnly o).
    + now subst s'.
    + tauto.
  - apply runOp_thrown in R. now subst s'.
Qed.

Lemma find_updateFirst_other {A} (p q : A -> bool) (g : A -> A) (l : list A) :
  (forall x, p x = true -> q x = false /\ q (g x) = false) ->
  find q (updateFirst p g l) = find q l.
Proof.
  intros H. induction l as [|x l IH]; simpl; [reflexivity|].
  destruct (p x) eqn:P; simpl.
  - destruct (H x P) as [-> ->]. reflexivity.
  - now rewrite IH.
Qed.

Lemma folderNamed_distinct (a p : string) (x : VfsFolder) :
  a <> p -> folderNamed p x = true -> folderNamed a x = false.
Proof.
  unfold folderNamed. intros Hne Hp. apply String.eqb_eq in Hp.
  apply String.eqb_neq. congruence.
Qed.

(** Looking a path up after an in-place update that touches neither the
    name nor the folder list of the updated folder: the path resolves
    exactly when it did, to a folder with the same name; the folder is the
    updated one when the path is the updated path, and has its old files
    otherwise. *)
Lemma resolve_after_update (g : VfsFolder -> VfsFolder) :
  keepsName g -> (forall d, folders (g d) = folders d) ->
  forall q parts r,
    match resolveFolderFrom r q with
    | None => resolveFolderFrom (updateFolderAt parts g r) q = None
    | Some d =>
        exists d',
          resolveFolderFrom (updateFolderAt parts g r) q = Some d'
          /\ folderName d' = folderName d
          /\ (q = parts -> d' = g d)
          /\ (q <> parts -> files d' = files d)
    end.
Proof.
  intros Hk Hf. induction q as [|a q IH]; intros parts r.
  - cbn [resolveFolderFrom]. exists (updateFolderAt parts g r).
    split; [reflexivity|]. split; [now apply updateFolderAt_keepsName|].
    split.
    + intros <-. reflexivity.
    + destruct parts; [congruence|]. intros _. reflexivity.
  - cbn [resolveFolderFrom]. destruct parts as [|p rest].
    + cbn [updateFolderAt]. rewrite Hf.
      destruct (find (folderNamed a) (folders r)) as [next|]; [|reflexivity].
      destruct (resolveFolderFrom next q) as [d|]; [|reflexivity].
      exists d. split; [reflexivity|]. split; [reflexivity|].
      split; [discriminate|reflexivity].
    + cbn [updateFolderAt folders].
      destruct (String.eqb a p) eqn:E.
      * apply String.eqb_eq in E. subst p.
        destruct (find (folderNamed a) (folders r)) as [next|] eqn:F.
        -- rewrite (find_updateFirst _ _ _ _ F).
           ++ specialize (IH rest next).
              destruct (resolveFolderFrom next q) as [d|]; [|exact IH].
              destruct IH as [d' [R [N [He Hn]]]].
              exists d'. split; [exact R|]. split; [exact N|]. split.
              ** intros [= ->]. now apply He.
              ** intros Hne. apply Hn. congruence.
           ++ rewrite keepsName_folderNamed
                by now apply updateFolderAt_keepsName.
              apply find_some in F. tauto.
        -- rewrite updateFirst_none by exact F. rewrite F. reflexivity.
      * apply String.eqb_neq in E.
        rewrite find_updateFirst_other.
        -- destruct (find (folderNamed a) (folders r)) as [next|];
             [|reflexivity].
           destruct (resolveFolderFrom next q) as [d|]; [|reflexivity].
           exists d. split; [reflexivity|]. split; [reflexivity|].
           split; [congruence|reflexivity].
        -- intros x Hx. split.
           ++ now apply (folderNamed_distinct a p).
           ++ apply (folderNamed_distinct a p); [exact E|].
              rewrite keepsName_folderNamed
                by now apply updateFolderAt_keepsName.
              exact Hx.
Qed.

End StoreMore.

Section CwdResolves.
Import JsString PathUtils Vfs VfsApi VfsInvariant MoreStatements.

Lemma dropFolder_keepsName idx : keepsName (dropFolder idx).
Proof. intros d. reflexivity. Qed.

Lemma dropFile_keepsName idx : keepsName (dropFile idx).
Proof. intros d. reflexivity. Qed.

Lemma findIndex_some_find {A} (p : A -> bool) (l : list A) (i : nat) :
  findIndex p l = Some i -> exists x, find p l = Some x.
Proof.
  revert i. induction l as [|y l IH]; simpl; intros i; [discriminate|].
  destruct (p y); [eauto|].
  destruct (findIndex p l) as [j|]; [|discriminate]. intros _. eauto.
Qed.

Lemma cwd_still_resolves (g : VfsFolder -> VfsFolder) parts r cwd :
  keepsName g -> (forall d, folders (g d) = folders d) ->
  resolveFolderFrom r cwd <> None ->
  resolveFolderFrom (updateFolderAt parts g r) cwd <> None.
Proof.
  intros Hk Hf H. pose proof (resolve_after_update g Hk Hf cwd parts r) as L.
  destruct (resolveFolderFrom r cwd); [|congruence].
  destruct L as [d' [-> _]]. discriminate.
Qed.

Lemma store_ops_keep_cwd (o : StoreOp) (s : Store) :
  cwdResolves (state s) = true ->
  cwdResolves (state (snd (runOp o s))) = true.
Proof.
  intros H. rewrite runOp_store. unfold cwdResolves in *.
  destruct o as [path|name|name|path content|path|path].
  - rewrite changeDirectory_run. cbv zeta.
    destruct (resolveFolderFrom _ (normalizePathParts _ _)) eqn:R;
      cbn [snd state root cwdParts]; [now rewrite R|exact H].
  - rewrite mkdir_run.
    destruct ((name =? "") || hasSeparator name); [exact H|].
    destruct (resolveFolderFrom _ _) as [c|] eqn:R; [|first [exact H|discriminate]].
    destruct (existsb _ _ || existsb _ _); [cbn [snd]; now rewrite R|].
    cbv zeta. cbn [snd state root cwdParts].
    now rewrite (resolve_updateFolderAt _ _ (pushFolder_keepsName name) _ _ R).
  - rewrite rmdir_run.
    destruct (resolveFolderFrom _ _) as [c|] eqn:R; [|first [exact H|discriminate]].
    destruct (findIndex _ _) as [idx|]; [|cbn [snd]; now rewrite R].
    destruct (nth_error _ _); [|cbn [snd]; now rewrite R].
    destruct (negb _ || negb _); [cbn [snd]; now rewrite R|].
    cbv zeta. cbn [snd state root cwdParts].
    now rewrite (resolve_updateFolderAt _ _ (dropFolder_keepsName idx) _ _ R).
  - rewrite writeFile_run. cbv zeta.
    destruct (resolveFolderFrom _ (fst _)); [|first [exact H|discriminate]].
    cbn [snd state root cwdParts].
    destruct (resolveFolderFrom
                (updateFolderAt _ _ (root (state s))) (cwdParts (state s)))
      eqn:R; [reflexivity|].
    exfalso. revert R. apply cwd_still_resolves.
    + apply putFile_keepsName.
    + reflexivity.
    + destruct (resolveFolderFrom (root (state s)) (cwdParts (state s)));
        [discriminate|discriminate].
  - now rewrite readFile_keeps_store.
  - rewrite unlink_run. cbv zeta.
    destruct (resolveFolderFrom _ (fst _)); [|first [exact H|discriminate]].
    destruct (findIndex _ _) as [idx|]; [|first [exact H|discriminate]].
    cbn [snd state root cwdParts].
    destruct (resolveFolderFrom
                (updateFolderAt _ _ (root (state s))) (cwdParts (state s)))
      eqn:R; [reflexivity|].
    exfalso. revert R. apply cwd_still_resolves.
    + apply dropFile_keepsName.
    + reflexivity.
    + destruct (resolveFolderFrom (root (state s)) (cwdParts (state s)));
        [discriminate|discriminate].
Qed.

Local Ltac thrown_kind :=
  let H := fresh in
  intros H; cbv beta iota zeta in H;
  first [discriminate H | injection H as <- _; discriminate].

Lemma no_type_error (o : StoreOp) (s s' : Store) (e : VfsError) :
  cwdResolves (state s) = true ->
  runOp o s = (Throw e, s') -> errorKind e <> TypeError.
Proof.
  unfold cwdResolves. intros H.
  destruct o as [path|name|name|path content|path|path];
    unfold runOp, bind, ret.
  - clear H. rewrite changeDirectory_run.
    destruct (resolveFolderFrom _ _); thrown_kind.
  - rewrite mkdir_run.
    destruct ((name =? "") || hasSeparator name);
      [thrown_kind|].
    destruct (resolveFolderFrom _ _); [|discriminate].
    destruct (existsb _ _ || existsb _ _); thrown_kind.
  - rewrite rmdir_run.
    destruct (resolveFolderFrom _ _) as [c|]; [|discriminate].
    destruct (findIndex _ _) as [idx|] eqn:I;
      [|thrown_kind].
    rewrite (findIndex_find _ _ _ I).
    destruct (findIndex_some_find _ _ _ I) as [x ->].
    destruct (negb _ || negb _); thrown_kind.
  - clear H. rewrite writeFile_run. cbv zeta.
    destruct (resolveFolderFrom _ _); thrown_kind.
  - clear H. rewrite readFile_run. cbv zeta.
    destruct (resolveFolderFrom _ _); [|thrown_kind].
    destruct (find _ _); thrown_kind.
  - clear H. rewrite unlink_run. cbv zeta.
    destruct (resolveFolderFrom _ _); [|thrown_kind].
    destruct (findIndex _ _); thrown_kind.
Qed.

(** X3. In every state reached from the default empty-root state by store
    calls, the cwd resolves to a folder; so no call made in such a state
    fails on a missing cwd folder object: every error is one of the
    errors the class throws itself. *)
Theorem reachable_cwd_resolves (ops : list StoreOp) :
  cwdResolves (state (runOps ops emptyStore)) = true
  /\ forall o e s',
       runOp o (runOps ops emptyStore) = (Throw e, s') ->
       errorKind e <> TypeError.
Proof.
  assert (G : forall s, cwdResolves (state s) = true ->
            cwdResolves (state (runOps ops s)) = true).
  { induction ops as [|o ops IH]; simpl; intros s Hs; [exact Hs|].
    apply IH. now apply store_ops_keep_cwd. }
  split; [now apply G|].
  intros o e s'. apply no_type_error. now apply G.
Qed.

End CwdResolves.

Section FileRoundTrips.
Import JsString PathUtils Vfs VfsApi VfsInvariant MoreStatements.
Local Arguments pop : simpl never.

Lemma pop_rebuild (l : list string) :
  l = (fst (pop l) ++ match snd (pop l) with
                      | Some x => [x]
                      | None => []
                      end)%list.
Proof.
  unfold pop. cbn [fst snd].
  induction l as [|a l IH]; [reflexivity|].
  destruct l as [|b l]; [reflexivity|].
  cbn [removelast map last] in *. cbn [app]. f_equal. exact IH.
Qed.

Lemma pop_injective (l1 l2 : list string) : pop l1 = pop l2 -> l1 = l2.
Proof.
  intros H. rewrite (pop_rebuild l1), (pop_rebuild l2). now rewrite H.
Qed.

Lemma nameEq_eq (a b : option string) : nameEq a b = true -> a = b.
Proof.
  destruct a, b; simpl; intros H; try discriminate; [|reflexivity].
  apply String.eqb_eq in H. now subst.
Qed.

Lemma putFile_find_other (n1 n2 : option string) (c : string) (d : VfsFolder) :
  n1 <> n2 ->
  find (fileNamed n2) (files (putFile n1 c d)) = find (fileNamed n2) (files d).
Proof.
  intros Hne. unfold putFile. cbn [files].
  assert (Hx : forall x, fileNamed n1 x = true -> fileNamed n2 x = false).
  { intros x H1. destruct (fileNamed n2 x) eqn:H2; [|reflexivity].
    apply nameEq_eq in H1, H2. congruence. }
  destruct (find (fileNamed n1) (files d)) eqn:F.
  - apply find_updateFirst_other. intros x H1. split; [now apply Hx|].
    apply (Hx (mkFile (fileName x) c)). exact H1.
  - assert (N : fileNamed n2 (mkFile n1 c) = false).
    { apply (Hx (mkFile n1 c)). apply nameEq_refl. }
    induction (files d) as [|y l IH]; simpl; [now rewrite N|].
    simpl in F. destruct (fileNamed n1 y); [discriminate|].
    destruct (fileNamed n2 y); [reflexivity|]. now apply IH.
Qed.

Lemma writeFile_other_path (p1 p2 content : string) (s s1 : Store) :
  partsOf (state s) p1 <> partsOf (state s) p2 ->
  writeFile p1 content s = (Ok tt, s1) ->
  fst (readFile p2 s1) = fst (readFile p2 s).
Proof.
  unfold partsOf. intros Hne. rewrite writeFile_run. cbv zeta.
  remember (pop (normalizePathParts (cwdParts (state s)) p1)) as pr1 eqn:E1.
  destruct (resolveFolderFrom (root (state s)) (fst pr1)) as [d1|] eqn:R1;
    [|discriminate].
  intros H. injection H as <-. rewrite !readFile_run. cbv zeta.
  cbn [state root cwdParts].
  remember (pop (normalizePathParts (cwdParts (state s)) p2)) as pr2 eqn:E2.
  pose proof (resolve_after_update (putFile (snd pr1) content)
                (putFile_keepsName _ _) (fun d => eq_refl)
                (fst pr2) (fst pr1) (root (state s))) as L.
  destruct (resolveFolderFrom (root (state s)) (fst pr2)) as [d2|] eqn:R2.
  - destruct L as [d' [-> [_ [Heq Hneq]]]].
    destruct (list_eq_dec string_dec (fst pr2) (fst pr1)) as [Hp|Hp].
    + rewrite (Heq Hp). rewrite putFile_find_other.
      * destruct (find _ _); reflexivity.
      * intros Hn. apply Hne. apply pop_injective.
        rewrite <- E1, <- E2. destruct pr1, pr2. cbn in *. congruence.
    + rewrite (Hneq Hp). destruct (find _ _); reflexivity.
  - rewrite L. reflexivity.
Qed.

(** X4. A write to one path, whether it returns or throws, does not change
    what a read of another path gives: the same content, or the same
    error. *)
Theorem writeFile_leaves_other_paths (p1 p2 content : string) (s : Store) :
  partsOf (state s) p1 <> partsOf (state s) p2 ->
  fst (readFile p2 (snd (writeFile p1 content s))) = fst (readFile p2 s).
Proof.
  intros Hne.
  destruct (writeFile p1 content s) as [[[]|e] s1] eqn:W; cbn [snd].
  - exact (writeFile_other_path _ _ _ _ _ Hne W).
  - revert W. rewrite writeFile_run. cbv zeta.
    destruct (resolveFolderFrom _ _); intros W; [discriminate|].
    injection W as _ <-. reflexivity.
Qed.

Lemma writeFile_leaves_other_paths_witness :
  fst (readFile "/b.txt"
         (snd (writeFile "/a.txt" "new"
                 (snd (writeFile "/b.txt" "old" emptyStore)))))
  = Ok "old".
Proof.
  rewrite (writeFile_leaves_other_paths "/a.txt" "/b.txt" "new"
             (snd (writeFile "/b.txt" "old" emptyStore))).
  - reflexivity.
  - vm_compute. discriminate.
Defined.

(** X5. Creating a file that did not exist and unlinking it again gives the
    tree back as it was. *)
Theorem writeFile_unlink_restores (path content : string) (s s1 : Store) :
  fst (readFile path s) = Throw (CatNoSuchFile path) ->
  writeFile path content s = (Ok tt, s1) ->
  exists s2,
    unlink path s1 = (Ok tt, s2)
    /\ root (state s2) = root (state s)
    /\ cwdParts (state s2) = cwdParts (state s).
Proof.
  rewrite readFile_run, writeFile_run. cbv zeta.
  remember (pop (normalizePathParts (cwdParts (state s)) path)) as pr eqn:E.
  destruct (resolveFolderFrom (root (state s)) (fst pr)) as [d|] eqn:R;
    [|discriminate].
  destruct (find (fileNamed (snd pr)) (files d)) eqn:F; [discriminate|].
  intros _ H. injection H as <-.
  rewrite unlink_run. cbv zeta. cbn [state root cwdParts]. rewrite <- E.
  rewrite (resolve_updateFolderAt _ _ (putFile_keepsName _ content) _ _ R).
  unfold putFile at 1. cbn [files]. rewrite F.
  assert (Hn : existsb (fileNamed (snd pr)) (files d) = false)
    by now apply find_none_existsb.
  rewrite (findIndex_app_new _ _ (mkFile (snd pr) content) Hn
             (nameEq_refl _)).
  eexists. split; [reflexivity|]. cbn [state root cwdParts].
  split; [|reflexivity].
  rewrite updateFolderAt_comp by apply putFile_keepsName.
  apply (updateFolderAt_fixed _ _ _ d R).
  unfold dropFile, putFile. cbn [folderName folders files]. rewrite F.
  rewrite removeAt_app_last. apply folder_eta.
Qed.

Lemma writeFile_unlink_restores_witness :
  exists s2,
    unlink "/a.txt" (snd (writeFile "/a.txt" "x" emptyStore)) = (Ok tt, s2)
    /\ root (state s2) = root (state emptyStore)
    /\ cwdParts (state s2) = cwdParts (state emptyStore).
Proof.
  apply (writeFile_unlink_restores "/a.txt" "x" emptyStore); reflexivity.
Defined.




End FileRoundTrips.

(* ------------------------------------------------------------------ *)
(** ** Path resolver: canonical results, joins *)
(* ------------------------------------------------------------------ *)

Section PathMore.
Import JsString PathUtils Holder Statements MoreCode MoreStatements.

Lemma append_empty_r (s : string) : s ++ "" = s.
Proof. induction s; simpl; congruence. Qed.

Lemma append_assoc (a b c : string) : (a ++ b) ++ c = a ++ (b ++ c).
Proof. induction a; simpl; congruence. Qed.

Lemma rev_acc_app (s acc : string) : rev_acc s acc = rev s ++ acc.
Proof.
  unfold rev. revert acc. induction s as [|c s IH]; intros acc; simpl;
    [reflexivity|].
  rewrite IH, (IH (String c EmptyString)).
  rewrite append_assoc. reflexivity.
Qed.

Lemma rev_app (a b : string) : rev (a ++ b) = rev b ++ rev a.
Proof.
  induction a as [|c a IH]; simpl.
  - now rewrite append_empty_r.
  - unfold rev at 1 3. simpl. rewrite !rev_acc_app, IH.
    now rewrite append_assoc.
Qed.

Lemma rev_involutive (s : string) : rev (rev s) = s.
Proof.
  induction s as [|c s IH]; [reflexivity|].
  unfold rev at 2. simpl. rewrite rev_acc_app, rev_app, IH. reflexivity.
Qed.

Lemma rev_slashes (k : nat) : rev (slashes k) = slashes k.
Proof.
  induction k as [|k IH]; [reflexivity|].
  unfold rev. simpl. rewrite rev_acc_app. fold (rev (slashes k)).
  rewrite IH. clear. induction k; simpl; congruence.
Qed.

Lemma stripLeadingSlashes_split (t : string) :
  exists k, t = slashes k ++ stripLeadingSlashes t.
Proof.
  induction t as [|c t [k IH]]; [exists 0; reflexivity|].
  simpl. destruct (Ascii.eqb c "/") eqn:E.
  - apply Ascii.eqb_eq in E. subst c. exists (S k). simpl. now f_equal.
  - exists 0. reflexivity.
Qed.

Lemma stripTrailingSlashes_split (s : string) :
  exists k, s = stripTrailingSlashes s ++ slashes k.
Proof.
  unfold stripTrailingSlashes.
  destruct (stripLeadingSlashes_split (rev s)) as [k E].
  exists k. rewrite <- (rev_involutive s) at 1. rewrite E at 1.
  now rewrite rev_app, rev_slashes.
Qed.

Lemma split_app (sep : ascii) (a b : string) :
  split sep (a ++ String sep b) = (split sep a ++ split sep b)%list.
Proof.
  induction a as [|c a IH]; simpl.
  - now rewrite Ascii.eqb_refl.
  - destruct (Ascii.eqb c sep); [now rewrite IH|].
    rewrite IH. pose proof (split_not_nil sep a) as N.
    destruct (split sep a); [congruence|reflexivity].
Qed.

Lemma rawPartsOf_app (a b : string) :
  rawPartsOf (a ++ "/" ++ b) = (rawPartsOf a ++ rawPartsOf b)%list.
Proof.
  unfold rawPartsOf.
  change (a ++ "/" ++ b) with (a ++ String "/" b).
  now rewrite split_app, filter_app.
Qed.

Lemma rawPartsOf_slashes (k : nat) : rawPartsOf (slashes k) = [].
Proof.
  unfold rawPartsOf. induction k as [|k IH]; [reflexivity|].
  simpl. exact IH.
Qed.

Lemma rawPartsOf_trailing (a : string) (k : nat) :
  rawPartsOf (a ++ slashes k) = rawPartsOf a.
Proof.
  destruct k as [|k]; [now rewrite append_empty_r|].
  change (a ++ slashes (S k)) with (a ++ "/" ++ slashes k).
  now rewrite rawPartsOf_app, rawPartsOf_slashes, app_nil_r.
Qed.

Lemma rawPartsOf_stripTrailing (s : string) :
  rawPartsOf (stripTrailingSlashes s) = rawPartsOf s.
Proof.
  destruct (stripTrailingSlashes_split s) as [k E].
  rewrite E at 2. now rewrite rawPartsOf_trailing.
Qed.

Lemma canonical_Forall (parts : list string) :
  canonical parts = true <-> Forall (fun s => segOk s = true) parts.
Proof.
  unfold canonical. rewrite forallb_forall, Forall_forall. tauto.
Qed.

Lemma rawPartsOf_canonical_cwd (base : string) :
  canonical (cwdPartsOf base) = true -> rawPartsOf base = cwdPartsOf base.
Proof.
  unfold canonical, cwdPartsOf, rawPartsOf.
  induction (split "/" base) as [|x l IH]; simpl; [reflexivity|].
  destruct (x =? "") eqn:E; simpl; [exact IH|].
  intros H. apply andb_true_iff in H as [Hx Hl].
  unfold segOk in Hx. destruct (x =? "."); simpl in *.
  - rewrite E in Hx. discriminate.
  - now rewrite IH.
Qed.

Lemma normalizePathParts_closed (cwd : list string) (p : string) :
  canonical cwd = true -> canonical (normalizePathParts cwd p) = true.
Proof.
  intros Hc.
  apply canonical_Forall. apply canonical_Forall in Hc.
  unfold normalizePathParts.
  destruct ((p =? "") || (p =? ".")); [exact Hc|].
  apply fold_normalizeStep_segOk; [apply rawPartsOf_pieces|].
  destruct (startsWith p "/"); [constructor|exact Hc].
Qed.

(** X7. Resolving any path against a canonical cwd gives canonical segments
    (none empty, none [.] or [..], none with a separator), at most as many
    as the cwd and the path bring. *)
Theorem normalizePathParts_canonical (cwd : list string) (p : string) :
  canonical cwd = true ->
  canonical (normalizePathParts cwd p) = true
  /\ List.length (normalizePathParts cwd p)
     <= List.length cwd + List.length (rawPartsOf p).
Proof.
  intros Hc. split.
  - now apply normalizePathParts_closed.
  - unfold normalizePathParts.
    destruct ((p =? "") || (p =? ".")); [lia|].
    assert (G : forall raw acc,
              List.length (fold_left normalizeStep raw acc)
              <= List.length acc + List.length raw).
    { induction raw as [|x raw IH]; intros acc; simpl; [lia|].
      specialize (IH (normalizeStep acc x)).
      assert (List.length (normalizeStep acc x) <= S (List.length acc)).
      { unfold normalizeStep. destruct (x =? "..").
        - destruct (0 <? List.length acc)%nat; [|lia].
          destruct acc; [simpl; lia|].
          rewrite removelast_firstn_len, length_firstn. simpl. lia.
        - rewrite length_app. simpl. lia. }
      lia. }
    destruct (startsWith p "/"); [specialize (G (rawPartsOf p) [])|
                                 specialize (G (rawPartsOf p) cwd)];
      simpl in *; lia.
Qed.

Lemma normalizePathParts_canonical_witness :
  canonical (normalizePathParts ["home"; "user"] "../x/./y") = true
  /\ List.length (normalizePathParts ["home"; "user"] "../x/./y")
     <= List.length ["home"; "user"] + List.length (rawPartsOf "../x/./y").
Proof.
  apply (normalizePathParts_canonical ["home"; "user"] "../x/./y").
  reflexivity.
Defined.

(** X8. A path whose segments are all [..] (besides [.] and empty ones) pops
    that many segments off the cwd and stops at the root: the result is the
    cwd cut to its first [length cwd - k] segments, the empty list when
    there are more [..] than cwd segments or when the path is absolute. *)
Theorem dotdot_stops_at_root (cwd : list string) (p : string) :
  forallb (fun x => x =? "..") (rawPartsOf p) = true ->
  p <> "" -> p <> "." ->
  normalizePathParts cwd p
  = if startsWith p "/" then []
    else firstn (List.length cwd - List.length (rawPartsOf p)) cwd.
Proof.
  intros Hall Hne Hdot. unfold normalizePathParts.
  apply String.eqb_neq in Hne, Hdot. rewrite Hne, Hdot. cbn [orb].
  assert (G : forall raw acc,
            forallb (fun x => x =? "..") raw = true ->
            fold_left normalizeStep raw acc
            = firstn (List.length acc - List.length raw) acc).
  { induction raw as [|x raw IH]; intros acc H;
      cbn [fold_left forallb List.length] in *.
    - now rewrite Nat.sub_0_r, firstn_all.
    - apply andb_true_iff in H as [Hx Hr]. rewrite (IH _ Hr).
      unfold normalizeStep. rewrite Hx.
      destruct acc as [|a acc]; [reflexivity|].
      cbn [List.length Nat.ltb Nat.leb].
      rewrite removelast_firstn_len. cbn [List.length Nat.pred].
      rewrite length_firstn, firstn_firstn. f_equal.
      cbn [List.length]. lia. }
  destruct (startsWith p "/").
  - rewrite (G _ [] Hall). apply firstn_nil.
  - now apply G.
Qed.

Lemma dotdot_stops_at_root_witness :
  normalizePathParts ["a"] "../../.." = [].
Proof.
  rewrite (dotdot_stops_at_root ["a"] "../../.."); [reflexivity| | |];
    [reflexivity|discriminate|discriminate].
Defined.

Lemma normalizePathFromCwd_parts (cwdPath path : string) :
  normalizePathFromCwd cwdPath path
  = toDisplayPath (normalizePathParts (cwdPartsOf cwdPath) path).
Proof.
  unfold normalizePathFromCwd, toDisplayPath, cwdPartsOf.
  destruct (cwdPath =? "") eqn:E1; [apply String.eqb_eq in E1; now subst|].
  destruct (cwdPath =? "/") eqn:E2; [apply String.eqb_eq in E2; now subst|].
  reflexivity.
Qed.

Lemma normalizePathParts_from_root (cwd : list string) (p : string) :
  startsWith p "/" = true ->
  normalizePathParts cwd p = normalizePathParts [] p.
Proof.
  intros H. unfold normalizePathParts. rewrite H.
  destruct ((p =? "") || (p =? ".")) eqn:E; [|reflexivity].
  destruct p as [|c p]; [discriminate|].
  simpl in H. apply andb_true_iff in H as [Hc _].
  apply Ascii.eqb_eq in Hc. subst c. discriminate.
Qed.

Lemma normalizePathParts_root_append (a b : string) :
  normalizePathParts [] (a ++ "/" ++ b)
  = fold_left normalizeStep (rawPartsOf (a ++ "/" ++ b)) [].
Proof.
  unfold normalizePathParts.
  assert (N1 : (a ++ "/" ++ b =? "") = false) by (now destruct a).
  assert (N2 : (a ++ "/" ++ b =? ".") = false).
  { destruct a as [|c a]; [reflexivity|]. simpl.
    destruct (Ascii.eqb c "."); [|reflexivity]. now destruct a. }
  rewrite N1, N2. cbn [orb]. now destruct (startsWith _ _).
Qed.

Lemma joinPath_parts (basePath segment : string) :
  canonical (cwdPartsOf basePath) = true ->
  joinPath basePath segment
  = toDisplayPath (normalizePathParts (cwdPartsOf basePath) segment).
Proof.
  intros Hc. unfold joinPath.
  destruct ((segment =? "") || (segment =? ".")) eqn:E.
  - rewrite normalizePathFromCwd_parts. f_equal.
    unfold normalizePathParts. rewrite E. reflexivity.
  - destruct (startsWith segment "/") eqn:A.
    + rewrite normalizePathFromCwd_parts. f_equal.
      now rewrite (normalizePathParts_from_root (cwdPartsOf basePath)).
    + rewrite normalizePathFromCwd_parts. f_equal.
      change (cwdPartsOf "/") with (@nil string).
      set (prefix := if negb (basePath =? "") && negb (basePath =? "/")
                     then stripTrailingSlashes basePath else "").
      assert (P : rawPartsOf prefix = cwdPartsOf basePath).
      { rewrite <- (rawPartsOf_canonical_cwd _ Hc). subst prefix.
        destruct (basePath =? "") eqn:E1;
          [apply String.eqb_eq in E1; now subst|].
        destruct (basePath =? "/") eqn:E2;
          [apply String.eqb_eq in E2; now subst|].
        apply rawPartsOf_stripTrailing. }
      rewrite normalizePathParts_root_append, rawPartsOf_app.
      rewrite fold_left_app, P.
      rewrite (fold_normalizeStep_plain (cwdPartsOf basePath))
        by (apply (proj1 (canonical_Forall _)); exact Hc).
      unfold normalizePathParts. rewrite E, A. reflexivity.
Qed.

(** X9. On a base path whose segments are canonical, [joinPath] is the
    resolver itself: joining a segment to the base gives the same string as
    resolving the segment with the base as cwd. *)
Theorem joinPath_is_resolution (basePath segment : string) :
  canonical (cwdPartsOf basePath) = true ->
  joinPath basePath segment = normalizePathFromCwd basePath segment.
Proof.
  intros Hc. rewrite (joinPath_parts _ _ Hc).
  symmetry. apply normalizePathFromCwd_parts.
Qed.

Lemma joinPath_is_resolution_witness :
  joinPath "/home//user/" "../x" = normalizePathFromCwd "/home//user/" "../x".
Proof.
  apply (joinPath_is_resolution "/home//user/" "../x"). reflexivity.
Defined.

Lemma cwdPartsOf_display (parts : list string) :
  canonical parts = true -> cwdPartsOf (toDisplayPath parts) = parts.
Proof.
  intros Hc. unfold cwdPartsOf, toDisplayPath.
  change ("/" ++ join "/" parts) with (String "/" (join "/" parts)).
  simpl split. cbn [filter String.eqb negb].
  destruct parts as [|q rest]; [reflexivity|].
  apply canonical_Forall in Hc.
  rewrite (split_join "/" (q :: rest)).
  - apply forallb_filter_id. apply forallb_forall. intros x Hx.
    rewrite Forall_forall in Hc. specialize (Hc x Hx).
    unfold segOk in Hc. destruct (x =? ""); simpl in *; congruence.
  - discriminate.
  - eapply Forall_impl; [|exact Hc]. intros a Ha. unfold segOk in Ha.
    destruct (includes "/" a); [|reflexivity].
    rewrite !andb_false_r in Ha; discriminate.
Qed.

Lemma startsWith_includes (s : string) :
  includes "/" s = false -> startsWith s "/" = false.
Proof.
  destruct s as [|c s]; [reflexivity|]. simpl.
  intros H. apply orb_false_iff in H as [H _]. now rewrite H.
Qed.

Lemma normalizePathParts_child (parts : list string) (name : string) :
  segOk name = true ->
  normalizePathParts parts name = (parts ++ [name])%list.
Proof.
  intros Hn. unfold segOk in Hn.
  destruct (name =? "") eqn:E1; [discriminate|].
  destruct (name =? ".") eqn:E2; [discriminate|].
  destruct (name =? "..") eqn:E3; [discriminate|].
  destruct (includes "/" name) eqn:E4; [discriminate|].
  unfold normalizePathParts, rawPartsOf. rewrite E1, E2. cbn [orb].
  rewrite (startsWith_includes _ E4), (split_no_sep _ _ E4).
  cbn [filter]. rewrite E1, E2. cbn [negb andb fold_left].
  unfold normalizeStep. now rewrite E3.
Qed.

(** X10. Joining a canonical name to the display form of a canonical segment
    list is one path step down: the display form of the list with the name
    appended. *)
Theorem joinPath_child (parts : list string) (name : string) :
  canonical parts = true -> segOk name = true ->
  joinPath (toDisplayPath parts) name = toDisplayPath (parts ++ [name]).
Proof.
  intros Hc Hn.
  rewrite joinPath_parts by (now rewrite cwdPartsOf_display).
  rewrite (cwdPartsOf_display _ Hc). f_equal.
  now apply normalizePathParts_child.
Qed.

Lemma joinPath_child_witness :
  joinPath (toDisplayPath ["etc"; "help"]) "find.md"
  = toDisplayPath (["etc"; "help"] ++ ["find.md"]).
Proof.
  apply (joinPath_child ["etc"; "help"] "find.md"); reflexivity.
Defined.

(** X11. With a canonical cwd path, [normalizePathFromCwd] returns the display
    form of a canonical segment list, and that string is a fixed point of
    the resolver from every cwd. *)
Theorem normalizePathFromCwd_fixed_point (cwdPath path : string) :
  canonical (cwdPartsOf cwdPath) = true ->
  exists parts,
    canonical parts = true
    /\ normalizePathFromCwd cwdPath path = toDisplayPath parts
    /\ forall other, normalizePathFromCwd other (toDisplayPath parts)
                     = toDisplayPath parts.
Proof.
  intros Hc.
  exists (normalizePathParts (cwdPartsOf cwdPath) path).
  pose proof (normalizePathParts_closed _ path Hc) as Hp.
  split; [exact Hp|]. split; [apply normalizePathFromCwd_parts|].
  intros other. rewrite normalizePathFromCwd_parts. f_equal.
  apply normalizePathParts_display.
  apply (proj1 (canonical_Forall _)); exact Hp.
Qed.

Lemma normalizePathFromCwd_fixed_point_witness :
  exists parts,
    canonical parts = true
    /\ normalizePathFromCwd "/a/b" "../c//d/." = toDisplayPath parts
    /\ forall other, normalizePathFromCwd other (toDisplayPath parts)
                     = toDisplayPath parts.
Proof.
  apply (normalizePathFromCwd_fixed_point "/a/b" "../c//d/."). reflexivity.
Defined.

End PathMore.

(* ------------------------------------------------------------------ *)
(** ** Tokenizer: quoting round trip, token spans *)
(* ------------------------------------------------------------------ *)

Section TokenizerMore.
Import JsString CommandLine MoreStatements.

Lemma scan_app (a b : string) : forall i st,
  scan (a ++ b) i st = scan b (i + String.length a) (scan a i st).
Proof.
  induction a as [|c a IH]; intros i st; simpl.
  - now rewrite Nat.add_0_r.
  - rewrite IH. f_equal. lia.
Qed.

Lemma isWhitespace_isTrimSpace (c : ascii) :
  isTrimSpace c = false -> isWhitespace c = false.
Proof.
  intros H. destruct (isWhitespace c) eqn:W; [|reflexivity].
  unfold isWhitespace in W.
  repeat (apply orb_true_iff in W as [W|W]);
    apply Ascii.eqb_eq in W; subst c; discriminate.
Qed.

Lemma needsQuoting_cons (a : ascii) (v : string) :
  needsQuoting (String a v) = false ->
  isWhitespace a = false /\ Ascii.eqb a dquote = false
  /\ Ascii.eqb a squote = false /\ Ascii.eqb a backslash = false
  /\ needsQuoting v = false.
Proof.
  simpl. intros H.
  apply orb_false_iff in H as [H H5]. apply orb_false_iff in H as [H H4].
  apply orb_false_iff in H as [H H3]. apply orb_false_iff in H as [H1 H2].
  auto using isWhitespace_isTrimSpace.
Qed.

Lemma scan_plain (v : string) :
  needsQuoting v = false ->
  forall i ts b s qc h,
    scan v i (mkLexer ts b (Some s) None qc h false)
    = mkLexer ts (b ++ v) (Some s) None qc h false.
Proof.
  induction v as [|a v IH]; intros N i ts b s qc h.
  - simpl. now rewrite append_empty_r.
  - apply needsQuoting_cons in N as (W & D & S & B & N).
    simpl scan. unfold stepChar.
    cbn [escaping quote tokens buf tokenStart quoteChar hadQuotes].
    rewrite B, D, S, W. cbn [orb]. unfold startAt, appendChar.
    cbn [tokenStart]. rewrite (IH N), append_assoc. reflexivity.
Qed.

Lemma scan_escaped (q : ascii) :
  Ascii.eqb q backslash = false ->
  forall v i ts b s qc h,
    scan (escapeChar q (escapeChar backslash v)) i
      (mkLexer ts b (Some s) (Some q) qc h false)
    = mkLexer ts (b ++ v) (Some s) (Some q) qc h false.
Proof.
  intros Hq.
  assert (Hq' : Ascii.eqb backslash q = false)
    by (now rewrite Ascii.eqb_sym).
  induction v as [|a v IH]; intros i ts b s qc h.
  - simpl. now rewrite append_empty_r.
  - cbn [escapeChar]. destruct (Ascii.eqb a backslash) eqn:Ea.
    + apply Ascii.eqb_eq in Ea. subst a.
      cbn [escapeChar]. rewrite Hq'. cbn [scan]. unfold stepChar at 2.
      cbn [escaping quote tokens buf tokenStart quoteChar hadQuotes].
      rewrite Ascii.eqb_refl. unfold stepChar.
      cbn [escaping quote tokens buf tokenStart quoteChar hadQuotes].
      unfold startAt, appendChar. cbn [tokenStart].
      rewrite IH, append_assoc. reflexivity.
    + cbn [escapeChar]. destruct (Ascii.eqb a q) eqn:Eq.
      * apply Ascii.eqb_eq in Eq. subst a.
        cbn [scan]. unfold stepChar at 2.
        cbn [escaping quote tokens buf tokenStart quoteChar hadQuotes].
        rewrite Ascii.eqb_refl. unfold stepChar.
        cbn [escaping quote tokens buf tokenStart quoteChar hadQuotes].
        unfold startAt, appendChar. cbn [tokenStart].
        rewrite IH, append_assoc. reflexivity.
      * cbn [scan]. unfold stepChar.
        cbn [escaping quote tokens buf tokenStart quoteChar hadQuotes].
        rewrite Ea, Eq. unfold startAt, appendChar. cbn [tokenStart].
        rewrite IH, append_assoc. reflexivity.
Qed.

Lemma quoteOf_cases (pq : ascii) :
  (quoteOf pq = squote \/ quoteOf pq = dquote).
Proof. unfold quoteOf. destruct (Ascii.eqb pq squote); auto. Qed.

Lemma scan_quoteArg (v : string) (pq : ascii) :
  v <> "" ->
  forall i ts,
    scan (quoteArgIfNeeded v pq) i (idle ts)
    = mkLexer ts v (Some i) None
        (if needsQuoting v then Some (quoteOf pq) else None)
        (needsQuoting v) false.
Proof.
  intros Hv i ts. unfold quoteArgIfNeeded.
  destruct (needsQuoting v) eqn:N; cbn [negb].
  - fold (quoteOf pq).
    assert (Hb : Ascii.eqb (quoteOf pq) backslash = false)
      by (destruct (quoteOf_cases pq) as [-> | ->]; reflexivity).
    assert (Hd : Ascii.eqb (quoteOf pq) dquote
                 || Ascii.eqb (quoteOf pq) squote = true)
      by (destruct (quoteOf_cases pq) as [-> | ->]; reflexivity).
    cbn [scan]. unfold stepChar at 1, idle.
    cbn [escaping quote tokens buf tokenStart quoteChar hadQuotes].
    rewrite Hb, Hd. unfold startAt. cbn [tokenStart].
    rewrite scan_app, (scan_escaped _ Hb). cbn [scan append].
    unfold stepChar.
    cbn [escaping quote tokens buf tokenStart quoteChar hadQuotes].
    rewrite Hb, Ascii.eqb_refl. reflexivity.
  - destruct v as [|a v]; [congruence|].
    pose proof (needsQuoting_cons _ _ N) as (W & D & S & B & N').
    cbn [scan]. unfold stepChar, idle.
    cbn [escaping quote tokens buf tokenStart quoteChar hadQuotes].
    rewrite B, D, S, W. cbn [orb]. unfold startAt, appendChar.
    cbn [tokenStart]. rewrite (scan_plain _ N'). reflexivity.
Qed.

Lemma lastChar_app (a : string) (c : ascii) :
  lastChar (a ++ String c "") = Some c.
Proof.
  induction a as [|x a IH]; [reflexivity|].
  simpl. rewrite IH. now destruct a.
Qed.

Lemma lastChar_plain (v : string) :
  needsQuoting v = false ->
  match lastChar v with Some c => isWhitespace c | None => false end = false.
Proof.
  induction v as [|a v IH]; intros N; [reflexivity|].
  apply needsQuoting_cons in N as (W & _ & _ & _ & N).
  destruct v as [|b v]; [exact W|]. exact (IH N).
Qed.

(** X12. Quoting a non-empty word and tokenizing the result gives exactly one
    token, whose value is the word and whose span is the whole quoted
    text; the word was quoted exactly when it needed quoting, and the line
    neither ends in white space nor is reported as unterminated. *)
Theorem quoteArg_round_trip (v : string) (pq : ascii) :
  v <> "" ->
  tokenizeCommandLine (quoteArgIfNeeded v pq)
  = mkTokenized
      [mkToken v 0 (String.length (quoteArgIfNeeded v pq))
         (if needsQuoting v then Some (quoteOf pq) else None)
         (needsQuoting v)]
      false false.
Proof.
  intros Hv. unfold tokenizeCommandLine.
  change initLexer with (idle []).
  rewrite (scan_quoteArg v pq Hv). unfold finish, pushToken.
  cbn [escaping quote tokens buf tokenStart quoteChar hadQuotes app].
  f_equal. unfold quoteArgIfNeeded.
  destruct (needsQuoting v) eqn:N; cbn [negb].
  - fold (quoteOf pq).
    change (String (quoteOf pq) (?x ++ ?y)) with (String (quoteOf pq) x ++ y).
    rewrite lastChar_app.
    destruct (quoteOf_cases pq) as [-> | ->]; reflexivity.
  - now apply lastChar_plain.
Qed.

Lemma quoteArg_round_trip_witness :
  tokenizeCommandLine (quoteArgIfNeeded "my file's" squote)
  = mkTokenized
      [mkToken "my file's" 0
         (String.length (quoteArgIfNeeded "my file's" squote))
         (if needsQuoting "my file's" then Some (quoteOf squote) else None)
         (needsQuoting "my file's")]
      false false.
Proof.
  apply (quoteArg_round_trip "my file's" squote). discriminate.
Defined.

Lemma scan_quotedLine (pq : ascii) (words : list string) :
  words <> [] -> forallb nonEmpty words = true ->
  forall i ts n,
    map value (tokens (finish n (scan (quotedLine pq words) i (idle ts))))
    = (map value ts ++ words)%list.
Proof.
  unfold quotedLine.
  induction words as [|w rest IH]; intros Hne Hall i ts n; [congruence|].
  cbn [forallb] in Hall. apply andb_true_iff in Hall as [Hw Hrest].
  assert (Hw' : w <> "").
  { unfold nonEmpty in Hw. intros ->. discriminate. }
  destruct rest as [|w2 rest].
  - cbn [map join]. rewrite (scan_quoteArg w pq Hw').
    unfold finish, pushToken.
    cbn [escaping quote tokens buf tokenStart quoteChar hadQuotes].
    rewrite map_app. reflexivity.
  - cbn [map join]. cbn [map join] in IH.
    change (" " ++ ?x) with (String " " x).
    rewrite scan_app, (scan_quoteArg w pq Hw'). cbn [scan].
    unfold stepChar at 1.
    cbn [escaping quote tokens buf tokenStart quoteChar hadQuotes].
    cbn [Ascii.eqb Bool.eqb orb isWhitespace backslash dquote squote].
    unfold pushToken.
    cbn [escaping quote tokens buf tokenStart quoteChar hadQuotes].
    fold (idle (ts ++ [mkToken w i (i + String.length (quoteArgIfNeeded w pq))
                         (if needsQuoting w then Some (quoteOf pq) else None)
                         (needsQuoting w)])).
    rewrite IH by (try discriminate; exact Hrest).
    rewrite map_app, <- app_assoc. reflexivity.
Qed.

(** X13. A command line built by quoting a command and its arguments with
    [quoteArgIfNeeded] and joining them with single spaces parses back to
    that command and those arguments, provided none of them is empty. *)
Theorem parse_quoted_line (pq : ascii) (cmd : string) (args : list string) :
  forallb nonEmpty (cmd :: args) = true ->
  parseCommandLine (quotedLine pq (cmd :: args)) = (cmd, args).
Proof.
  intros Hall. unfold parseCommandLine, tokenizeCommandLine.
  cbn [resTokens]. change initLexer with (idle []).
  rewrite scan_quotedLine by (try discriminate; exact Hall).
  reflexivity.
Qed.

Lemma parse_quoted_line_witness :
  parseCommandLine (quotedLine dquote ["cat"; "a b"; "it's"; "c\d"])
  = ("cat", ["a b"; "it's"; "c\d"]).
Proof.
  apply (parse_quoted_line dquote "cat" ["a b"; "it's"; "c\d"]).
  reflexivity.
Defined.

Lemma spansFrom_snoc (ts : list Token) (t : Token) (hi : nat) : forall lo,
  spansFrom lo (ts ++ [t]) hi = true <->
  spansFrom lo ts hi = true /\ nextFree lo ts <= rawStart t
  /\ rawStart t < rawEnd t /\ rawEnd t <= hi.
Proof.
  induction ts as [|x ts IH]; intros lo; cbn [app spansFrom nextFree].
  - rewrite !andb_true_iff, Nat.leb_le, Nat.ltb_lt, Nat.leb_le. tauto.
  - rewrite !andb_true_iff, IH. tauto.
Qed.

Lemma spansFrom_mono (ts : list Token) (hi hi' : nat) : forall lo,
  hi <= hi' -> spansFrom lo ts hi = true -> spansFrom lo ts hi' = true.
Proof.
  induction ts as [|x ts IH]; intros lo Hle; cbn [spansFrom]; [auto|].
  rewrite !andb_true_iff, !Nat.leb_le. intros [[[A B] C] D].
  repeat split; auto. lia.
Qed.

Lemma nextFree_snoc (ts : list Token) (t : Token) : forall lo,
  nextFree lo (ts ++ [t]) = S (rawEnd t).
Proof. induction ts as [|x ts IH]; intros lo; cbn; auto. Qed.

(** What holds of the tokenizer's variables before it reads index [i]. *)
Lemma stepChar_spans (ch : ascii) (i : nat) (st : Lexer) :
  spansFrom 0 (tokens st) i = true /\ nextFree 0 (tokens st) <= i
  /\ match tokenStart st with
     | Some s => nextFree 0 (tokens st) <= s < i
     | None => escaping st = false
     end ->
  let st' := stepChar ch i st in
  spansFrom 0 (tokens st') (S i) = true /\ nextFree 0 (tokens st') <= S i
  /\ match tokenStart st' with
     | Some s => nextFree 0 (tokens st') <= s < S i
     | None => escaping st' = false
     end.
Proof.
  intros (A & B & C). cbv zeta.
  assert (A' : spansFrom 0 (tokens st) (S i) = true)
    by (apply (spansFrom_mono _ i); auto).
  assert (K : forall j, j <= i -> nextFree 0 (tokens st) <= j ->
            match startAt j st with
            | Some s => nextFree 0 (tokens st) <= s < S i
            | None => False
            end).
  { intros j Hj Hn. unfold startAt. destruct (tokenStart st); lia. }
  unfold stepChar. destruct (escaping st) eqn:E.
  { cbn [tokens tokenStart escaping]. split; [exact A'|]. split; [lia|].
    unfold startAt. destruct (tokenStart st); [lia|discriminate]. }
  destruct (Ascii.eqb ch backslash).
  { cbn [tokens tokenStart escaping]. split; [exact A'|]. split; [lia|].
    specialize (K i (le_n _) B). destruct (startAt i st); [exact K|tauto]. }
  destruct (quote st) as [q|].
  { destruct (Ascii.eqb ch q); cbn [tokens tokenStart escaping].
    - split; [exact A'|]. split; [lia|].
      destruct (tokenStart st); [lia|first [exact E|reflexivity]].
    - split; [exact A'|]. split; [lia|].
      specialize (K i (le_n _) B). destruct (startAt i st); [exact K|tauto]. }
  destruct (Ascii.eqb ch dquote || Ascii.eqb ch squote).
  { cbn [tokens tokenStart escaping]. split; [exact A'|]. split; [lia|].
    specialize (K i (le_n _) B). destruct (startAt i st); [exact K|tauto]. }
  destruct (isWhitespace ch).
  - unfold pushToken. destruct (tokenStart st) as [s|] eqn:T.
    + cbn [tokens tokenStart escaping]. rewrite nextFree_snoc.
      cbn [rawEnd]. split; [|split; [lia|reflexivity]].
      apply spansFrom_snoc. cbn [rawStart rawEnd].
      split; [exact A'|]. lia.
    + rewrite ?T. split; [exact A'|]. split; [lia|].
      rewrite ?T. first [exact E|reflexivity].
  - cbn [tokens tokenStart escaping]. split; [exact A'|]. split; [lia|].
    specialize (K i (le_n _) B). destruct (startAt i st); [exact K|tauto].
Qed.

Lemma scan_spans (rest : string) : forall i st,
  spansFrom 0 (tokens st) i = true /\ nextFree 0 (tokens st) <= i
  /\ match tokenStart st with
     | Some s => nextFree 0 (tokens st) <= s < i
     | None => escaping st = false
     end ->
  let n := i + String.length rest in
  let st' := scan rest i st in
  spansFrom 0 (tokens st') n = true /\ nextFree 0 (tokens st') <= n
  /\ match tokenStart st' with
     | Some s => nextFree 0 (tokens st') <= s < n
     | None => escaping st' = false
     end.
Proof.
  induction rest as [|c rest IH]; intros i st H; cbv zeta; cbn [scan].
  - now rewrite Nat.add_0_r.
  - cbn [String.length]. rewrite Nat.add_succ_r.
    apply (IH (S i)). now apply stepChar_spans.
Qed.

(** X14. The tokens of any input have non-empty raw spans inside the input, in
    increasing order, and each token starts strictly after the end of the
    one before it: two tokens never touch or overlap. *)
Theorem token_spans_ordered (src : string) :
  spansFrom 0 (resTokens (tokenizeCommandLine src)) (String.length src) = true.
Proof.
  unfold tokenizeCommandLine. cbn [resTokens].
  pose proof (scan_spans src 0 initLexer) as H. cbv zeta in H.
  cbn [Nat.add] in H.
  destruct H as (A & B & C).
  { cbn. repeat split; auto. }
  unfold finish. set (st := scan src 0 initLexer) in *.
  destruct (escaping st) eqn:E; cbn [tokenStart].
  - destruct (tokenStart st) as [s|] eqn:T; [|discriminate].
    unfold pushToken. cbn [tokenStart tokens buf quoteChar hadQuotes].
    apply spansFrom_snoc. cbn [rawStart rawEnd]. split; [exact A|]. lia.
  - destruct (tokenStart st) as [s|] eqn:T; [|exact A].
    unfold pushToken. rewrite T. cbn [tokens].
    apply spansFrom_snoc. cbn [rawStart rawEnd]. split; [exact A|]. lia.
Qed.

Lemma scan_blank (src : string) :
  blank src = true ->
  forall i ts, scan src i (idle ts) = idle ts.
Proof.
  induction src as [|c src IH]; intros H i ts; [reflexivity|].
  cbn [blank] in H. apply andb_true_iff in H as [Hc Hs].
  cbn [scan]. rewrite <- (IH Hs (S i) ts) at 2. f_equal.
  unfold stepChar, idle.
  cbn [escaping quote tokens buf tokenStart quoteChar hadQuotes].
  rewrite Hc.
  unfold isWhitespace in Hc.
  repeat (apply orb_true_iff in Hc as [Hc|Hc]);
    apply Ascii.eqb_eq in Hc; subst c; reflexivity.
Qed.

(** The lexer has a token pushed or one under way. *)
Lemma stepChar_busy (ch : ascii) (i : nat) (st : Lexer) :
  tokens st <> [] \/ tokenStart st <> None ->
  tokens (stepChar ch i st) <> [] \/ tokenStart (stepChar ch i st) <> None.
Proof.
  intros H. unfold stepChar, startAt, pushToken.
  repeat match goal with
         | |- context [if ?b then _ else _] => destruct b
         | |- context [match ?x with _ => _ end] => destruct x eqn:?
         end;
    cbn [tokens tokenStart];
    try (right; discriminate);
    try (left; intros F; apply app_eq_nil in F as [_ F]; discriminate);
    try exact H.
  all: destruct H as [H|H]; [left; exact H|right; congruence].
Qed.

Lemma scan_busy (rest : string) : forall i st,
  tokens st <> [] \/ tokenStart st <> None ->
  tokens (scan rest i st) <> [] \/ tokenStart (scan rest i st) <> None.
Proof.
  induction rest as [|c rest IH]; intros i st H; cbn [scan]; [exact H|].
  apply IH. now apply stepChar_busy.
Qed.

Lemma scan_not_blank (src : string) :
  blank src = false ->
  forall i ts,
    tokens (scan src i (idle ts)) <> []
    \/ tokenStart (scan src i (idle ts)) <> None.
Proof.
  induction src as [|c src IH]; intros H i ts; [discriminate|].
  cbn [blank] in H. cbn [scan].
  destruct (isWhitespace c) eqn:W.
  - cbn [andb] in H.
    assert (S1 : stepChar c i (idle ts) = idle ts).
    { pose proof (scan_blank (String c "")) as B. cbn [scan] in B.
      apply B. simpl. now rewrite W. }
    rewrite S1. now apply IH.
  - apply scan_busy. right. unfold stepChar, idle, startAt.
    cbn [escaping quote tokens buf tokenStart quoteChar hadQuotes].
    rewrite W.
    destruct (Ascii.eqb c backslash); [cbn; discriminate|].
    destruct (Ascii.eqb c dquote || Ascii.eqb c squote); cbn; discriminate.
Qed.

(** X15. An input has no token exactly when every character of it is one of
    the four white space characters of the tokenizer; anything else, even
    a lone quote or backslash, gives a token. *)
Theorem no_tokens_iff_blank (src : string) :
  resTokens (tokenizeCommandLine src) = []
  <-> blank src = true.
Proof.
  unfold tokenizeCommandLine. cbn [resTokens].
  change initLexer with (idle []). split.
  - intros H. destruct (blank src) eqn:B; [reflexivity|].
    exfalso. pose proof (scan_not_blank src B 0 []) as N.
    set (st := scan src 0 (idle [])) in *.
    unfold finish, pushToken in H.
    destruct (escaping st); cbn [tokenStart tokens] in H.
    + destruct (tokenStart st) eqn:T.
      * apply app_eq_nil in H as [_ H]. discriminate.
      * cbn [tokens] in H. destruct N as [N|N]; congruence.
    + destruct (tokenStart st) eqn:T.
      * rewrite ?T in H. cbn [tokens] in H.
        apply app_eq_nil in H as [_ H]. discriminate.
      * rewrite ?T in H. cbn [tokens] in H. destruct N as [N|N]; congruence.
  - intros B. now rewrite (scan_blank src B).
Qed.

End TokenizerMore.

(* ------------------------------------------------------------------ *)
(** ** Shell loop: aliases, dispatch, command scripts, history *)
(* ------------------------------------------------------------------ *)

Section HolderMore.
Import JsString PathUtils CommandLine Vfs Holder MoreCode MoreStatements.

Variable runSource :
  string -> list string -> string -> World
  -> (bool * option ShellError) * World.
Variable stringifyHistory : list string -> string.
Variable historyLimit : nat.

Lemma expandAliasesOnce_args (env : Env) (c : string) (args : list string) :
  expandAliasesOnce env c args
  = let '(c1, a1, same) := expandAliasesOnce env c [] in
    (c1, (a1 ++ args)%list, same).
Proof.
  unfold expandAliasesOnce.
  destruct (lookupAlias (ALIAS env) c) as [[target|]|]; try reflexivity.
  destruct (trim target =? ""); [reflexivity|].
  destruct (parseCommandLine (trim target)) as [pc pa].
  now rewrite app_nil_r.
Qed.

Lemma expandAliasesLoop_args (env : Env) (args : list string) :
  forall k c pre visited,
    expandAliasesLoop env k c (pre ++ args) visited
    = let '(c', p') := expandAliasesLoop env k c pre visited in
      (c', (p' ++ args)%list).
Proof.
  induction k as [|k IH]; intros c pre visited; cbn [expandAliasesLoop];
    [reflexivity|].
  destruct (existsb (String.eqb c) visited); [reflexivity|].
  rewrite (expandAliasesOnce_args env c (pre ++ args)).
  rewrite (expandAliasesOnce_args env c pre).
  destruct (expandAliasesOnce env c []) as [[c1 a1] same].
  destruct ((c1 =? c) && same); [reflexivity|].
  rewrite app_assoc. apply IH.
Qed.

(** X16. Alias expansion never looks at the arguments: the expanded command is
    the one obtained with no arguments, and the expanded arguments are
    those obtained with no arguments followed by the typed ones, in
    order. *)
Theorem expandAliases_keeps_args (env : Env) (c : string)
    (args : list string) :
  expandAliases env c args
  = (fst (expandAliases env c []),
     (snd (expandAliases env c []) ++ args)%list).
Proof.
  unfold expandAliases, expandAliasesDepth.
  pose proof (expandAliasesLoop_args env args 5 c [] []) as H.
  cbn [app] in H. rewrite H.
  now destruct (expandAliasesLoop env 5 c [] []).
Qed.

(** X17. An alias whose text starts with its own name, or with a command that
    is not itself an alias, is applied exactly once: the target's words
    come first, then the typed arguments. *)
Theorem alias_applied_once (env : Env) (c target c' : string)
    (pa args : list string) :
  lookupAlias (ALIAS env) c = Some (JString target) ->
  (trim target =? "") = false ->
  parseCommandLine (trim target) = (c', pa) ->
  c' <> "" ->
  c' = c \/ lookupAlias (ALIAS env) c' = None ->
  expandAliases env c args = (c', (pa ++ args)%list).
Proof.
  intros L T P Hc' Hnext.
  apply String.eqb_neq in Hc'.
  unfold expandAliases, expandAliasesDepth.
  cbn [expandAliasesLoop existsb]. unfold expandAliasesOnce at 1.
  rewrite L, T, P, Hc'. rewrite andb_false_r.
  cbn [existsb]. destruct (c' =? c) eqn:E.
  - reflexivity.
  - cbn [orb]. destruct Hnext as [->|N].
    + now rewrite String.eqb_refl in E.
    + unfold expandAliasesOnce. rewrite N, String.eqb_refl. reflexivity.
Qed.

Lemma alias_applied_once_witness :
  expandAliases (mkEnv [] [("ll", JString " ls -la ")]) "ll" ["/tmp"]
  = ("ls", (["-la"] ++ ["/tmp"])%list).
Proof.
  apply (alias_applied_once (mkEnv [] [("ll", JString " ls -la ")])
           "ll" " ls -la " "ls" ["-la"] ["/tmp"]);
    [reflexivity|reflexivity|reflexivity|discriminate|right; reflexivity].
Defined.

(** X18. The handler loop written out in [mainLoop] and
    [dispatchRegisteredModules] are the same loop: the same handlers are
    called on the same session, and they agree on the exception, on
    [handled] and on [shouldContinue]. *)
Theorem tryHandlers_is_dispatch (modules : list Handler) (command : string)
    (args : list string) (w : World) :
  tryHandlers modules command args w
  = match dispatchRegisteredModules modules command args w with
    | (DThrow e, w1) => (inl e, w1)
    | (DReturn r, w1) => (inr (dHandled r, dShouldContinue r), w1)
    end.
Proof.
  revert w. induction modules as [|h rest IH]; intros w;
    cbn [tryHandlers dispatchRegisteredModules]; [reflexivity|].
  destruct (h command args w) as [[[r|]|e] w1]; auto.
  destruct (handled r); auto.
Qed.

(** X19. A strict dispatch that fails always carries an error and never ends
    the session; one that succeeds carries none; and a command that no
    module handled is a failure. *)
Theorem dispatchStrict_error_iff_failed (modules : list Handler)
    (command : string) (args : list string) (w : World) :
  let r := fst (dispatchStrict modules command args w) in
  (sOk r = true <-> sError r = None)
  /\ (sOk r = false -> sShouldContinue r = true)
  /\ (sHandled r = false -> sOk r = false).
Proof.
  cbv zeta. unfold dispatchStrict.
  destruct (command =? "").
  { cbn. repeat split; auto; discriminate. }
  destruct (dispatchRegisteredModules modules command args w)
    as [[r|e] w1].
  - destruct (dHandled r); cbn [negb].
    + destruct (dOk r) as [[|]|]; cbn; repeat split; auto; discriminate.
    + cbn. repeat split; auto; discriminate.
  - cbn. repeat split; auto; discriminate.
Qed.

(** X20. A script is run line by line: running two blocks of lines one after
    the other is running the first and, when it came to its end, the
    second on the session the first left, with the line numbers carried
    on; a stop or a leave in the first block is final. *)
Theorem runJshLines_sequential (modules : list Handler) (invokedAs : string)
    (l1 l2 : list string) :
  forall i w,
    runJshLines modules invokedAs (l1 ++ l2) i w
    = match runJshLines modules invokedAs l1 i w with
      | (JshDone, w1) =>
          runJshLines modules invokedAs l2 (i + List.length l1) w1
      | other => other
      end.
Proof.
  induction l1 as [|x l1 IH]; intros i w; cbn [app runJshLines List.length].
  - now rewrite Nat.add_0_r.
  - destruct (parseSimpleCommandLine x) as [command args].
    assert (Step : forall w0,
      runJshLines modules invokedAs (l1 ++ l2) (S i) w0
      = match runJshLines modules invokedAs l1 (S i) w0 with
        | (JshDone, w1) =>
            runJshLines modules invokedAs l2 (i + S (List.length l1)) w1
        | other => other
        end).
    { intros w0. rewrite (IH (S i) w0).
      destruct (runJshLines modules invokedAs l1 (S i) w0) as [[| |] w1];
        try reflexivity.
      f_equal. lia. }
    destruct (command =? ""); [exact (Step w)|].
    destruct (dispatchStrict modules command args w) as [r w1].
    destruct (negb (sOk r)); [reflexivity|].
    destruct (negb (sShouldContinue r)); [reflexivity|].
    exact (Step w1).
Qed.

Lemma gate_lower (command name : string) :
  existsb (String.eqb (toLowerCase command)) lowerNames = false ->
  In name lowerNames ->
  (toLowerCase command =? name) = false.
Proof.
  intros H Hin. destruct (toLowerCase command =? name) eqn:E; [|reflexivity].
  rewrite <- H. symmetry. apply existsb_exists. eauto.
Qed.

Lemma gate_exact (command name : string) :
  existsb (String.eqb command) exactNames = false ->
  In name exactNames ->
  (command =? name) = false.
Proof.
  intros H Hin. destruct (command =? name) eqn:E; [|reflexivity].
  rewrite <- H. symmetry. apply existsb_exists. eauto.
Qed.

Lemma tryHandlers_all_decline (modules : list Handler) (command : string)
    (args : list string) (w : World) :
  Forall (fun h : Handler => h command args w = (notMine, w)) modules ->
  tryHandlers modules command args w = (inr (false, true), w).
Proof.
  induction 1 as [|h rest Hh _ IH]; cbn [tryHandlers]; [reflexivity|].
  rewrite Hh. unfold notMine. cbn [handled]. exact IH.
Qed.

Lemma gated_declines (name : string) (body : Handler) (command : string)
    (args : list string) (w : World) :
  (toLowerCase command =? name) = false ->
  gated name body command args w = (notMine, w).
Proof. intros H. unfold gated. now rewrite H. Qed.

Lemma gatedExact_declines (name : string) (body : Handler) (command : string)
    (args : list string) (w : World) :
  (command =? name) = false ->
  gatedExact name body command args w = (notMine, w).
Proof. intros H. unfold gatedExact. now rewrite H. Qed.

(** X21. A command that is none of the registered names and not a [./x.js]
    call goes through all twenty-five registered modules unhandled, and
    none of them prints or touches the session, whatever the bodies of the
    modules are. *)
Theorem unknown_command_untouched (other : string -> Handler)
    (command : string) (args : list string) (w : World) :
  knownCommand command = false ->
  tryHandlers (commandModules runSource other) command args w
  = (inr (false, true), w).
Proof.
  unfold knownCommand. intros H.
  apply orb_false_iff in H as [H Hs]. apply orb_false_iff in H as [Hl He].
  assert (L : forall name, In name lowerNames ->
            (toLowerCase command =? name) = false)
    by (intros; now apply gate_lower).
  assert (X : forall name, In name exactNames -> (command =? name) = false)
    by (intros; now apply gate_exact).
  unfold isScriptCall in Hs. apply negb_false_iff in Hs.
  apply tryHandlers_all_decline. unfold commandModules.
  repeat apply Forall_cons; try apply Forall_nil;
    try (apply gated_declines; apply L; unfold lowerNames;
         repeat (first [left; reflexivity | right]));
    try (apply gatedExact_declines; apply X; unfold exactNames;
         repeat (first [left; reflexivity | right])).
  unfold executeScriptFile. now rewrite Hs.
Qed.

Lemma onVfs_frame {A} (c : M A) (w : World) :
  commandHistory (snd (onVfs c w)) = commandHistory w
  /\ printed (snd (onVfs c w)) = printed w.
Proof. unfold onVfs. destruct (c (vfs w)). split; reflexivity. Qed.

Lemma persistHistory_history (w : World) :
  commandHistory (persistHistory stringifyHistory historyLimit w)
  = skipn (List.length (commandHistory w) - historyLimit) (commandHistory w)
  /\ printed (persistHistory stringifyHistory historyLimit w) = printed w.
Proof.
  unfold persistHistory.
  match goal with
  | |- context [onVfs ?c ?w0] => destruct (onVfs_frame c w0) as [H1 H2]
  end.
  rewrite H1, H2. cbn [commandHistory printed]. split; [|reflexivity].
  destruct (historyLimit <? List.length (commandHistory w))%nat eqn:E;
    [reflexivity|].
  apply Nat.ltb_ge in E.
  replace (List.length (commandHistory w) - historyLimit) with 0 by lia.
  reflexivity.
Qed.

Lemma noRepeat_tl (a : string) (l : list string) :
  noRepeat (a :: l) = true -> noRepeat l = true.
Proof.
  destruct l as [|b l]; [reflexivity|]. cbn [noRepeat].
  intros H. now apply andb_true_iff in H as [_ H].
Qed.

Lemma noRepeat_skipn (k : nat) : forall l,
  noRepeat l = true -> noRepeat (skipn k l) = true.
Proof.
  induction k as [|k IH]; intros l H; [exact H|].
  destruct l as [|a l]; [reflexivity|].
  cbn [skipn]. apply IH. now apply (noRepeat_tl a).
Qed.

Lemma noRepeat_snoc (t : string) : forall l,
  noRepeat l = true ->
  match l with [] => True | _ :: _ => (last l "" =? t) = false end ->
  noRepeat (l ++ [t]) = true.
Proof.
  induction l as [|a l IH]; intros H L; [reflexivity|].
  destruct l as [|b l].
  - cbn in *. now rewrite L.
  - change (noRepeat (a :: (b :: l) ++ [t]) = true).
    change (negb (a =? b) && noRepeat ((b :: l) ++ [t]) = true).
    cbn [noRepeat] in H. apply andb_true_iff in H as [H1 H2].
    rewrite H1. apply IH; [exact H2|exact L].
Qed.

(** X22. Recording an input keeps the history tidy: no two neighbouring entries
    are equal, no blank entry gets in, the length stays within the limit
    once it is within it, and nothing is printed. *)
Theorem recordHistory_tidy (t : string) (w : World) :
  noRepeat (commandHistory w) = true ->
  let w' := recordHistory stringifyHistory historyLimit t w in
  noRepeat (commandHistory w') = true
  /\ List.length (commandHistory w')
     <= Nat.max historyLimit (List.length (commandHistory w))
  /\ (In "" (commandHistory w') -> In "" (commandHistory w))
  /\ printed w' = printed w.
Proof.
  intros H. cbv zeta. unfold recordHistory.
  destruct (negb (t =? "")) eqn:Ht; cbn [andb].
  2:{ repeat split; auto. lia. }
  match goal with
  | |- context [if ?b then _ else _] => destruct b eqn:Hl
  end.
  2:{ repeat split; auto. lia. }
  match goal with
  | |- context [persistHistory _ _ ?w0] =>
      destruct (persistHistory_history w0) as [E1 E2]
  end.
  rewrite E1, E2. cbn [commandHistory printed].
  split; [|split; [|split; [|reflexivity]]].
  - apply noRepeat_skipn. apply noRepeat_snoc; [exact H|].
    destruct (commandHistory w); [exact I|].
    now apply negb_true_iff in Hl.
  - rewrite length_skipn, length_app. cbn [List.length]. lia.
  - intros Hin.
    assert (Hin' : In "" (commandHistory w ++ [t])).
    { rewrite <- (firstn_skipn
                    (List.length (commandHistory w ++ [t]) - historyLimit)
                    (commandHistory w ++ [t])).
      apply in_or_app. now right. }
    apply in_app_or in Hin' as [Hin'|[Hin'|[]]]; [exact Hin'|].
    subst t. discriminate.
Qed.

End HolderMore.

Lemma unknown_command_untouched_witness :
  Holder.tryHandlers
    (Holder.commandModules Examples.recordingRunSource
       (fun _ _ _ w => (Holder.Thrown (Holder.ErrMsg "unreachable"), w)))
    "Frobnicate" ["-x"] Examples.sampleWorld
  = (inr (false, true), Examples.sampleWorld).
Proof.
  apply (unknown_command_untouched Examples.recordingRunSource _
           "Frobnicate" ["-x"] Examples.sampleWorld).
  reflexivity.
Defined.

Lemma recordHistory_tidy_witness :
  let w := Holder.mkWorld Vfs.emptyStore [] ["pwd"; "ls"] in
  let w' := Holder.recordHistory (String.concat ",") 2 "cd" w in
  MoreStatements.noRepeat (Holder.commandHistory w') = true
  /\ List.length (Holder.commandHistory w')
     <= Nat.max 2 (List.length (Holder.commandHistory w))
  /\ (In "" (Holder.commandHistory w') -> In "" (Holder.commandHistory w))
  /\ Holder.printed w' = Holder.printed w.
Proof.
  apply (recordHistory_tidy (String.concat ",") 2 "cd"
           (Holder.mkWorld Vfs.emptyStore [] ["pwd"; "ls"])).
  reflexivity.
Defined.

(* ------------------------------------------------------------------ *)
(** ** Command handlers: touch, copy, cat *)
(* ------------------------------------------------------------------ *)

Section HandlersMore.
Import JsString PathUtils CommandLine Vfs Holder VfsApi MoreCode
  MoreStatements.


Lemma store_state_eq (s : Store) (st : VfsState) (k : nat) :
  state (mkStore st (Some st) k) = st.
Proof. reflexivity. Qed.



Lemma listFolder_keeps_store (path : string) (s : Store) :
  snd (listFolder path s) = s.
Proof.
  unfold listFolder, getCwdFolder, normalizePath, resolveFolder, bind, ret,
    throw, getState.
  destruct (path =? "."); cbn;
    destruct (resolveFolderFrom _ _); reflexivity.
Qed.

Lemma writeFile_keeps_cwd (path content : string) (s : Store) :
  cwdParts (state (snd (writeFile path content s))) = cwdParts (state s).
Proof.
  rewrite writeFile_run. cbv zeta.
  destruct (resolveFolderFrom _ _); reflexivity.
Qed.

Lemma readFile_same_parts (p q : string) (s : Store) (c : string) :
  partsOf (state s) p = partsOf (state s) q ->
  fst (readFile p s) = Ok c -> fst (readFile q s) = Ok c.
Proof.
  unfold partsOf. intros E. rewrite !readFile_run. cbv zeta. rewrite E.
  destruct (resolveFolderFrom _ _); [|discriminate].
  destruct (find _ _); [auto|discriminate].
Qed.

(** X24. A [copy] that reports success has printed nothing, and afterwards both
    the destination it chose (the second operand, or the source's base
    name inside it when the operand lists as a folder) and the source read
    as the content the source had. *)
Theorem copy_ok_reads_back (command src destArg : string)
    (rest : list string) (w w' : World) (r : HandlerResult) :
  executeCopyCommand command (src :: destArg :: rest) w
  = (Returned (Some r), w') ->
  ok r = Some true ->
  exists content dest,
    fst (readFile src (vfs w)) = Ok content
    /\ (dest = destArg \/ dest = joinPathLike destArg (basename src))
    /\ fst (readFile dest (vfs w')) = Ok content
    /\ fst (readFile src (vfs w')) = Ok content
    /\ printed w' = printed w.
Proof.
  unfold executeCopyCommand.
  destruct (negb (toLowerCase command =? "copy")).
  { intros H. injection H as <- <-. discriminate. }
  unfold onVfs at 1.
  pose proof (readFile_keeps_store src (vfs w)) as K.
  destruct (readFile src (vfs w)) as [[content|e] s1] eqn:R;
    cbn [snd] in K; subst s1.
  2:{ intros H. injection H as <- <-. discriminate. }
  unfold onVfs at 1. cbn [vfs printed commandHistory].
  pose proof (listFolder_keeps_store destArg (vfs w)) as KL.
  destruct (listFolder destArg (vfs w)) as [listed s2]; cbn [snd] in KL;
    subst s2.
  set (dest := match listed with
               | Ok _ => joinPathLike destArg (basename src)
               | Throw _ => destArg
               end).
  unfold onVfs. cbn [vfs printed commandHistory].
  destruct (writeFile dest content (vfs w)) as [[u|e] s3] eqn:W.
  2:{ intros H. injection H as <- <-. discriminate. }
  intros H _. injection H as _ <-. cbn [vfs printed].
  destruct u.
  pose proof (writeFile_then_readFile _ _ _ _ W) as RB.
  exists content, dest. split; [reflexivity|].
  split; [subst dest; destruct listed; auto|].
  split; [now rewrite RB|]. split; [|reflexivity].
  destruct (list_eq_dec string_dec (partsOf (state (vfs w)) dest)
              (partsOf (state (vfs w)) src)) as [E|N].
  - apply (readFile_same_parts dest src); [|now rewrite RB].
    unfold partsOf in *.
    pose proof (writeFile_keeps_cwd dest content (vfs w)) as C.
    rewrite W in C. cbn [snd] in C. now rewrite C.
  - rewrite (writeFile_other_path dest src content (vfs w) s3 N W).
    now rewrite R.
Qed.

Lemma copy_ok_reads_back_witness :
  let w := mkWorld (snd (writeFile "a.txt" "hello" emptyStore)) [] [] in
  exists content dest,
    fst (readFile "a.txt" (vfs w)) = Ok content
    /\ (dest = "b.txt" \/ dest = joinPathLike "b.txt" (basename "a.txt"))
    /\ fst (readFile dest
              (vfs (snd (executeCopyCommand "copy" ["a.txt"; "b.txt"] w))))
       = Ok content
    /\ fst (readFile "a.txt"
              (vfs (snd (executeCopyCommand "copy" ["a.txt"; "b.txt"] w))))
       = Ok content
    /\ printed (snd (executeCopyCommand "copy" ["a.txt"; "b.txt"] w))
       = printed w.
Proof.
  cbv zeta.
  apply (copy_ok_reads_back "copy" "a.txt" "b.txt" []
           (mkWorld (snd (writeFile "a.txt" "hello" emptyStore)) [] [])
           _ (mkResult true (Some true) (Some true) None));
    reflexivity.
Defined.

Lemma catArgs_store (args : list string) : forall hadError w,
  vfs (snd (catArgs args hadError w)) = vfs w.
Proof.
  induction args as [|a args IH]; intros hadError w; cbn [catArgs];
    [reflexivity|].
  unfold onVfs. pose proof (readFile_keeps_store a (vfs w)) as K.
  destruct (readFile a (vfs w)) as [[c|e] s1]; cbn [snd] in K; subst s1;
    now rewrite IH.
Qed.

(** X25. [cat], [pwd] and [exit] never change the store, whatever their
    operands are and whether or not they succeed. *)
Theorem reading_commands_keep_store (command : string) (args : list string)
    (w : World) :
  vfs (snd (executeCatCommand command args w)) = vfs w
  /\ vfs (snd (executePwdCommand command args w)) = vfs w
  /\ vfs (snd (executeExitCommand command args w)) = vfs w.
Proof.
  split; [|split].
  - unfold executeCatCommand.
    destruct (negb (toLowerCase command =? "cat")); [reflexivity|].
    destruct args as [|a args]; [reflexivity|].
    unfold finishArgs.
    pose proof (catArgs_store (a :: args) false w) as K.
    destruct (catArgs (a :: args) false w) as [h w1]. exact K.
  - unfold executePwdCommand.
    destruct (negb (toLowerCase command =? "pwd")); reflexivity.
  - unfold executeExitCommand.
    destruct (negb (toLowerCase command =? "exit")); reflexivity.
Qed.

End HandlersMore.

(* ------------------------------------------------------------------ *)
(** ** Holder files: parents made on demand *)
(* ------------------------------------------------------------------ *)

Section HolderFiles.
Import JsString PathUtils CommandLine Vfs Holder VfsApi Statements MoreCode
  MoreStatements.

Lemma resolve_app (a b : list string) : forall r,
  resolveFolderFrom r (a ++ b)
  = match resolveFolderFrom r a with
    | Some d => resolveFolderFrom d b
    | None => None
    end.
Proof.
  induction a as [|x a IH]; intros r; cbn [app resolveFolderFrom];
    [reflexivity|].
  destruct (find (folderNamed x) (folders r)); [apply IH|reflexivity].
Qed.

Lemma find_app_old {A} (p : A -> bool) (l l' : list A) (x : A) :
  find p l = Some x -> find p (l ++ l') = Some x.
Proof.
  induction l as [|y l IH]; cbn [find app]; [discriminate|].
  destruct (p y); auto.
Qed.

(** Appending a folder somewhere never makes a path stop resolving. *)
Lemma resolve_grows (name : string) :
  forall q parts r,
    resolveFolderFrom r q <> None ->
    resolveFolderFrom (updateFolderAt parts (pushFolder name) r) q <> None.
Proof.
  pose proof (pushFolder_keepsName name) as Hk.
  induction q as [|a q IH]; intros parts r; cbn [resolveFolderFrom];
    [discriminate|].
  destruct (find (folderNamed a) (folders r)) as [next|] eqn:F;
    [|congruence].
  intros H. destruct parts as [|p rest].
  - cbn [updateFolderAt pushFolder folders].
    rewrite (find_app_old _ _ _ _ F). exact H.
  - cbn [updateFolderAt folders].
    destruct (String.eqb a p) eqn:E.
    + apply String.eqb_eq in E. subst p.
      rewrite (find_updateFirst _ _ _ _ F).
      * now apply IH.
      * rewrite keepsName_folderNamed by now apply updateFolderAt_keepsName.
        apply find_some in F. tauto.
    + apply String.eqb_neq in E.
      rewrite find_updateFirst_other; [rewrite F; exact H|].
      intros x Hx. split.
      * now apply (folderNamed_distinct a p).
      * apply (folderNamed_distinct a p); [exact E|].
        rewrite keepsName_folderNamed by now apply updateFolderAt_keepsName.
        exact Hx.
Qed.

Lemma mkdirable_valid (name : string) :
  mkdirable name = true ->
  segOk name = true /\ (name =? "") || hasSeparator name = false.
Proof.
  unfold mkdirable, segOk, hasSeparator. intros H.
  apply andb_true_iff in H as [H B]. split; [exact H|].
  apply andb_true_iff in H as [H S]. apply andb_true_iff in H as [H _].
  apply andb_true_iff in H as [H _].
  apply negb_true_iff in H, S, B. now rewrite H, S, B.
Qed.

Lemma pathClear_empty (name : string) (dirs : list string) :
  pathClear (mkFolder name [] []) dirs = true.
Proof. destruct dirs; reflexivity. Qed.

Lemma ensureDirParts_run (dirs : list string) : forall s d,
  forallb mkdirable dirs = true ->
  resolveFolderFrom (root (state s)) (cwdParts (state s)) = Some d ->
  pathClear d dirs = true ->
  exists s',
    ensureDirParts dirs s = (Ok tt, s')
    /\ cwdParts (state s') = (cwdParts (state s) ++ dirs)%list
    /\ resolveFolderFrom (root (state s')) (cwdParts (state s')) <> None
    /\ (forall q, resolveFolderFrom (root (state s)) q <> None ->
                  resolveFolderFrom (root (state s')) q <> None).
Proof.
  induction dirs as [|part rest IH]; intros s d Hall R C.
  - exists s. cbn [ensureDirParts]. unfold ret.
    rewrite app_nil_r, R. repeat split; auto; discriminate.
  - cbn [forallb] in Hall. apply andb_true_iff in Hall as [Hp Hrest].
    destruct (mkdirable_valid _ Hp) as [Hseg Hvalid].
    cbn [ensureDirParts]. unfold bind at 1, tryCatch, ret.
    rewrite mkdir_run, Hvalid, R. cbn [pathClear] in C.
    destruct (find (folderNamed part) (folders d)) as [next|] eqn:F.
    + assert (Ex : existsb (folderNamed part) (folders d) = true).
      { destruct (existsb (folderNamed part) (folders d)) eqn:X;
          [reflexivity|].
        apply find_none_existsb in X. congruence. }
      rewrite Ex. cbn [orb]. unfold bind at 1.
      rewrite changeDirectory_run, (normalizePathParts_child _ _ Hseg).
      rewrite resolve_app, R. cbn [resolveFolderFrom]. rewrite F.
      cbv zeta.
      match goal with
      | |- context [ensureDirParts rest ?s2] =>
          destruct (IH s2 next Hrest) as (s' & E & Hc & Hr & Hq)
      end.
      { cbn [state root cwdParts]. rewrite resolve_app, R.
        cbn [resolveFolderFrom]. now rewrite F. }
      { exact C. }
      exists s'. split; [exact E|].
      cbn [state root cwdParts persisted] in *.
      split; [now rewrite Hc, <- app_assoc|].
      split; [exact Hr|]. exact Hq.
    + assert (Ex : existsb (folderNamed part) (folders d) = false)
        by now apply find_none_existsb.
      apply negb_true_iff in C. rewrite Ex, C. cbn [orb]. cbv zeta.
      unfold bind at 1.
      rewrite changeDirectory_run, (normalizePathParts_child _ _ Hseg).
      cbn [state root cwdParts].
      assert (R1 : resolveFolderFrom
                     (updateFolderAt (cwdParts (state s)) (pushFolder part)
                        (root (state s)))
                     (cwdParts (state s) ++ [part])
                   = Some (mkFolder part [] [])).
      { rewrite resolve_app.
        rewrite (resolve_updateFolderAt _ _ (pushFolder_keepsName part)
                   _ _ R).
        cbn [resolveFolderFrom pushFolder folders].
        rewrite (find_app_new _ _ _ F); [reflexivity|].
        unfold folderNamed. cbn. apply String.eqb_refl. }
      rewrite R1. cbv zeta.
      match goal with
      | |- context [ensureDirParts rest ?s2] =>
          destruct (IH s2 (mkFolder part [] []) Hrest)
            as (s' & E & Hc & Hr & Hq)
      end.
      { cbn [state root cwdParts]. exact R1. }
      { apply pathClear_empty. }
      exists s'. split; [exact E|].
      cbn [state root cwdParts persisted] in *.
      split; [now rewrite Hc, <- app_assoc|].
      split; [exact Hr|].
      intros q Hq0. apply Hq. now apply resolve_grows.
Qed.

Lemma getParentDir_display (dirs : list string) (name : string) :
  canonical (dirs ++ [name]) = true ->
  getParentDir (toDisplayPath (dirs ++ [name])) = toDisplayPath dirs.
Proof.
  intros Hc. unfold getParentDir.
  pose proof (cwdPartsOf_display _ Hc) as E. unfold cwdPartsOf in E.
  rewrite E, removelast_last. reflexivity.
Qed.

Lemma canonical_app (a b : list string) :
  canonical (a ++ b) = canonical a && canonical b.
Proof. unfold canonical. apply forallb_app. Qed.

Lemma mkdirable_canonical (dirs : list string) :
  forallb mkdirable dirs = true -> canonical dirs = true.
Proof.
  unfold canonical. rewrite !forallb_forall. intros H x Hx.
  now apply mkdirable_valid, H.
Qed.

Lemma pop_snoc (l : list string) (x : string) :
  pop (l ++ [x]) = (l, Some x).
Proof.
  unfold pop. rewrite removelast_last, map_app. cbn [map].
  now rewrite last_last.
Qed.

Lemma display_not_root (dirs : list string) :
  dirs <> [] -> canonical dirs = true ->
  negb (toDisplayPath dirs =? "") && negb (toDisplayPath dirs =? "/") = true.
Proof.
  intros Hne Hc. destruct dirs as [|x dirs]; [congruence|].
  cbn [canonical forallb] in Hc. unfold canonical in Hc. cbn [forallb] in Hc.
  apply andb_true_iff in Hc as [Hx _]. unfold segOk in Hx.
  destruct x as [|c x]; [discriminate|].
  unfold toDisplayPath. destruct dirs; reflexivity.
Qed.

Lemma ensureDirPath_run (path : string) (s : Store) :
  ensureDirPath path s
  = (Ok tt,
     snd (changeDirectory (toDisplayPath (cwdParts (state s)))
            (snd ((changeDirectory "/" ;;; ensureDirParts (cwdPartsOf path))
                    s)))).
Proof.
  change (ensureDirPath path s)
    with (match tryCatch
                  (changeDirectory "/" ;;; ensureDirParts (cwdPartsOf path))
                  (fun _ => ret tt) s with
          | (Ok _, s') =>
              tryCatch (changeDirectory (toDisplayPath (cwdParts (state s))))
                (fun _ => ret tt) s'
          | (Throw e, s') => (Throw e, s')
          end).
  unfold tryCatch, ret.
  destruct ((changeDirectory "/" ;;; ensureDirParts (cwdPartsOf path)) s)
    as [[u|e] s2]; cbn [snd];
    destruct (changeDirectory (toDisplayPath (cwdParts (state s))) s2)
      as [[[]|e'] s3]; reflexivity.
Qed.

Lemma writeJsonToVfs_run (path text : string) (s : Store) :
  writeJsonToVfs path text s
  = match ((if negb (getParentDir path =? "")
               && negb (getParentDir path =? "/")
            then ensureDirPath (getParentDir path) else ret tt) ;;;
           writeFile path text) s with
    | (Ok a, s') => (Ok a, s')
    | (Throw _, s') => (Ok tt, s')
    end.
Proof. reflexivity. Qed.

Lemma writeJsonToVfs_parents_run (dirs : list string)
    (name text : string) (s : Store) :
  forallb mkdirable dirs = true ->
  segOk name = true ->
  pathClear (root (state s)) dirs = true ->
  canonical (cwdParts (state s)) = true ->
  cwdResolves (state s) = true ->
  exists s',
    writeJsonToVfs (toDisplayPath (dirs ++ [name])) text s = (Ok tt, s')
    /\ fst (readFile (toDisplayPath (dirs ++ [name])) s') = Ok text
    /\ cwdParts (state s') = cwdParts (state s).
Proof.
  intros Hd Hn Hclear Hcwd Hres. cbv zeta.
  assert (Hcan : canonical (dirs ++ [name]) = true).
  { rewrite canonical_app, (mkdirable_canonical _ Hd).
    unfold canonical. cbn [forallb]. now rewrite Hn. }
  assert (Parts : forall cwd,
            normalizePathParts cwd (toDisplayPath (dirs ++ [name]))
            = (dirs ++ [name])%list).
  { intros cwd. apply normalizePathParts_display.
    apply (proj1 (canonical_Forall _)); exact Hcan. }
  assert (Wr : forall s0,
            cwdParts (state s0) = cwdParts (state s) ->
            resolveFolderFrom (root (state s0)) dirs <> None ->
            let r := writeFile (toDisplayPath (dirs ++ [name])) text s0 in
            fst r = Ok tt
            /\ fst (readFile (toDisplayPath (dirs ++ [name])) (snd r))
               = Ok text
            /\ cwdParts (state (snd r)) = cwdParts (state s)).
  { intros s0 Hc0 Hr0. cbv zeta.
    pose proof (writeFile_run (toDisplayPath (dirs ++ [name])) text s0) as W.
    cbv zeta in W. rewrite Parts, pop_snoc in W. cbn [fst snd] in W.
    destruct (resolveFolderFrom (root (state s0)) dirs); [|congruence].
    pose proof (writeFile_then_readFile _ _ _ _ W) as RB.
    rewrite W. cbn [fst snd]. rewrite RB.
    cbn [fst state cwdParts]. auto. }
  assert (Pre : exists s1,
            (if negb (toDisplayPath dirs =? "")
                && negb (toDisplayPath dirs =? "/")
             then ensureDirPath (toDisplayPath dirs) else ret tt) s
            = (Ok tt, s1)
            /\ cwdParts (state s1) = cwdParts (state s)
            /\ resolveFolderFrom (root (state s1)) dirs <> None).
  { destruct dirs as [|d0 dirs0] eqn:Edirs.
    - exists s. repeat split; discriminate.
    - rewrite <- Edirs in *.
      rewrite display_not_root
        by (first [now apply mkdirable_canonical|subst dirs; discriminate]).
      rewrite ensureDirPath_run.
      rewrite (cwdPartsOf_display _ (mkdirable_canonical _ Hd)).
      unfold bind. rewrite (changeDirectory_run "/" s).
      assert (R0 : normalizePathParts (cwdParts (state s)) "/" = [])
        by reflexivity.
      rewrite R0. cbn [resolveFolderFrom]. cbv zeta.
      match goal with
      | |- context [ensureDirParts dirs ?s1] =>
          destruct (ensureDirParts_run dirs s1 (root (state s)) Hd)
            as (s2 & E & Hc & Hr & Hq)
      end; [reflexivity|exact Hclear|].
      rewrite E. cbn [state root cwdParts app snd] in *.
      rewrite changeDirectory_run.
      rewrite normalizePathParts_display
        by (apply (proj1 (canonical_Forall _)); exact Hcwd).
      assert (Hback : resolveFolderFrom (root (state s2))
                        (cwdParts (state s)) <> None).
      { apply Hq. unfold cwdResolves in Hres.
        destruct (resolveFolderFrom (root (state s)) (cwdParts (state s)));
          discriminate. }
      destruct (resolveFolderFrom (root (state s2)) (cwdParts (state s)));
        [|congruence].
      cbv zeta. cbn [snd].
      eexists. split; [reflexivity|]. cbn [state root cwdParts].
      split; [reflexivity|]. rewrite <- Hc. exact Hr. }
  destruct Pre as (s1 & E1 & C1 & R1).
  rewrite writeJsonToVfs_run, (getParentDir_display _ _ Hcan).
  unfold bind. rewrite E1.
  destruct (Wr s1 C1 R1) as (A & B & C).
  destruct (writeFile (toDisplayPath (dirs ++ [name])) text s1)
    as [[[]|e] s4]; cbn [fst snd] in *; [|discriminate].
  exists s4. auto.
Qed.

(** X26. [writeJsonToVfs] makes the missing parent folders, writes the file
    and puts the cwd back.  For a path [/d1/.../dn/name] whose folder
    segments [d1 ... dn] are names [mkdir] accepts and [changeDirectory]
    steps into (not empty, not [.] or [..], no slash and no backslash) and
    whose last segment is canonical, on a store whose storage accepts the
    writes and whose cwd is canonical and resolves, and provided no file
    stands where one of the folders is needed: the call returns, the path
    then reads as the text written, and the cwd is the one before the
    call. *)
Theorem writeJsonToVfs_makes_parents (dirs : list string)
    (name text : string) (s : Store) :
  forallb mkdirable dirs = true ->
  segOk name = true ->
  pathClear (root (state s)) dirs = true ->
  canonical (cwdParts (state s)) = true ->
  cwdResolves (state s) = true ->
  let path := toDisplayPath (dirs ++ [name]) in
  let s' := snd (writeJsonToVfs path text s) in
  fst (writeJsonToVfs path text s) = Ok tt
  /\ fst (readFile path s') = Ok text
  /\ cwdParts (state s') = cwdParts (state s).
Proof.
  intros Hd Hn Hclear Hcwd Hres. cbv zeta.
  destruct (writeJsonToVfs_parents_run dirs name text s Hd Hn Hclear Hcwd
              Hres) as (s1 & E & R & C).
  rewrite E. cbn [fst snd]. auto.
Qed.

Lemma writeJsonToVfs_makes_parents_witness :
  let path := toDisplayPath (["sys"; "cfg"] ++ ["history.json"]) in
  let s' := snd (writeJsonToVfs path "[]" emptyStore) in
  fst (writeJsonToVfs path "[]" emptyStore) = Ok tt
  /\ fst (readFile path s') = Ok "[]"
  /\ cwdParts (state s') = cwdParts (state emptyStore).
Proof.
  apply (writeJsonToVfs_makes_parents ["sys"; "cfg"] "history.json" "[]"
           emptyStore); reflexivity.
Defined.

(** A folder segment with a backslash is refused by [mkdir]: nothing is
    written, and the call still returns. *)
Example writeJsonToVfs_refused_segment :
  writeJsonToVfs "/a\b/x.json" "t" emptyStore
  = (Ok tt, mkStore createDefaultState (Some createDefaultState) 2).
Proof. reflexivity. Qed.

Variable stringifyHistory : list string -> string.
Variable historyLimit : nat.


End HolderFiles.


Lemma reachable_states_keep_invariant_witness :
  VfsInvariant.stateOk
    (Vfs.state
       (VfsApi.runOps
          [VfsApi.OpMkdir "docs"; VfsApi.OpChangeDirectory "docs";
           VfsApi.OpWriteFile "a.txt" "x"; VfsApi.OpUnlink "a.txt";
           VfsApi.OpChangeDirectory ".."; VfsApi.OpRmdir "docs"]
          Vfs.emptyStore))
  = true.
Proof.
  apply (reachable_states_keep_invariant
           [VfsApi.OpMkdir "docs"; VfsApi.OpChangeDirectory "docs";
            VfsApi.OpWriteFile "a.txt" "x"; VfsApi.OpUnlink "a.txt";
            VfsApi.OpChangeDirectory ".."; VfsApi.OpRmdir "docs"]).
  reflexivity.
Defined.

(* ------------------------------------------------------------------ *)
(** ** PATH lookup: what it returns can be read *)
(* ------------------------------------------------------------------ *)

Section PathLookup.
Import JsString PathUtils CommandLine Vfs Holder Statements MoreCode
  MoreStatements.

Lemma includes_app (c : ascii) (a b : string) :
  includes c (a ++ b) = includes c a || includes c b.
Proof.
  induction a as [|x a IH]; [reflexivity|].
  cbn [append includes]. now rewrite IH, orb_assoc.
Qed.

Lemma length_append (a b : string) :
  String.length (a ++ b) = String.length a + String.length b.
Proof. induction a as [|x a IH]; cbn; [reflexivity|now rewrite IH]. Qed.

Lemma scriptFileName_segOk (c : string) :
  includes "/" c = false -> segOk (scriptFileName c) = true.
Proof.
  intros I. unfold scriptFileName, segOk.
  destruct (endsWith c ".js") eqn:E.
  - rewrite I.
    destruct (String.eqb_spec c ""); [subst; discriminate|].
    destruct (String.eqb_spec c "."); [subst; discriminate|].
    destruct (String.eqb_spec c ".."); [subst; discriminate|].
    reflexivity.
  - rewrite includes_app, I.
    assert (L : 3 <= String.length (c ++ ".js"))
      by (rewrite length_append; cbn; lia).
    destruct (String.eqb_spec (c ++ ".js") "");
      [rewrite e in L; cbn in L; lia|].
    destruct (String.eqb_spec (c ++ ".js") ".");
      [rewrite e in L; cbn in L; lia|].
    destruct (String.eqb_spec (c ++ ".js") "..");
      [rewrite e in L; cbn in L; lia|].
    reflexivity.
Qed.

Lemma stripLeadingSlashes_plain (s : string) :
  includes "/" s = false -> stripLeadingSlashes s = s.
Proof.
  destruct s as [|c s]; [reflexivity|]. cbn.
  intros H. apply orb_false_iff in H as [H _]. now rewrite H.
Qed.

Lemma startsWith_stripTrailing (dir b : string) :
  startsWith dir "/" = true ->
  startsWith (stripTrailingSlashes dir ++ "/" ++ b) "/" = true.
Proof.
  intros H. destruct (stripTrailingSlashes_split dir) as [k E].
  destruct (stripTrailingSlashes dir) as [|c t]; [reflexivity|].
  rewrite E in H. cbn in H. cbn. exact H.
Qed.

Lemma normalizePathParts_abs (cwd : list string) (dir : string) :
  startsWith dir "/" = true ->
  normalizePathParts cwd dir = fold_left normalizeStep (rawPartsOf dir) [].
Proof.
  intros H. unfold normalizePathParts. rewrite H.
  destruct dir as [|c dir]; [discriminate|].
  cbn in H. apply andb_true_iff in H as [Hc _].
  apply Ascii.eqb_eq in Hc. subst c. reflexivity.
Qed.

Lemma joinVfsPath_parts (cwd : list string) (dir file : string) :
  startsWith dir "/" = true -> segOk file = true ->
  normalizePathParts cwd (joinVfsPath dir file)
  = (normalizePathParts cwd dir ++ [file])%list.
Proof.
  intros Hd Hf. unfold joinVfsPath.
  assert (I : includes "/" file = false).
  { unfold segOk in Hf. destruct (includes "/" file); [|reflexivity].
    now rewrite andb_false_r in Hf. }
  rewrite (stripLeadingSlashes_plain _ I).
  rewrite (normalizePathParts_abs cwd _ (startsWith_stripTrailing _ _ Hd)).
  rewrite (normalizePathParts_abs cwd _ Hd).
  rewrite rawPartsOf_app, rawPartsOf_stripTrailing, fold_left_app.
  pose proof (normalizePathParts_child
                (fold_left normalizeStep (rawPartsOf dir) []) file Hf) as C.
  unfold normalizePathParts in C.
  unfold segOk in Hf.
  destruct (file =? "") eqn:E1; [discriminate|].
  destruct (file =? ".") eqn:E2; [discriminate|].
  cbn [orb] in C. rewrite (startsWith_includes _ I) in C. exact C.
Qed.

(** X28. Whatever path the PATH lookup returns can be read in the same
    session: the script runner that is handed the path never takes its
    error branch for a missing file. *)
Theorem path_hit_is_readable (env : Env) (commandName : string) (w : World)
    (scriptPath : string) :
  resolveScriptOnPath env commandName w = Some scriptPath ->
  exists source, readFile scriptPath (vfs w) = (Ok source, vfs w).
Proof.
  unfold resolveScriptOnPath.
  destruct (commandName =? ""); [discriminate|].
  destruct (includes "/" commandName) eqn:I; [discriminate|].
  rewrite searchPath_first.
  destruct (find (usableDir w (scriptFileName commandName)) (PATH env))
    as [[dir|]|] eqn:F; try discriminate.
  intros H. injection H as <-.
  apply find_some in F as [_ U]. cbn [usableDir] in U.
  apply andb_true_iff in U as [Hd Hh].
  apply (dirHasFile_spec w dir _ Hd) in Hh as (d & R & Ex).
  pose proof (scriptFileName_segOk _ I) as Hseg.
  rewrite readFile_run. cbv zeta.
  rewrite (joinVfsPath_parts _ _ _ Hd Hseg), pop_snoc. cbn [fst snd].
  rewrite R.
  destruct (find (fileNamed (Some (scriptFileName commandName))) (files d))
    as [f|] eqn:Ff.
  - eauto.
  - apply find_none_existsb in Ff. congruence.
Qed.

End PathLookup.

Lemma path_hit_is_readable_witness :
  exists source,
    Vfs.readFile "/bin/sample.js" (Holder.vfs Examples.sampleWorld)
    = (Vfs.Ok source, Holder.vfs Examples.sampleWorld).
Proof.
  apply (path_hit_is_readable Examples.sampleEnv "sample"
           Examples.sampleWorld "/bin/sample.js").
  reflexivity.
Defined.

(* ------------------------------------------------------------------ *)
(** ** Key handler: the state stays well-formed *)
(* ------------------------------------------------------------------ *)

Section KeyHandlerMore.
Import JsString CommandLine Vfs Completion CompletionApi KeyStatements.

Variable localeCompare : string -> string -> Z.
Variable searchTyping : KeyEvent -> KeyState -> KeyResult * KeyState.
Variable searchBackspace : KeyEvent -> KeyState -> KeyResult * KeyState.

Lemma keyStateOk_parts (n : nat) (st : KeyState) :
  keyStateOk n st = true <->
  searchMode st = false /\ (-1 <= historyIndex st < Z.of_nat n)%Z
  /\ match completionSession st with
     | None => True
     | Some s => sessionOk s = true
     end.
Proof.
  unfold keyStateOk.
  rewrite !andb_true_iff, negb_true_iff, Z.leb_le, Z.ltb_lt.
  destruct (completionSession st); intuition.
Qed.

Lemma keyStateOk_setHint (n : nat) (h : option Hint) (st : KeyState) :
  keyStateOk n (setHint h st) = keyStateOk n st.
Proof. reflexivity. Qed.

Lemma keyStateOk_noSession (n : nat) (st : KeyState) :
  keyStateOk n st = true -> keyStateOk n (setSession None st) = true.
Proof.
  rewrite !keyStateOk_parts. cbn [setSession searchMode historyIndex
    completionSession]. tauto.
Qed.

Lemma keyStateOk_newSession (n : nat) (s : CompletionSession)
    (st : KeyState) :
  keyStateOk n st = true -> sessionOk s = true ->
  keyStateOk n (setSession (Some s) st) = true.
Proof.
  rewrite !keyStateOk_parts. cbn [setSession searchMode historyIndex
    completionSession]. tauto.
Qed.

Lemma nextIndex_range (index delta : Z) (len : nat) :
  (0 <= index < Z.of_nat len)%Z -> (delta = 1 \/ delta = -1)%Z ->
  (0 <= nextIndex index delta len < Z.of_nat len)%Z.
Proof.
  intros Hi Hd. rewrite nextIndex_mod by assumption.
  apply Z.mod_pos_bound. lia.
Qed.

Lemma nextIndex_back (index : Z) (len : nat) :
  (0 <= index < Z.of_nat len)%Z ->
  nextIndex (nextIndex index 1 len) (-1) len = index.
Proof.
  intros Hi.
  pose proof (nextIndex_range index 1 len Hi (or_introl eq_refl)) as R.
  rewrite (nextIndex_mod _ (-1) len R) by auto.
  rewrite (nextIndex_mod index 1 len Hi) by auto.
  destruct (Z.eq_dec (index + 1) (Z.of_nat len)) as [E|E].
  - rewrite E, Z.mod_same by lia.
    rewrite <- (Z_mod_plus_full (0 + -1) 1 (Z.of_nat len)).
    rewrite Z.mod_small; lia.
  - rewrite (Z.mod_small (index + 1)) by lia.
    rewrite Z.mod_small; lia.
Qed.

Lemma itemAt_in_range {A} (items : list A) (i : Z) :
  (0 <= i < Z.of_nat (List.length items))%Z ->
  exists x, itemAt items i = Some x.
Proof.
  intros H. unfold itemAt.
  destruct (Z.ltb_spec i 0); [lia|].
  destruct (nth_error items (Z.to_nat i)) eqn:E; [eauto|].
  apply nth_error_None in E. lia.
Qed.

Lemma sessionOk_parts (s : CompletionSession) :
  sessionOk s = true <->
  2 <= itemCount s /\ (0 <= indexOf s < Z.of_nat (itemCount s))%Z.
Proof.
  unfold sessionOk.
  rewrite !andb_true_iff, Nat.leb_le, Z.leb_le, Z.ltb_lt. tauto.
Qed.

Lemma direction_delta (d : Z) :
  ((if (d =? -1)%Z then -1 else 1) = 1
   \/ (if (d =? -1)%Z then -1 else 1) = -1)%Z.
Proof. destruct (d =? -1)%Z; auto. Qed.

Lemma cycle_ok (n : nat) (ev : KeyEvent) (direction : Z) (st : KeyState) :
  keyStateOk n st = true ->
  keyStateOk n (snd (cycleCompletionSession ev direction st)) = true
  /\ fst (cycleCompletionSession ev direction st) <> Some KTypeError.
Proof.
  intros H. unfold cycleCompletionSession.
  destruct (completionSession st) as [session|] eqn:S;
    [|split; [exact H|discriminate]].
  destruct ((itemCount session <=? 1)%nat
            || negb (currentInput ev =? lastInputOf session));
    [split; [exact H|discriminate]|].
  pose proof (proj1 (keyStateOk_parts _ _) H) as (_ & _ & Hs).
  rewrite S in Hs. apply sessionOk_parts in Hs as [Hlen Hidx].
  pose proof (direction_delta direction) as Hd.
  destruct session as [items index last|items index bw aw dp q last];
    cbn [itemCount indexOf] in *;
    pose proof (nextIndex_range index _ _ Hidx Hd) as Hn.
  - cbv zeta. cbn [fst snd]. split; [|discriminate].
    rewrite keyStateOk_setHint. apply keyStateOk_newSession; [exact H|].
    apply sessionOk_parts. cbn [itemCount indexOf]. split; assumption.
  - cbv zeta. destruct (itemAt_in_range items _ Hn) as [m ->].
    cbn [fst snd]. split; [|discriminate].
    rewrite keyStateOk_setHint. apply keyStateOk_newSession; [exact H|].
    apply sessionOk_parts. cbn [itemCount indexOf]. split; assumption.
Qed.

Lemma startCommand_ok (n : nat) commands pathCmds word (st : KeyState) :
  keyStateOk n st = true ->
  keyStateOk n
    (snd (startCommandCompletionSession localeCompare commands pathCmds
            word st)) = true
  /\ fst (startCommandCompletionSession localeCompare commands pathCmds
            word st) <> KTypeError.
Proof.
  intros H. unfold startCommandCompletionSession.
  destruct (filter _ _) as [|a [|b r]]; cbn [fst snd];
    (split; [|discriminate]).
  - now apply keyStateOk_noSession.
  - now apply keyStateOk_noSession.
  - rewrite keyStateOk_setHint. apply keyStateOk_newSession; [exact H|].
    apply sessionOk_parts. cbn [itemCount indexOf List.length]. lia.
Qed.

Lemma startPath_ok (n : nat) store input word rs re q (st : KeyState) :
  keyStateOk n st = true ->
  keyStateOk n
    (snd (startPathCompletionSession store input word rs re q st)) = true
  /\ fst (startPathCompletionSession store input word rs re q st)
     <> KTypeError.
Proof.
  intros H. unfold startPathCompletionSession. cbv zeta.
  destruct (fst (listFolder _ store)) as [[fo fi]|err].
  2:{ cbn [fst snd]. split; [now apply keyStateOk_noSession|discriminate]. }
  destruct (existsb isNone fi).
  { cbn [fst snd]. split; [now apply keyStateOk_noSession|discriminate]. }
  destruct (filter _ _) as [|a [|b r]]; cbn [fst snd];
    (split; [|discriminate]).
  - now apply keyStateOk_noSession.
  - now apply keyStateOk_noSession.
  - rewrite keyStateOk_setHint. apply keyStateOk_newSession; [exact H|].
    apply sessionOk_parts. cbn [itemCount indexOf List.length]. lia.
Qed.

Lemma freshCompletion_ok (n : nat) commands pathCmds store ev
    (st : KeyState) :
  keyStateOk n st = true ->
  keyStateOk n
    (snd (freshCompletion localeCompare commands pathCmds store ev st))
  = true
  /\ fst (freshCompletion localeCompare commands pathCmds store ev st)
     <> KTypeError.
Proof.
  intros H. unfold freshCompletion. cbv zeta.
  destruct (List.length (wordsOf (currentInput ev)) <=? 1)%nat.
  - destruct (startsWith _ "./");
      [now apply startPath_ok|now apply startCommand_ok].
  - destruct ((List.length (wordsOf (currentInput ev)) =? 2)%nat
              && (hd "" (wordsOf (currentInput ev)) =? "hello"));
      [|now apply startPath_ok].
    destruct (filter _ _) as [|a [|b r]]; cbn [fst snd];
      (split; [try rewrite keyStateOk_setHint; exact H|discriminate]).
Qed.

(** X29. Outside history search the key handler keeps its state well-formed
    whatever the key is: search mode stays off, the history index stays
    -1 or inside the history, a completion session that is kept or opened
    has at least two candidates and an index that points at one of them;
    and the handler never throws on a missing candidate. *)
Theorem keyHandler_keeps_state_ok (commands pathCmds hist : list string)
    (store : Store) (ev : KeyEvent) (st : KeyState) :
  keyStateOk (List.length hist) st = true ->
  keyStateOk (List.length hist)
    (snd (keyHandler localeCompare searchTyping searchBackspace commands
            pathCmds hist store ev st)) = true
  /\ fst (keyHandler localeCompare searchTyping searchBackspace commands
            pathCmds hist store ev st) <> KTypeError.
Proof.
  intros H. pose proof (proj1 (keyStateOk_parts _ _) H) as (Hm & Hh & Hs).
  unfold keyHandler.
  destruct (ctrlKey ev && (code ev =? "KeyD")
            && (trim (currentInput ev) =? "")).
  { cbn [fst snd]. split; [exact H|discriminate]. }
  destruct (code ev =? "Escape").
  { cbn [fst snd]. split.
    - apply keyStateOk_parts. cbn. repeat split; lia.
    - destruct (searchMode st || negb (isNone (completionSession st)));
        discriminate. }
  destruct (code ev =? "ArrowUp").
  { destruct hist as [|h0 hist']; [split; [exact H|discriminate]|].
    cbv zeta. cbn [fst snd]. split; [|discriminate].
    apply keyStateOk_parts.
    cbn [setHistoryIndex searchMode historyIndex completionSession].
    repeat split; try assumption; cbn [List.length] in *; lia. }
  destruct (code ev =? "ArrowDown").
  { destruct (Z.ltb_spec (-1) (historyIndex st));
      [|split; [exact H|discriminate]].
    cbv zeta.
    assert (K : keyStateOk (List.length hist)
                  (setHistoryIndex (Z.max (historyIndex st - 1) (-1)) st)
                = true).
    { apply keyStateOk_parts.
      cbn [setHistoryIndex searchMode historyIndex completionSession].
      repeat split; try assumption; lia. }
    destruct (Z.max (historyIndex st - 1) (-1) =? -1)%Z; cbn [fst snd];
      (split; [exact K|discriminate]). }
  destruct (code ev =? "Tab").
  { cbv zeta.
    pose proof (cycle_ok _ ev (if altKey ev || shiftKey ev then -1 else 1)%Z
                  st H) as [C1 C2].
    destruct (cycleCompletionSession ev
                (if altKey ev || shiftKey ev then -1 else 1)%Z st)
      as [[r|] st1]; cbn [fst snd] in *.
    - split; [exact C1|congruence].
    - now apply freshCompletion_ok. }
  rewrite Hm. cbn [andb negb].
  destruct (String.length (key ev) =? 1)%nat; cbn [fst snd].
  - split; [|discriminate]. rewrite <- keyStateOk_setHint with (h := None) in H.
    now apply keyStateOk_noSession.
  - split; [exact H|discriminate].
Qed.

(** X30. Cycling forward and then backward comes back to the same candidate:
    after a [Tab] on the last proposal of a well-formed session and a
    [Shift+Tab] on the new proposal, the session has the candidates and
    the index it had at the start. *)
Theorem tab_then_back_returns (ev ev' : KeyEvent) (st st1 : KeyState)
    (session : CompletionSession) (in1 : string) :
  completionSession st = Some session ->
  sessionOk session = true ->
  currentInput ev = lastInputOf session ->
  cycleCompletionSession ev 1 st = (Some (KInput in1), st1) ->
  currentInput ev' = in1 ->
  exists in2 st2 session2,
    cycleCompletionSession ev' (-1) st1 = (Some (KInput in2), st2)
    /\ completionSession st2 = Some session2
    /\ namesOf session2 = namesOf session
    /\ indexOf session2 = indexOf session.
Proof.
  intros S Hok Hin C Hin'.
  apply sessionOk_parts in Hok as [Hlen Hidx].
  unfold cycleCompletionSession in C. rewrite S in C.
  assert (G : (itemCount session <=? 1)%nat
              || negb (currentInput ev =? lastInputOf session) = false).
  { rewrite Hin, String.eqb_refl. cbn [negb]. rewrite orb_false_r.
    apply Nat.leb_gt. lia. }
  rewrite G in C. clear G.
  destruct session as [items index last|items index bw aw dp q last];
    cbn [itemCount indexOf namesOf lastInputOf] in *;
    pose proof (nextIndex_range index 1 _ Hidx (or_introl eq_refl)) as Hn;
    pose proof (nextIndex_back index _ Hidx) as Hb;
    cbv zeta in C; cbn [Z.eqb] in C.
  - injection C as <- <-.
    unfold cycleCompletionSession.
    cbn [setHint setSession completionSession itemCount lastInputOf].
    rewrite Hin', String.eqb_refl. cbn [negb]. rewrite orb_false_r.
    destruct (Nat.leb_spec (List.length items) 1); [lia|].
    cbv zeta. change ((-1 =? -1)%Z) with true. cbv iota. rewrite Hb.
    eexists _, _, _. split; [reflexivity|].
    cbn [setHint setSession completionSession namesOf indexOf].
    repeat split.
  - destruct (itemAt_in_range items _ Hn) as [m Hm]. rewrite Hm in C.
    injection C as <- <-.
    unfold cycleCompletionSession.
    cbn [setHint setSession completionSession itemCount lastInputOf].
    rewrite Hin', String.eqb_refl. cbn [negb]. rewrite orb_false_r.
    destruct (Nat.leb_spec (List.length items) 1); [lia|].
    cbv zeta. change ((-1 =? -1)%Z) with true. cbv iota. rewrite Hb.
    destruct (itemAt_in_range items _ Hidx) as [m0 ->].
    eexists _, _, _. split; [reflexivity|].
    cbn [setHint setSession completionSession namesOf indexOf].
    repeat split.
Qed.

End KeyHandlerMore.

Lemma keyHandler_keeps_state_ok_witness :
  KeyStatements.keyStateOk (List.length ["ls"; "pwd"])
    (snd (Completion.keyHandler CompletionApi.codeUnitCompare
            CompletionApi.noSearch CompletionApi.noSearch
            ["cat"; "cd"; "ls"] [] ["ls"; "pwd"] Vfs.emptyStore
            (CompletionApi.tabOn "c") (CompletionApi.stateWith None)))
  = true
  /\ fst (Completion.keyHandler CompletionApi.codeUnitCompare
            CompletionApi.noSearch CompletionApi.noSearch
            ["cat"; "cd"; "ls"] [] ["ls"; "pwd"] Vfs.emptyStore
            (CompletionApi.tabOn "c") (CompletionApi.stateWith None))
     <> Completion.KTypeError.
Proof.
  apply (keyHandler_keeps_state_ok CompletionApi.codeUnitCompare
           CompletionApi.noSearch CompletionApi.noSearch
           ["cat"; "cd"; "ls"] [] ["ls"; "pwd"] Vfs.emptyStore
           (CompletionApi.tabOn "c") (CompletionApi.stateWith None)).
  reflexivity.
Defined.

Lemma tab_then_back_returns_witness :
  let session := Completion.CommandSession ["cat"; "cd"] 0 "cat " in
  let st := CompletionApi.stateWith (Some session) in
  exists in2 st2 session2,
    Completion.cycleCompletionSession
      (Completion.mkKey "Tab" "Tab" false false true "cd ") (-1)
      (snd (Completion.cycleCompletionSession (CompletionApi.tabOn "cat ")
              1 st))
    = (Some (Completion.KInput in2), st2)
    /\ Completion.completionSession st2 = Some session2
    /\ KeyStatements.namesOf session2 = KeyStatements.namesOf session
    /\ KeyStatements.indexOf session2 = KeyStatements.indexOf session.
Proof.
  cbv zeta.
  apply (tab_then_back_returns (CompletionApi.tabOn "cat ")
           (Completion.mkKey "Tab" "Tab" false false true "cd ")
           (CompletionApi.stateWith
              (Some (Completion.CommandSession ["cat"; "cd"] 0 "cat ")))
           _ (Completion.CommandSession ["cat"; "cd"] 0 "cat ") "cd ");
    reflexivity.
Defined.

(* ------------------------------------------------------------------ *)
(** ** Store calls when the storage write can fail *)
(* ------------------------------------------------------------------ *)

Section StorageFailure.
Import JsString PathUtils Vfs VfsApi MoreStatements StorageStatements.

Local Ltac split_match :=
  match goal with
  | |- context [match ?x with _ => _ end] =>
      lazymatch x with
      | context [match _ with _ => _ end] => fail
      | _ => destruct x eqn:?
      end
  end.

(** A call on the object is the call on the store it is when its storage
    accepts, up to the storage write that ends a mutating method: the same
    checks, the same error, the same mutation, and then [setItem]. *)
Lemma runOp_factor (op : StoreOp) (o : VfsStorage.VfsObject) :
  VfsStorage.runOp op o
  = match runOp op (toStore o) with
    | (Throw e, _) => (VfsStorage.Raise (VfsStorage.OwnError e), o)
    | (Ok v, s') =>
        if readsOnly op then (VfsStorage.Done v, o)
        else commit (state s') v o
    end.
Proof.
  destruct o as [[r cwd] [h acc] k].
  destruct op; unfold toStore, commit, readsOnly;
    unfold VfsStorage.runOp, VfsStorage.changeDirectory, VfsStorage.mkdir,
      VfsStorage.rmdir, VfsStorage.writeFile, VfsStorage.ensureFileParent,
      VfsStorage.readFile, VfsStorage.getFile, VfsStorage.unlink,
      VfsStorage.getCwdFolder, VfsStorage.normalizePath,
      VfsStorage.resolveFolder, VfsStorage.mutateFolder, VfsStorage.bind,
      VfsStorage.ret, VfsStorage.throw, VfsStorage.getState,
      VfsStorage.setState, VfsStorage.save;
    unfold runOp, changeDirectory, mkdir, rmdir, writeFile, ensureFileParent,
      readFile, getFile, unlink, getCwdFolder, normalizePath, resolveFolder,
      mutateFolder, bind, ret, throw, getState, setState, save;
    cbn [state root cwdParts persisted saveCount VfsStorage.memory
         VfsStorage.storage VfsStorage.saveCalls VfsStorage.held
         VfsStorage.accepts];
    repeat (split_match;
            cbn [state root cwdParts persisted saveCount VfsStorage.memory
                 VfsStorage.storage VfsStorage.saveCalls VfsStorage.held
                 VfsStorage.accepts]);
    try reflexivity; try congruence.
Qed.

(** C10, as the code has it.  Whenever one of [changeDirectory], [mkdir],
    [rmdir], [writeFile], [readFile], [unlink] raises one of the errors
    the store makes itself, the object is exactly the one before the call:
    the node tree and the cwd segment list are unchanged, and so are the
    storage and the number of [save] calls (no [save] ran).  When it
    raises what [setItem] threw, the call was a mutating one, [save] ran
    once, the storage is the one before the call, and memory holds the
    state the call leaves when the storage write returns, a state the
    storage refuses. *)
Theorem store_error_atomic (op : StoreOp) (o o' : VfsStorage.VfsObject)
    (r : VfsStorage.Raised) :
  VfsStorage.runOp op o = (VfsStorage.Raise r, o') ->
  match r with
  | VfsStorage.OwnError _ => o' = o
  | VfsStorage.StorageError =>
      readsOnly op = false
      /\ VfsStorage.memory o' = state (snd (runOp op (toStore o)))
      /\ VfsStorage.storage o' = VfsStorage.storage o
      /\ VfsStorage.saveCalls o' = S (VfsStorage.saveCalls o)
      /\ VfsStorage.accepts (VfsStorage.storage o) (VfsStorage.memory o')
         = false
  end.
Proof.
  rewrite runOp_factor.
  destruct (runOp op (toStore o)) as [[v|e] s'] eqn:R; cbn [snd].
  - destruct (readsOnly op); [discriminate|].
    unfold commit.
    destruct (VfsStorage.accepts (VfsStorage.storage o) (state s')) eqn:A;
      [discriminate|].
    intros H. injection H as <- <-.
    cbn [VfsStorage.memory VfsStorage.storage VfsStorage.saveCalls].
    auto.
  - intros H. injection H as <- <-. reflexivity.
Qed.

(** X2. Every call that returns, other than [readFile], has written the
    state it leaves in memory to storage, with exactly one [save];
    [readFile] leaves the whole object alone.  Once memory and storage
    agree they agree after every call that returns or raises one of the
    store's own errors; a call that raises what [setItem] threw leaves the storage
    holding what it held, after one [save]. *)
Theorem store_write_through (op : StoreOp) (o : VfsStorage.VfsObject) :
  (forall v o', VfsStorage.runOp op o = (VfsStorage.Done v, o') ->
     if readsOnly op then o' = o
     else inSync o'
          /\ VfsStorage.saveCalls o' = S (VfsStorage.saveCalls o))
  /\ (inSync o ->
      fst (VfsStorage.runOp op o) <> VfsStorage.Raise VfsStorage.StorageError ->
      inSync (snd (VfsStorage.runOp op o)))
  /\ (fst (VfsStorage.runOp op o) = VfsStorage.Raise VfsStorage.StorageError ->
      VfsStorage.held (VfsStorage.storage (snd (VfsStorage.runOp op o)))
      = VfsStorage.held (VfsStorage.storage o)
      /\ VfsStorage.saveCalls (snd (VfsStorage.runOp op o))
         = S (VfsStorage.saveCalls o)).
Proof.
  rewrite runOp_factor. unfold inSync.
  destruct (runOp op (toStore o)) as [[v|e] s'] eqn:R.
  - destruct (readsOnly op) eqn:RO.
    + cbn [fst snd]. split; [|split]; [|auto|discriminate].
      intros v0 o' H. now injection H as _ <-.
    + unfold commit.
      destruct (VfsStorage.accepts (VfsStorage.storage o) (state s'));
        cbn [fst snd VfsStorage.memory VfsStorage.storage
             VfsStorage.saveCalls VfsStorage.held].
      * split; [|split]; [|auto|discriminate].
        intros v0 o' H. injection H as _ <-.
        cbn [VfsStorage.memory VfsStorage.storage VfsStorage.saveCalls
             VfsStorage.held]. auto.
      * split; [|split]; [discriminate|congruence|auto].
  - cbn [fst snd]. split; [|split]; [discriminate|auto|discriminate].
Qed.

(** With a storage that accepts every state the object behaves as the
    store [Store] does: the same result, and the same memory, storage
    content and number of saves. *)
Lemma accepting_storage_is_store (op : StoreOp) (o : VfsStorage.VfsObject) :
  (forall st, VfsStorage.accepts (VfsStorage.storage o) st = true) ->
  toStore (snd (VfsStorage.runOp op o)) = snd (runOp op (toStore o))
  /\ match fst (VfsStorage.runOp op o), fst (runOp op (toStore o)) with
     | VfsStorage.Done v, Ok v' => v = v'
     | VfsStorage.Raise (VfsStorage.OwnError e), Throw e' => e = e'
     | _, _ => False
     end.
Proof.
  intros Acc. rewrite runOp_factor.
  pose proof (runOp_write_through op (toStore o)) as [W _].
  destruct (runOp op (toStore o)) as [[v|e] s'] eqn:R; cbn [fst snd].
  - specialize (W v s' eq_refl). destruct (readsOnly op).
    + split; [now subst s'|reflexivity].
    + unfold commit. rewrite Acc. cbn [fst snd]. split; [|reflexivity].
      destruct W as [Wp Wc]. destruct s' as [st ps k].
      cbn [state persisted saveCount toStore] in *.
      unfold toStore.
      cbn [VfsStorage.memory VfsStorage.storage VfsStorage.saveCalls
           VfsStorage.held]. now rewrite Wp, Wc.
  - apply runOp_thrown in R. split; [now subst s'|reflexivity].
Qed.

End StorageFailure.

Lemma store_error_atomic_witness :
  let o := StorageStatements.emptyObject (fun _ => false) in
  let o' := snd (VfsStorage.runOp (VfsApi.OpMkdir "a") o) in
  MoreStatements.readsOnly (VfsApi.OpMkdir "a") = false
  /\ VfsStorage.memory o'
     = Vfs.state (snd (VfsApi.runOp (VfsApi.OpMkdir "a")
                         (StorageStatements.toStore o)))
  /\ VfsStorage.storage o' = VfsStorage.storage o
  /\ VfsStorage.saveCalls o' = S (VfsStorage.saveCalls o)
  /\ VfsStorage.accepts (VfsStorage.storage o) (VfsStorage.memory o')
     = false.
Proof.
  apply (store_error_atomic (VfsApi.OpMkdir "a")
           (StorageStatements.emptyObject (fun _ => false))
           (snd (VfsStorage.runOp (VfsApi.OpMkdir "a")
                   (StorageStatements.emptyObject (fun _ => false))))
           VfsStorage.StorageError).
  reflexivity.
Defined.

(** On a fresh object whose storage refuses every write, [mkdir] raises
    and yet memory has the new folder and [save] was called: the error of
    the call did not leave the in-memory state as it was. *)
Lemma storage_error_not_atomic :
  exists o',
    VfsStorage.mkdir "a" (StorageStatements.emptyObject (fun _ => false))
    = (VfsStorage.Raise VfsStorage.StorageError, o')
    /\ VfsStorage.memory o'
       = Vfs.mkState (Vfs.mkFolder "/" [Vfs.mkFolder "a" [] []] []) []
    /\ VfsStorage.memory o'
       <> VfsStorage.memory (StorageStatements.emptyObject (fun _ => false))
    /\ VfsStorage.saveCalls o' = 1.
Proof.
  eexists. split; [reflexivity|]. cbn. repeat split. discriminate.
Qed.
